(** * Sudoku engine: constraint checker, backtracking solver, generator, validator

    A shallow embedding of [sudokuSolver.ts], [sudokuGenerator.ts] and
    [sudokuValidation.ts], and the properties of the engine proved over it.

    Conventions of the embedding
    - a board is [(number | null)[][]]: a list of rows of JavaScript values;
      [JUndefined] is what an out-of-range column read (or an array hole)
      yields, and it is neither [=== null] nor [=== 0] nor [=== num];
    - the numbers held by a board are integers ([Z]); row and column indices
      are the loop counters of the source (natural numbers);
    - reading [board[i][j]] when [board[i]] is undefined raises a TypeError:
      every function returns an [outcome];
    - the recursive searches carry a fuel argument; the entry points supply
      enough of it (one unit per empty cell, plus one) and this is proved. *)

From Stdlib Require Import ZArith Lia List Sorted.
From stdpp Require Import base option list finite strings pretty gmap.

Open Scope Z_scope.
Open Scope nat_scope.

(** ** JavaScript values, boards, outcomes *)

Inductive jsval : Type :=
  | JUndefined
  | JNull
  | JNum (n : Z).

#[global] Instance jsval_eq_dec : EqDecision jsval.
Proof. solve_decision. Defined.

(** [export type SudokuBoard = (number | null)[][]] *)
Abbreviation SudokuBoard := (list (list jsval)).

Inductive outcome (A : Type) : Type :=
  | Ok (a : A)
  | TypeError
  | OutOfFuel.
Arguments Ok {A} a.
Arguments TypeError {A}.
Arguments OutOfFuel {A}.

#[global] Instance outcome_ret : MRet outcome := @Ok.
#[global] Instance outcome_bind : MBind outcome := λ A B f m,
  match m with
  | Ok a => f a
  | TypeError => TypeError
  | OutOfFuel => OutOfFuel
  end.

(** [board[i][j]] as an expression: throws when [board[i]] is undefined,
    gives [undefined] when the column is out of range. *)
Definition readCell (b : SudokuBoard) (i j : nat) : outcome jsval :=
  match b !! i with
  | None => TypeError
  | Some r => Ok (default JUndefined (r !! j))
  end.

(** [board[i][j] = v]: throws when [board[i]] is undefined; past the end of
    the row JavaScript extends the array, leaving holes. *)
Definition writeCell (b : SudokuBoard) (i j : nat) (v : jsval) : outcome SudokuBoard :=
  match b !! i with
  | None => TypeError
  | Some r =>
      Ok (<[i := if decide (j < length r) then <[j := v]> r
                 else r ++ replicate (j - length r) JUndefined ++ [v]]> b)
  end.

(** [v === num] for a number [num] *)
Definition strictEq (v : jsval) (num : Z) : bool :=
  match v with
  | JNum n => Z.eqb n num
  | _ => false
  end.

(** [v === null || v === 0] *)
Definition isEmptyVal (v : jsval) : bool :=
  match v with
  | JNull => true
  | JNum n => Z.eqb n 0
  | JUndefined => false
  end.

(** ** sudokuSolver.ts *)

(** The three scans of [isValid] share one shape:
    [for (...) if (board[i][j] === num) return false;] over a fixed list of
    coordinates. [noneEqual] is that loop; [Ok true] means it fell through. *)
Fixpoint noneEqual (b : SudokuBoard) (num : Z) (cells : list (nat * nat)) : outcome bool :=
  match cells with
  | [] => Ok true
  | (i, j) :: rest =>
      v ← readCell b i j;
      if strictEq v num then Ok false else noneEqual b num rest
  end.

Definition rowCells (row : nat) : list (nat * nat) :=
  map (λ x, (row, x)) (seq 0 9).

Definition colCells (col : nat) : list (nat * nat) :=
  map (λ x, (x, col)) (seq 0 9).

Definition boxCells (row col : nat) : list (nat * nat) :=
  let startRow := row - (row mod 3) in
  let startCol := col - (col mod 3) in
  flat_map (λ i, map (λ j, (i + startRow, j + startCol)) (seq 0 3)) (seq 0 3).

Definition isValid (b : SudokuBoard) (row col : nat) (num : Z) : outcome bool :=
  okRow ← noneEqual b num (rowCells row);
  if negb okRow then Ok false else
  okCol ← noneEqual b num (colCells col);
  if negb okCol then Ok false else
  okBox ← noneEqual b num (boxCells row col);
  if negb okBox then Ok false else
  Ok true.

(** Row-major scan of the 81 coordinates, as the two nested loops of
    [findEmpty] and [validateBoard] visit them. *)
Definition allCells : list (nat * nat) :=
  flat_map (λ i, map (λ j, (i, j)) (seq 0 9)) (seq 0 9).

Fixpoint firstEmpty (b : SudokuBoard) (cells : list (nat * nat)) : outcome (option (nat * nat)) :=
  match cells with
  | [] => Ok None
  | (i, j) :: rest =>
      v ← readCell b i j;
      if isEmptyVal v then Ok (Some (i, j)) else firstEmpty b rest
  end.

Definition findEmpty (b : SudokuBoard) : outcome (option (nat * nat)) :=
  firstEmpty b allCells.

(** [for (let num = 1; num <= 9; num++)] *)
Definition digits : list Z := [1; 2; 3; 4; 5; 6; 7; 8; 9]%Z.

(** The loop body of [solveSudokuInstant] at the empty cell [(row, col)],
    over the digits still to try; [rec] is the recursive call. *)
Fixpoint tryDigits (rec : SudokuBoard → outcome (bool * SudokuBoard))
    (row col : nat) (nums : list Z) (b : SudokuBoard) : outcome (bool * SudokuBoard) :=
  match nums with
  | [] => Ok (false, b)
  | num :: rest =>
      ok ← isValid b row col num;
      if ok : bool then
        b1 ← writeCell b row col (JNum num);
        '(solved, b2) ← rec b1;
        if solved : bool then Ok (true, b2) else
        b3 ← writeCell b2 row col JNull;
        tryDigits rec row col rest b3
      else tryDigits rec row col rest b
  end.

Fixpoint solveFuel (fuel : nat) (b : SudokuBoard) : outcome (bool * SudokuBoard) :=
  match fuel with
  | O => OutOfFuel
  | S fuel' =>
      empty ← findEmpty b;
      match empty with
      | None => Ok (true, b)
      | Some (row, col) => tryDigits (solveFuel fuel') row col digits b
      end
  end.

(** Number of cells the solver regards as empty; each recursive call fills one. *)
Definition countEmpty (b : SudokuBoard) : nat :=
  length (filter (λ v, isEmptyVal v = true) (concat b)).

(** [solveSudokuInstant(board)]: the result and the board as the call leaves it. *)
Definition solveSudokuInstant (b : SudokuBoard) : outcome (bool * SudokuBoard) :=
  solveFuel (S (countEmpty b)) b.

(** *** The traced solver: [solveSudoku(board, onStep)]

    The callback receives a deep copy of the board and the coordinates just
    written, right after every placement and right after every removal. The
    trace is the sequence of those calls, in order. The [await]ed 10ms timers
    only space the calls in time; the board is owned by the call. *)

Record Step : Type := mkStep {
  stepBoard : SudokuBoard;
  stepRow : nat;
  stepCol : nat
}.

Fixpoint tryDigitsTraced (rec : SudokuBoard → outcome (bool * SudokuBoard * list Step))
    (row col : nat) (nums : list Z) (b : SudokuBoard)
    : outcome (bool * SudokuBoard * list Step) :=
  match nums with
  | [] => Ok (false, b, [])
  | num :: rest =>
      ok ← isValid b row col num;
      if ok : bool then
        b1 ← writeCell b row col (JNum num);
        let placed := mkStep b1 row col in
        '(solved, b2, inner) ← rec b1;
        if solved : bool then Ok (true, b2, placed :: inner) else
        b3 ← writeCell b2 row col JNull;
        let removed := mkStep b3 row col in
        '(res, b4, later) ← tryDigitsTraced rec row col rest b3;
        Ok (res, b4, placed :: inner ++ removed :: later)
      else tryDigitsTraced rec row col rest b
  end.

Fixpoint solveTracedFuel (fuel : nat) (b : SudokuBoard)
    : outcome (bool * SudokuBoard * list Step) :=
  match fuel with
  | O => OutOfFuel
  | S fuel' =>
      empty ← findEmpty b;
      match empty with
      | None => Ok (true, b, [])
      | Some (row, col) => tryDigitsTraced (solveTracedFuel fuel') row col digits b
      end
  end.

(** [solveSudoku(board, onStep)] with a callback: result, final board, and the
    calls the callback received. *)
Definition solveSudoku (b : SudokuBoard) : outcome (bool * SudokuBoard * list Step) :=
  solveTracedFuel (S (countEmpty b)) b.

(** Playing a trace back the way the page does ([setBoard(step.board)] for
    each step in order), starting from the original board. *)
Definition replay (original : SudokuBoard) (trace : list Step) : SudokuBoard :=
  fold_left (λ _ step, stepBoard step) trace original.

(** Playing a trace back by applying each recorded write: the cell
    [(row, col)] of the step takes the value it has in the step's snapshot. *)
Definition applyStep (b : SudokuBoard) (step : Step) : SudokuBoard :=
  match stepBoard step !! stepRow step with
  | Some r =>
      match r !! stepCol step, b !! stepRow step with
      | Some v, Some r0 => <[stepRow step := <[stepCol step := v]> r0]> b
      | _, _ => b
      end
  | None => b
  end.

Definition replayWrites (original : SudokuBoard) (trace : list Step) : SudokuBoard :=
  fold_left applyStep trace original.

(** ** sudokuGenerator.ts *)

(** [Array(9).fill(null).map(() => Array(9).fill(null))] *)
Definition createEmptyBoard : SudokuBoard := replicate 9 (replicate 9 JNull).

(** [board.flatMap((row, i) => row.map((cell, j) => cell === null ? [i, j] : null))
         .filter(pos => pos !== null)[0]] *)
Definition nullPositions (b : SudokuBoard) : list (nat * nat) :=
  omap id (concat (imap (λ i row,
    imap (λ j cell, match cell with JNull => Some (i, j) | _ => None end) row) b)).

Definition firstNull (b : SudokuBoard) : option (nat * nat) := head (nullPositions b).

Definition countNull (b : SudokuBoard) : nat := length (nullPositions b).

(** [[a[i], a[j]] = [a[j], a[i]]] *)
Definition swap {A : Type} (l : list A) (i j : nat) : list A :=
  match l !! i, l !! j with
  | Some x, Some y => <[j := x]> (<[i := y]> l)
  | _, _ => l
  end.

Inductive Difficulty : Type := easy | medium | hard.

Definition cellsToRemove (d : Difficulty) : nat :=
  match d with
  | easy => 40
  | medium => 50
  | hard => 57
  end.

Section Generator.

(** The random choices. [random k] stands for the [k]-th call of
    [Math.random()]; [Math.floor(Math.random() * (i + 1))] is an integer of
    [0..i], read off the oracle as [random k mod (i + 1)]. Every function
    below threads the number of calls made so far. *)
Variable random : nat → nat.

Fixpoint shuffleLoop {A : Type} (i : nat) (newArray : list A) (k : nat) : list A * nat :=
  match i with
  | O => (newArray, k)
  | S i' =>
      let j := random k mod (i + 1) in
      shuffleLoop i' (swap newArray i j) (S k)
  end.

Definition shuffle {A : Type} (array : list A) (k : nat) : list A * nat :=
  shuffleLoop (length array - 1) array k.

Fixpoint tryFill (rec : SudokuBoard → nat → outcome (bool * SudokuBoard * nat))
    (row col : nat) (nums : list Z) (b : SudokuBoard) (k : nat)
    : outcome (bool * SudokuBoard * nat) :=
  match nums with
  | [] => Ok (false, b, k)
  | num :: rest =>
      ok ← isValid b row col num;
      if ok : bool then
        b1 ← writeCell b row col (JNum num);
        '(filled, b2, k2) ← rec b1 k;
        if filled : bool then Ok (true, b2, k2) else
        b3 ← writeCell b2 row col JNull;
        tryFill rec row col rest b3 k2
      else tryFill rec row col rest b k
  end.

Fixpoint fillFuel (fuel : nat) (b : SudokuBoard) (k : nat)
    : outcome (bool * SudokuBoard * nat) :=
  match fuel with
  | O => OutOfFuel
  | S fuel' =>
      match firstNull b with
      | None => Ok (true, b, k)
      | Some (row, col) =>
          let '(numbers, k1) := shuffle digits k in
          tryFill (fillFuel fuel') row col numbers b k1
      end
  end.

Definition fillBoard (b : SudokuBoard) (k : nat) : outcome (bool * SudokuBoard * nat) :=
  fillFuel (S (countNull b)) b k.

(** The loop of [countSolutions] at the empty cell [(row, col)]. *)
Fixpoint countLoop (rec : SudokuBoard → outcome (nat * SudokuBoard))
    (limit row col : nat) (nums : list Z) (b : SudokuBoard) (count : nat)
    : outcome (nat * SudokuBoard) :=
  match nums with
  | [] => Ok (count, b)
  | num :: rest =>
      ok ← isValid b row col num;
      if ok : bool then
        b1 ← writeCell b row col (JNum num);
        '(found, b2) ← rec b1;
        let count := count + found in
        b3 ← writeCell b2 row col JNull;
        if decide (limit ≤ count) then Ok (count, b3)
        else countLoop rec limit row col rest b3 count
      else countLoop rec limit row col rest b count
  end.

Fixpoint countFuel (fuel : nat) (limit : nat) (b : SudokuBoard) : outcome (nat * SudokuBoard) :=
  match fuel with
  | O => OutOfFuel
  | S fuel' =>
      match firstNull b with
      | None => Ok (1, b)
      | Some (row, col) => countLoop (countFuel fuel' limit) limit row col digits b 0
      end
  end.

(** [countSolutions(board, limit = 2)] *)
Definition countSolutions (b : SudokuBoard) : outcome (nat * SudokuBoard) :=
  countFuel (S (countNull b)) 2 b.

(** [Array.from({ length: 81 }, (_, i) => [Math.floor(i / 9), i % 9])] *)
Definition cells81 : list (nat * nat) := map (λ i, (i / 9, i mod 9)) (seq 0 81).

Fixpoint removeLoop (cells : list (nat * nat)) (target : nat)
    (b : SudokuBoard) (removed : nat) : outcome SudokuBoard :=
  match cells with
  | [] => Ok b
  | (row, col) :: rest =>
      if decide (target ≤ removed) then Ok b else
      backup ← readCell b row col;
      b1 ← writeCell b row col JNull;
      let testBoard := b1 in
      '(found, _) ← countSolutions testBoard;
      if decide (found ≠ 1) then
        b2 ← writeCell b1 row col backup;
        removeLoop rest target b2 removed
      else removeLoop rest target b1 (S removed)
  end.

Definition removeNumbers (b : SudokuBoard) (target : nat) (k : nat) : outcome SudokuBoard :=
  let '(shuffledCells, _) := shuffle cells81 k in
  removeLoop shuffledCells target b 0.

Definition generateSudoku (difficulty : Difficulty) : outcome SudokuBoard :=
  let board := createEmptyBoard in
  '(_, board, k) ← fillBoard board 0;
  removeNumbers board (cellsToRemove difficulty) k.

End Generator.

(** [examplePuzzle], with [0] standing for [null] in the table below. *)
Definition ofRows (rows : list (list Z)) : SudokuBoard :=
  map (map (λ z : Z, if Z.eqb z 0 then JNull else JNum z)) rows.

Definition examplePuzzle : SudokuBoard := ofRows [
  [5; 3; 0; 0; 7; 0; 0; 0; 0];
  [6; 0; 0; 1; 9; 5; 0; 0; 0];
  [0; 9; 8; 0; 0; 0; 0; 6; 0];
  [8; 0; 0; 0; 6; 0; 0; 0; 3];
  [4; 0; 0; 8; 0; 3; 0; 0; 1];
  [7; 0; 0; 0; 2; 0; 0; 0; 6];
  [0; 6; 0; 0; 0; 0; 2; 8; 0];
  [0; 0; 0; 4; 1; 9; 0; 0; 5];
  [0; 0; 0; 0; 8; 0; 0; 7; 9]]%Z.

(** ** sudokuValidation.ts *)

Inductive ErrorType : Type := ErrRow | ErrColumn | ErrBox | ErrInvalid.

Record ValidationError : Type := mkError {
  errRow : nat;
  errCol : nat;
  errType : ErrorType;
  errMessage : string
}.

#[global] Instance ErrorType_eq_dec : EqDecision ErrorType.
Proof. solve_decision. Defined.

#[global] Instance ValidationError_eq_dec : EqDecision ValidationError.
Proof. solve_decision. Defined.

(** [`${value}`] for a number: [Number::toString] of ECMAScript, on the
    integers. A JavaScript number is a double: [roundToDouble] is the double
    nearest to a non-negative integer (ties to even); the text is the
    shortest decimal that reads back as that double, written in full below
    [1e21] and with an exponent from there on. *)
Definition roundToDouble (r : Z) : Z :=
  if (r <? 2 ^ 53)%Z then r else
  let shift := (Z.log2 r - 52)%Z in
  let q := Z.shiftr r shift in
  let rest := (r - Z.shiftl q shift)%Z in
  let half := Z.shiftl 1 (shift - 1) in
  let q := if (half <? rest)%Z || ((rest =? half)%Z && Z.odd q) then (q + 1)%Z else q in
  Z.shiftl q shift.

(** The decimals of [k] significant digits next to [x], the nearer first (on a
    tie the one with the even last digit), that read back as [x]; [d] is the
    number of digits of [x]. *)
Definition roundTrips (x : Z) (d k : nat) : list Z :=
  let scale := (10 ^ Z.of_nat (d - k))%Z in
  let s := (x / scale)%Z in
  let lo := (s * scale)%Z in
  let hi := (lo + scale)%Z in
  let loFirst := (x - lo <? hi - x)%Z || ((x - lo =? hi - x)%Z && Z.even s) in
  List.filter (λ v, (roundToDouble v =? x)%Z) (if loFirst then [lo; hi] else [hi; lo]).

Fixpoint shortest (x : Z) (d : nat) (ks : list nat) : Z :=
  match ks with
  | [] => x
  | k :: rest =>
      match roundTrips x d k with
      | v :: _ => v
      | [] => shortest x d rest
      end
  end.

Fixpoint stripZeros (s : string) : string :=
  match s with
  | EmptyString => EmptyString
  | String a rest =>
      match stripZeros rest with
      | EmptyString => if String.eqb (String a EmptyString) "0" then EmptyString else String a EmptyString
      | kept => String a kept
      end
  end.

Definition positiveToString (r : Z) : string :=
  let x := roundToDouble r in
  if (2 ^ 1024 <=? x)%Z then "Infinity" else
  let d := String.length (pretty x) in
  let v := shortest x d (seq 1 (Nat.min d 17)) in
  let n := String.length (pretty v) in
  if n <=? 21 then pretty v else
  match stripZeros (pretty v) with
  | String a EmptyString => String a EmptyString +:+ "e+" +:+ pretty (n - 1)
  | String a digits => String a EmptyString +:+ "." +:+ digits +:+ "e+" +:+ pretty (n - 1)
  | EmptyString => EmptyString
  end.

Definition numberToString (n : Z) : string :=
  if (n =? 0)%Z then "0"
  else if (n <? 0)%Z then "-" +:+ positiveToString (- n)
  else positiveToString n.

(** [`${value}`] *)
Definition showVal (v : jsval) : string :=
  match v with
  | JUndefined => "undefined"
  | JNull => "null"
  | JNum n => numberToString n
  end.

(** [for (...) if (board[i][j] === value) { errors.push(...); break; }]:
    [Ok true] when the push happened. *)
Fixpoint anyEqual (b : SudokuBoard) (value : jsval) (cells : list (nat * nat)) : outcome bool :=
  match cells with
  | [] => Ok false
  | (i, j) :: rest =>
      v ← readCell b i j;
      if decide (v = value) then Ok true else anyEqual b value rest
  end.

Definition pushIf (found : bool) (e : ValidationError) : list ValidationError :=
  if found then [e] else [].

(** The three rows of the box are scanned one after the other and the
    [break] leaves the inner loop only. *)
Fixpoint boxScan (b : SudokuBoard) (value : jsval) (row col boxCol : nat) (rs : list nat)
    : outcome (list ValidationError) :=
  match rs with
  | [] => Ok []
  | r :: rest =>
      found ← anyEqual b value
        (map (λ c, (r, c))
          (filter (λ c, r ≠ row ∨ c ≠ col) (seq boxCol 3)));
      later ← boxScan b value row col boxCol rest;
      Ok (pushIf found (mkError row col ErrBox ("Duplicate " +:+ showVal value +:+ " in 3×3 box")) ++ later)
  end.

Definition validateCell (b : SudokuBoard) (row col : nat) : outcome (list ValidationError) :=
  value ← readCell b row col;
  if isEmptyVal value then Ok [] else
  inRow ← anyEqual b value (map (λ c, (row, c)) (filter (λ c, c ≠ col) (seq 0 9)));
  inCol ← anyEqual b value (map (λ r, (r, col)) (filter (λ r, r ≠ row) (seq 0 9)));
  let boxRow := row / 3 * 3 in
  let boxCol := col / 3 * 3 in
  inBox ← boxScan b value row col boxCol (seq boxRow 3);
  Ok (pushIf inRow (mkError row col ErrRow ("Duplicate " +:+ showVal value +:+ " in row"))
      ++ pushIf inCol (mkError row col ErrColumn ("Duplicate " +:+ showVal value +:+ " in column"))
      ++ inBox).

Fixpoint validateCells (b : SudokuBoard) (cells : list (nat * nat)) : outcome (list ValidationError) :=
  match cells with
  | [] => Ok []
  | (row, col) :: rest =>
      here ← validateCell b row col;
      later ← validateCells b rest;
      Ok (here ++ later)
  end.

Definition validateBoard (b : SudokuBoard) : outcome (list ValidationError) :=
  validateCells b allCells.

(** ** sudokuValidation.ts, continued *)

(** [errors.some(error => error.row === row && error.col === col)] *)
Definition hasError (row col : nat) (errors : list ValidationError) : bool :=
  existsb (λ error, (errRow error =? row) && (errCol error =? col)) errors.

(** [`${row}-${col}`] *)
Definition cellKey (row col : nat) : string :=
  pretty row +:+ "-" +:+ pretty col.

(** The keys [getRelatedCells] adds, in the order of its three loops. *)
Definition relatedKeys (row col : nat) : list string :=
  let boxRow := row / 3 * 3 in
  let boxCol := col / 3 * 3 in
  map (λ c, cellKey row c) (seq 0 9)
  ++ map (λ r, cellKey r col) (seq 0 9)
  ++ flat_map (λ r, map (λ c, cellKey r c) (seq boxCol 3)) (seq boxRow 3).

(** [getRelatedCells(row, col)]: a [Set<string>], filled by [related.add]. *)
Definition getRelatedCells (row col : nat) : gset string :=
  fold_left (λ related key, related ∪ {[ key ]}) (relatedKeys row col) ∅.

(** ** Index.tsx: the page's use of the engine

    The handlers read the component state and hand the next state to the
    setters; each is modelled as the function from the state it reads to the
    values it sets. *)

(** [loadPuzzle]: the keys of the cells that are [!== null]. *)
Definition fixedKeys (puzzle : SudokuBoard) : list string :=
  omap id (concat (imap (λ i row,
    imap (λ j cell, match cell with JNull => None | _ => Some (cellKey i j) end) row)
    puzzle)).

(** [loadPuzzle(puzzle)]: the board and the fixed cells it sets. *)
Definition loadPuzzle (puzzle : SudokuBoard) : SudokuBoard * gset string :=
  (puzzle, list_to_set (fixedKeys puzzle)).

(** [handleResetSteps]: the board it sets, every cell that is not fixed
    cleared. *)
Definition handleResetSteps (board : SudokuBoard) (fixedCells : gset string) : SudokuBoard :=
  imap (λ i row,
    imap (λ j cell, if decide (cellKey i j ∈ fixedCells) then cell else JNull) row)
    board.

(** * Specification vocabulary *)

(** The value at [(i, j)], [undefined] outside the board. *)
Definition cellAt (b : SudokuBoard) (i j : nat) : jsval :=
  match b !! i with
  | Some r => default JUndefined (r !! j)
  | None => JUndefined
  end.

(** The board with cell [(i, j)] overwritten (a no-op outside the board). *)
Definition setCell (b : SudokuBoard) (i j : nat) (v : jsval) : SudokuBoard :=
  alter (λ r, <[j := v]> r) i b.

Definition is9x9 (b : SudokuBoard) : Prop :=
  length b = 9 ∧ Forall (λ r, length r = 9) b.

(** The cells [isValid] scans for [(row, col)], in scan order. *)
Definition scanCells (row col : nat) : list (nat * nat) :=
  rowCells row ++ colCells col ++ boxCells row col.

(** Same row, same column or same 3×3 box. *)
Definition inScope (row col i j : nat) : bool :=
  (i =? row) || (j =? col) || ((i / 3 =? row / 3) && (j / 3 =? col / 3)).

Definition isDigit (n : Z) : Prop := (1 ≤ n ≤ 9)%Z.

(** No scanned cell holds [num]. *)
Definition noneHolds (b : SudokuBoard) (num : Z) (cells : list (nat * nat)) : bool :=
  forallb (λ p, negb (strictEq (cellAt b p.1 p.2) num)) cells.

Definition validAt (b : SudokuBoard) (row col : nat) (num : Z) : bool :=
  noneHolds b num (scanCells row col).

(** The emptiness test of [findEmpty] at a coordinate. *)
Definition isEmptyAt (b : SudokuBoard) (p : nat * nat) : bool :=
  isEmptyVal (cellAt b p.1 p.2).

(** No cell is empty. *)
Definition full (b : SudokuBoard) : Prop :=
  ∀ i j, i < 9 → j < 9 → isEmptyVal (cellAt b i j) = false.

(** The cells that were filled in [b] hold the same value in [b']. *)
Definition keepsClues (b b' : SudokuBoard) : Prop :=
  ∀ i j, i < 9 → j < 9 → isEmptyVal (cellAt b i j) = false →
    cellAt b' i j = cellAt b i j.

(** No other cell of the row, column or box of [(i, j)] holds [v]. *)
Definition aloneAt (b : SudokuBoard) (i j : nat) (v : jsval) : Prop :=
  ∀ i' j', i' < 9 → j' < 9 → inScope i j i' j' = true → (i', j') ≠ (i, j) →
    cellAt b i' j' ≠ v.

(** The value at [(i, j)] is a digit that no other cell of its row, column
    or box holds. *)
Definition fitsAt (b : SudokuBoard) (i j : nat) : Prop :=
  ∃ n, isDigit n ∧ cellAt b i j = JNum n ∧ aloneAt b i j (JNum n).

(** Re-checking a filled cell against the rest of the board: clear the cell
    and ask [isValid] for the value it held. *)
Definition rechecks (b : SudokuBoard) (i j : nat) : Prop :=
  ∃ n cleared, cellAt b i j = JNum n ∧
    writeCell b i j JNull = Ok cleared ∧ isValid cleared i j n = Ok true.

(** A full valid Sudoku grid. *)
Definition solvedGrid (s : SudokuBoard) : Prop :=
  is9x9 s ∧ ∀ i j, i < 9 → j < 9 → fitsAt s i j.

(** [s] completes [b]: a full valid grid that agrees with [b] on its clues. *)
Definition completion (b s : SudokuBoard) : Prop :=
  solvedGrid s ∧ keepsClues b s.

(** Every cell that was empty in [b] fits in [b']. *)
Definition placedFit (b b' : SudokuBoard) : Prop :=
  ∀ i j, i < 9 → j < 9 → isEmptyVal (cellAt b i j) = true → fitsAt b' i j.

(** [b'] is [b] except that cells holding [0] may now hold [null]. *)
Definition zeroToNull (b b' : SudokuBoard) : Prop :=
  ∀ i j, i < 9 → j < 9 →
    cellAt b' i j = cellAt b i j ∨ (cellAt b i j = JNum 0 ∧ cellAt b' i j = JNull).

(** The postcondition of a search started on [b]. *)
Definition searchPost (b : SudokuBoard) (res : bool) (b' : SudokuBoard) : Prop :=
  is9x9 b' ∧
  if res then full b' ∧ keepsClues b b' ∧ placedFit b b'
  else zeroToNull b b' ∧ countEmpty b' = countEmpty b.

Definition countIf (P : jsval → Prop) `{∀ v, Decision (P v)} (b : SudokuBoard) : nat :=
  length (filter P (concat b)).

(** ** Boards used as concrete inputs *)

(** Every cell holds 1: full, and in conflict everywhere. *)
Definition allOnes : SudokuBoard := replicate 9 (replicate 9 (JNum 1)).

(** The first cell is empty and written as [0]; 9 is the only digit its row
    admits, and with 9 there the cell below has no digit left. *)
Definition zeroMarked : SudokuBoard :=
  [JNum 0; JNum 1; JNum 2; JNum 3; JNum 4; JNum 5; JNum 6; JNum 7; JNum 8] ::
  [JNull; JNum 1; JNum 2; JNum 3; JNum 4; JNum 5; JNum 6; JNum 7; JNum 8] ::
  replicate 7 (replicate 9 JNull).

(** [examplePuzzle] with its first clue replaced by 10. *)
Definition tenInCorner : SudokuBoard := setCell examplePuzzle 0 0 (JNum 10).

(** [examplePuzzle] with a tenth row and a tenth column. *)
Definition tenByTen : SudokuBoard :=
  map (λ r, r ++ [JNum 1]) examplePuzzle ++ [replicate 10 (JNum 1)].

(** [examplePuzzle] without its last row. *)
Definition eightRows : SudokuBoard := take 8 examplePuzzle.

(** Dropping the trace from the traced solver's result. *)
Definition forget {A B C : Type} (o : outcome (A * B * C)) : outcome (A * B) :=
  x ← o; Ok x.1.

(** [zeroMarked] with its first cell written as [null]. *)
Definition nullMarked : SudokuBoard := setCell zeroMarked 0 0 JNull.

(** The grid the solver completes [examplePuzzle] to. *)
Definition exampleSolved : SudokuBoard := ofRows [
  [5; 3; 4; 6; 7; 8; 9; 1; 2];
  [6; 7; 2; 1; 9; 5; 3; 4; 8];
  [1; 9; 8; 3; 4; 2; 5; 6; 7];
  [8; 5; 9; 7; 6; 1; 4; 2; 3];
  [4; 2; 6; 8; 5; 3; 7; 9; 1];
  [7; 1; 3; 9; 2; 4; 8; 5; 6];
  [9; 6; 1; 5; 3; 7; 2; 8; 4];
  [2; 8; 7; 4; 1; 9; 6; 3; 5];
  [3; 4; 5; 2; 8; 6; 1; 7; 9]]%Z.

(** The number a cell holds ([0] when it holds none). *)
Definition numAt (s : SudokuBoard) (i j : nat) : Z :=
  match cellAt s i j with
  | JNum n => n
  | _ => 0%Z
  end.

(** The column of row [i] where [v] is found first ([0] when it is not). *)
Definition columnOf (s : SudokuBoard) (v : Z) (i : nat) : nat :=
  default 0 (List.find (λ j, bool_decide (cellAt s i j = JNum v)) (seq 0 9)).

(** A boolean test for [solvedGrid], for concrete grids. *)
Definition fitsAtb (s : SudokuBoard) (p : nat * nat) : bool :=
  match cellAt s p.1 p.2 with
  | JNum n => (1 <=? n)%Z && (n <=? 9)%Z && validAt (setCell s p.1 p.2 JNull) p.1 p.2 n
  | _ => false
  end.



(** An empty board but for two 5's heading the first row. *)
Definition twoFives : SudokuBoard :=
  setCell (setCell createEmptyBoard 0 0 (JNum 5)) 0 1 (JNum 5).

(** ** The validator as a pure function of a 9×9 board *)

Definition rowOthers (row col : nat) : list (nat * nat) :=
  map (λ c, (row, c)) (filter (λ c, c ≠ col) (seq 0 9)).

Definition colOthers (row col : nat) : list (nat * nat) :=
  map (λ r, (r, col)) (filter (λ r, r ≠ row) (seq 0 9)).

Definition boxRowOthers (row col r : nat) : list (nat * nat) :=
  map (λ c, (r, c)) (filter (λ c, r ≠ row ∨ c ≠ col) (seq (col / 3 * 3) 3)).

(** Some cell of the list holds [value]. *)
Definition holdsAny (b : SudokuBoard) (value : jsval) (cells : list (nat * nat)) : bool :=
  existsb (λ p, bool_decide (cellAt b p.1 p.2 = value)) cells.

Definition rowError (row col : nat) (value : jsval) : ValidationError :=
  mkError row col ErrRow ("Duplicate " +:+ showVal value +:+ " in row").

Definition columnError (row col : nat) (value : jsval) : ValidationError :=
  mkError row col ErrColumn ("Duplicate " +:+ showVal value +:+ " in column").

Definition boxError (row col : nat) (value : jsval) : ValidationError :=
  mkError row col ErrBox ("Duplicate " +:+ showVal value +:+ " in 3×3 box").

Definition cellErrors (b : SudokuBoard) (p : nat * nat) : list ValidationError :=
  let value := cellAt b p.1 p.2 in
  if isEmptyVal value then [] else
  pushIf (holdsAny b value (rowOthers p.1 p.2)) (rowError p.1 p.2 value)
  ++ pushIf (holdsAny b value (colOthers p.1 p.2)) (columnError p.1 p.2 value)
  ++ flat_map (λ r, pushIf (holdsAny b value (boxRowOthers p.1 p.2 r))
                           (boxError p.1 p.2 value))
       (seq (p.1 / 3 * 3) 3).

(** All the cells [validateBoard] compares cell [(row, col)] with. *)
Definition otherCells (row col : nat) : list (nat * nat) :=
  rowOthers row col ++ colOthers row col
  ++ flat_map (boxRowOthers row col) (seq (row / 3 * 3) 3).

(** An empty board but for two 5's in row [r], at columns [c1] and [c2]. *)
Definition pairBoard (r c1 c2 : nat) : SudokuBoard :=
  setCell (setCell createEmptyBoard r c1 (JNum 5)) r c2 (JNum 5).

(** What the validator reports for two 5's in one row and nothing else. *)
Definition pairErrors (r c1 c2 : nat) : list ValidationError :=
  if c1 / 3 =? c2 / 3 then
    [mkError r c1 ErrRow "Duplicate 5 in row";
     mkError r c1 ErrBox "Duplicate 5 in 3×3 box";
     mkError r c2 ErrRow "Duplicate 5 in row";
     mkError r c2 ErrBox "Duplicate 5 in 3×3 box"]
  else
    [mkError r c1 ErrRow "Duplicate 5 in row";
     mkError r c2 ErrRow "Duplicate 5 in row"].

(** ** The generator's boards *)

(** Every cell is [null] or a digit 1..9. *)
Definition clean (b : SudokuBoard) : Prop :=
  ∀ i j, i < 9 → j < 9 →
    cellAt b i j = JNull ∨ ∃ n, isDigit n ∧ cellAt b i j = JNum n.

(** What [fillBoard] leaves when started on [b]. *)
Definition fillPost (b : SudokuBoard) (res : bool) (b' : SudokuBoard) : Prop :=
  is9x9 b' ∧ clean b' ∧
  if res then full b' ∧ keepsClues b b' ∧ placedFit b b' else b' = b.

(** [b] is the grid [s] with some cells cleared. *)
Definition dugFrom (s b : SudokuBoard) : Prop :=
  ∀ i j, i < 9 → j < 9 → cellAt b i j = JNull ∨ cellAt b i j = cellAt s i j.

(** The number of clues: the cells that are not [null]. *)
Definition clueCount (b : SudokuBoard) : nat :=
  length (filter (λ v, v ≠ JNull) (concat b)).

(** The index exchange behind [swap]. *)
Definition swapIndex (i j k : nat) : nat :=
  if decide (k = i) then j else if decide (k = j) then i else k.

(** What [countSolutions] says about the completions of [b] when it
    returns [found]: it sees a completion when there is one, and a count of
    at most 1 leaves room for one completion only. *)
Definition countPost (b : SudokuBoard) (found : nat) : Prop :=
  ((∃ s, completion b s) → 1 ≤ found) ∧
  (found ≤ 1 → ∀ s s', completion b s → completion b s' → s = s').

(** ** Vocabulary for the further properties *)

(** [(i, j)] comes before [(r, c)] in row-major order. *)
Definition before (i j r c : nat) : Prop := i < r ∨ (i = r ∧ j < c).

(** Every clue is a digit that no other cell of its row, column or box
    repeats. *)
Definition cluesFit (b : SudokuBoard) : Prop :=
  ∀ i j, i < 9 → j < 9 → isEmptyVal (cellAt b i j) = false → fitsAt b i j.

(** Row-major lexicographic order on grids: at the first cell where the two
    differ, [s1] holds the smaller number. *)
Definition lexLe (s1 s2 : SudokuBoard) : Prop :=
  ∀ r c, r < 9 → c < 9 →
    (∀ i j, i < 9 → j < 9 → before i j r c → cellAt s1 i j = cellAt s2 i j) →
    (numAt s1 r c ≤ numAt s2 r c)%Z.

(** A step of a trace of a search started on [b]: its snapshot is a 9×9
    board with the filled cells of [b] as they were, and the cell it names
    was empty in [b]. *)
Definition stepOk (b : SudokuBoard) (step : Step) : Prop :=
  is9x9 (stepBoard step) ∧ stepRow step < 9 ∧ stepCol step < 9 ∧
  isEmptyVal (cellAt b (stepRow step) (stepCol step)) = true ∧
  keepsClues b (stepBoard step).

(** The steps of a trace: the placements that stay, one per empty cell when
    the search succeeds, and placement/removal pairs. *)
Definition traceOk (b : SudokuBoard) (res : bool) (tr : list Step) : Prop :=
  Forall (stepOk b) tr ∧
  ∃ k, length tr = 2 * k + (if res then countEmpty b else 0).

(** Some other cell of the row, column or box of [(row, col)] holds the
    value of [(row, col)]. *)
Definition conflictAt (b : SudokuBoard) (row col : nat) : Prop :=
  ∃ i j, i < 9 ∧ j < 9 ∧ inScope row col i j = true ∧ (i, j) ≠ (row, col) ∧
    cellAt b i j = cellAt b row col.

(** Row [r] holds, in the three columns of the box of [(row, col)], a copy of
    the value of [(row, col)] in a cell other than [(row, col)]. *)
Definition repeatsInBoxRow (b : SudokuBoard) (row col r : nat) : bool :=
  existsb (λ c, bool_decide ((r ≠ row ∨ c ≠ col) ∧ cellAt b r c = cellAt b row col))
    (seq (col / 3 * 3) 3).

(** The text of an entry of the given type for a cell holding [value]. *)
Definition duplicateMessage (value : jsval) (type : ErrorType) : string :=
  "Duplicate " +:+ showVal value +:+
  match type with
  | ErrRow => " in row"
  | ErrColumn => " in column"
  | _ => " in 3×3 box"
  end.

(** The entries of a report that name cell [(row, col)] with type [type]. *)
Definition entriesOf (row col : nat) (type : ErrorType) (errs : list ValidationError)
    : list ValidationError :=
  filter (λ e, errRow e = row ∧ errCol e = col ∧ errType e = type) errs.

(** [found] counts pairwise different completions of [b]. *)
Definition countedPost (b : SudokuBoard) (found : nat) (ss : list SudokuBoard) : Prop :=
  NoDup ss ∧ length ss = found ∧ ∀ s, s ∈ ss → completion b s.

(** Every cell is empty ([null] or [0]) or holds a digit 1..9. *)
Definition inRange (b : SudokuBoard) : Prop :=
  ∀ i j, i < 9 → j < 9 →
    isEmptyVal (cellAt b i j) = true ∨ ∃ n, isDigit n ∧ cellAt b i j = JNum n.

(** [exampleSolved] with the four cells of a rectangle cleared: rows 0 and 3
    hold 6 7 and 7 6 in columns 3 and 4, so the rectangle can be filled back
    in two ways. *)
Definition twoWays : SudokuBoard :=
  setCell (setCell (setCell (setCell exampleSolved 0 3 JNull) 0 4 JNull) 3 3 JNull) 3 4 JNull.

(** The other way to fill the rectangle of [twoWays]. *)
Definition exampleSwapped : SudokuBoard :=
  setCell (setCell (setCell (setCell exampleSolved 0 3 (JNum 7)) 0 4 (JNum 6))
    3 3 (JNum 6)) 3 4 (JNum 7).

(** * Properties of the embedding *)

(** ** Reading and writing a 9×9 board *)

Lemma is9x9_row (b : SudokuBoard) i :
  is9x9 b → i < 9 → ∃ r, b !! i = Some r ∧ length r = 9.
Proof.
  intros [Hlen Hrows] Hi.
  destruct (lookup_lt_is_Some_2 b i) as [r Hr]; [lia|].
  exists r. split; [done|].
  rewrite Forall_forall in Hrows. apply Hrows.
  apply list_elem_of_lookup. eauto.
Qed.

Lemma readCell_ok (b : SudokuBoard) i j :
  i < length b → readCell b i j = Ok (cellAt b i j).
Proof.
  intros Hi. unfold readCell, cellAt.
  destruct (lookup_lt_is_Some_2 b i Hi) as [r ->]. done.
Qed.

Lemma readCell_throws (b : SudokuBoard) i j :
  length b ≤ i → readCell b i j = TypeError.
Proof.
  intros Hi. unfold readCell. by rewrite lookup_ge_None_2.
Qed.

Lemma writeCell_ok (b : SudokuBoard) i j v :
  is9x9 b → i < 9 → j < 9 → writeCell b i j v = Ok (setCell b i j v).
Proof.
  intros Hb Hi Hj. destruct (is9x9_row b i Hb Hi) as (r & Hr & Hlen).
  unfold writeCell, setCell. rewrite Hr.
  rewrite decide_True by lia. f_equal.
  apply list_eq. intros k.
  destruct (decide (k = i)) as [->|Hne].
  - rewrite list_lookup_insert_eq by (apply lookup_lt_is_Some; eauto).
    by rewrite list_lookup_alter_eq, Hr.
  - by rewrite list_lookup_insert_ne, list_lookup_alter_ne.
Qed.

Lemma setCell_9x9 (b : SudokuBoard) i j v : is9x9 b → is9x9 (setCell b i j v).
Proof.
  intros [Hlen Hrows]. split.
  - unfold setCell. by rewrite length_alter.
  - unfold setCell. apply Forall_alter; [done|].
    intros r _ Hr. by rewrite length_insert.
Qed.

Lemma cellAt_setCell_eq (b : SudokuBoard) i j v :
  is9x9 b → i < 9 → j < 9 → cellAt (setCell b i j v) i j = v.
Proof.
  intros Hb Hi Hj. destruct (is9x9_row b i Hb Hi) as (r & Hr & Hlen).
  unfold cellAt, setCell. rewrite list_lookup_alter_eq, Hr. simpl.
  by rewrite list_lookup_insert_eq by lia.
Qed.

Lemma cellAt_setCell_ne (b : SudokuBoard) i j v i' j' :
  (i', j') ≠ (i, j) → cellAt (setCell b i j v) i' j' = cellAt b i' j'.
Proof.
  intros Hne. unfold cellAt, setCell.
  destruct (decide (i' = i)) as [->|Hi].
  - rewrite list_lookup_alter_eq. destruct (b !! i) as [r|]; simpl; [|done].
    rewrite list_lookup_insert_ne; [done|]. intros ->. by apply Hne.
  - by rewrite list_lookup_alter_ne.
Qed.

Lemma board_ext (b b' : SudokuBoard) :
  is9x9 b → is9x9 b' →
  (∀ i j, i < 9 → j < 9 → cellAt b i j = cellAt b' i j) → b = b'.
Proof.
  intros Hb Hb' Hcells. apply list_eq. intros i.
  destruct (decide (i < 9)) as [Hi|Hi].
  - destruct (is9x9_row b i Hb Hi) as (r & Hr & Hlen).
    destruct (is9x9_row b' i Hb' Hi) as (r' & Hr' & Hlen').
    rewrite Hr, Hr'. f_equal. apply list_eq. intros j.
    destruct (decide (j < 9)) as [Hj|Hj].
    + specialize (Hcells i j Hi Hj). unfold cellAt in Hcells.
      rewrite Hr, Hr' in Hcells.
      destruct (lookup_lt_is_Some_2 r j) as [x Hx]; [lia|].
      destruct (lookup_lt_is_Some_2 r' j) as [x' Hx']; [lia|].
      rewrite Hx, Hx' in *. simpl in Hcells. by subst.
    + by rewrite !lookup_ge_None_2 by lia.
  - destruct Hb as [Hlen _], Hb' as [Hlen' _].
    by rewrite !lookup_ge_None_2 by lia.
Qed.

(** ** The cells scanned by [isValid] *)

Lemma scanCells_table :
  Forall (λ r, Forall (λ c,
    Forall (λ p, p.1 < 9 ∧ p.2 < 9) (scanCells r c) ∧
    Forall (λ i, Forall (λ j,
      bool_decide ((i, j) ∈ scanCells r c) = inScope r c i j) (seq 0 9)) (seq 0 9))
    (seq 0 9)) (seq 0 9).
Proof. apply (bool_decide_unpack _). vm_compute. exact I. Qed.

Lemma scanCells_spec row col i j :
  row < 9 → col < 9 →
  (i, j) ∈ scanCells row col ↔ i < 9 ∧ j < 9 ∧ inScope row col i j = true.
Proof.
  intros Hr Hc. pose proof scanCells_table as T.
  assert (Hseq : ∀ k, k < 9 → k ∈ seq 0 9) by (intros k Hk; apply elem_of_seq; lia).
  rewrite Forall_forall in T. specialize (T row (Hseq _ Hr)).
  rewrite Forall_forall in T. destruct (T col (Hseq _ Hc)) as [Tin Ttab].
  rewrite Forall_forall in Tin. rewrite Forall_forall in Ttab.
  assert (Htab : ∀ i j, i < 9 → j < 9 →
    bool_decide ((i, j) ∈ scanCells row col) = inScope row col i j).
  { intros i' j' Hi Hj. specialize (Ttab i' (Hseq _ Hi)).
    rewrite Forall_forall in Ttab. by apply Ttab, Hseq. }
  split.
  - intros Hin. destruct (Tin _ Hin) as [Hi Hj]. simpl in Hi, Hj.
    split; [done|]. split; [done|].
    rewrite <- Htab by done. by apply bool_decide_eq_true.
  - intros (Hi & Hj & Hs).
    rewrite <- Htab in Hs by done. by apply bool_decide_eq_true in Hs.
Qed.

Lemma inScope_sym row col i j : inScope row col i j = inScope i j row col.
Proof.
  unfold inScope.
  rewrite (Nat.eqb_sym i row), (Nat.eqb_sym j col).
  by rewrite (Nat.eqb_sym (i / 3)), (Nat.eqb_sym (j / 3)).
Qed.


(** ** [isValid] and [findEmpty] on a 9×9 board *)

Lemma strictEq_true v num : strictEq v num = true ↔ v = JNum num.
Proof.
  destruct v as [| |n]; simpl; [by split|by split|].
  rewrite Z.eqb_eq. split; [by intros ->|by intros [= ->]].
Qed.

Lemma strictEq_false v num : strictEq v num = false ↔ v ≠ JNum num.
Proof.
  rewrite <- strictEq_true. destruct (strictEq v num); split; congruence.
Qed.

Lemma noneEqual_ok (b : SudokuBoard) num cells :
  Forall (λ p, p.1 < length b) cells →
  noneEqual b num cells = Ok (noneHolds b num cells).
Proof.
  induction 1 as [|[i j] rest Hi _ IH]; [done|].
  simpl in *. rewrite readCell_ok by done. simpl.
  destruct (strictEq (cellAt b i j) num); [done|]. by rewrite IH.
Qed.

Lemma noneHolds_spec (b : SudokuBoard) num cells :
  noneHolds b num cells = true ↔ ∀ i j, (i, j) ∈ cells → cellAt b i j ≠ JNum num.
Proof.
  unfold noneHolds. rewrite forallb_forall. split.
  - intros H i j Hin. apply strictEq_false, negb_true_iff.
    by apply (H (i, j)), list_elem_of_In.
  - intros H [i j] Hin. apply negb_true_iff, strictEq_false, H.
    by apply list_elem_of_In.
Qed.

Lemma noneHolds_false (b : SudokuBoard) num cells :
  noneHolds b num cells = false ↔ ∃ i j, (i, j) ∈ cells ∧ cellAt b i j = JNum num.
Proof.
  unfold noneHolds. induction cells as [|[i j] rest IH]; simpl.
  - split; [done|]. intros (i & j & Hin & _). by apply elem_of_nil in Hin.
  - rewrite andb_false_iff, negb_false_iff, strictEq_true, IH. split.
    + intros [H|(i' & j' & Hin & H)].
      * exists i, j. split; [left|done].
      * exists i', j'. split; [by right|done].
    + intros (i' & j' & Hin & H). apply elem_of_cons in Hin as [[= -> ->]|Hin].
      * by left.
      * right. eauto.
Qed.

Lemma scanCells_rows (b : SudokuBoard) row col :
  is9x9 b → row < 9 → col < 9 → Forall (λ p, p.1 < length b) (scanCells row col).
Proof.
  intros [Hlen _] Hr Hc. apply Forall_forall. intros [i j] Hin.
  apply scanCells_spec in Hin; [|done..]. simpl. lia.
Qed.

Lemma isValid_ok (b : SudokuBoard) row col num :
  is9x9 b → row < 9 → col < 9 → isValid b row col num = Ok (validAt b row col num).
Proof.
  intros Hb Hr Hc. pose proof (scanCells_rows b row col Hb Hr Hc) as Hrows.
  unfold scanCells in Hrows.
  apply Forall_app in Hrows as [Hrow Hrows]. apply Forall_app in Hrows as [Hcol Hbox].
  unfold isValid, validAt, scanCells, noneHolds.
  rewrite !noneEqual_ok by done. unfold noneHolds.
  rewrite !forallb_app.
  set (f := λ p : nat * nat, negb (strictEq (cellAt b p.1 p.2) num)).
  generalize (forallb f (rowCells row)) (forallb f (colCells col))
    (forallb f (boxCells row col)).
  by intros [] [] [].
Qed.

Lemma validAt_spec (b : SudokuBoard) row col num :
  row < 9 → col < 9 →
  validAt b row col num = true ↔
  ∀ i j, i < 9 → j < 9 → inScope row col i j = true → cellAt b i j ≠ JNum num.
Proof.
  intros Hr Hc. unfold validAt. rewrite noneHolds_spec. split.
  - intros H i j Hi Hj Hs. apply H, scanCells_spec; done.
  - intros H i j Hin. apply scanCells_spec in Hin as (Hi & Hj & Hs); [|done..].
    by apply H.
Qed.

Lemma elem_of_rowCells row i j : (i, j) ∈ rowCells row ↔ i = row ∧ j < 9.
Proof.
  unfold rowCells. rewrite list_elem_of_In, in_map_iff. split.
  - intros (x & [= <- <-] & Hx). apply in_seq in Hx. lia.
  - intros [-> Hj]. exists j. split; [done|]. apply in_seq. lia.
Qed.

Lemma elem_of_colCells col i j : (i, j) ∈ colCells col ↔ i < 9 ∧ j = col.
Proof.
  unfold colCells. rewrite list_elem_of_In, in_map_iff. split.
  - intros (x & [= <- <-] & Hx). apply in_seq in Hx. lia.
  - intros [Hi ->]. exists i. split; [done|]. apply in_seq. lia.
Qed.

Lemma elem_of_boxCells row col i j :
  (i, j) ∈ boxCells row col ↔
  ∃ di dj, di < 3 ∧ dj < 3 ∧
    i = di + (row - row mod 3) ∧ j = dj + (col - col mod 3).
Proof.
  unfold boxCells. rewrite list_elem_of_In, in_flat_map. split.
  - intros (di & Hdi & Hin). apply in_map_iff in Hin as (dj & [= <- <-] & Hdj).
    apply in_seq in Hdi, Hdj. exists di, dj. repeat split; try done; lia.
  - intros (di & dj & Hdi & Hdj & -> & ->). exists di. split; [apply in_seq; lia|].
    apply in_map_iff. exists dj. split; [done|]. apply in_seq. lia.
Qed.

Lemma elem_of_allCells i j : (i, j) ∈ allCells ↔ i < 9 ∧ j < 9.
Proof.
  unfold allCells. rewrite list_elem_of_In, in_flat_map. split.
  - intros (x & Hx & Hin). apply in_map_iff in Hin as (y & [= <- <-] & Hy).
    apply in_seq in Hx, Hy. lia.
  - intros [Hi Hj]. exists i. split; [apply in_seq; lia|].
    apply in_map_iff. exists j. split; [done|]. apply in_seq. lia.
Qed.

Lemma firstEmpty_ok (b : SudokuBoard) cells :
  Forall (λ p, p.1 < length b) cells →
  firstEmpty b cells = Ok (List.find (isEmptyAt b) cells).
Proof.
  induction 1 as [|[i j] rest Hi _ IH]; [done|].
  simpl in *. rewrite readCell_ok by done. simpl.
  unfold isEmptyAt at 1. simpl.
  destruct (isEmptyVal (cellAt b i j)); [done|]. by rewrite IH.
Qed.

Lemma findEmpty_ok (b : SudokuBoard) :
  is9x9 b → findEmpty b = Ok (List.find (isEmptyAt b) allCells).
Proof.
  intros [Hlen _]. apply firstEmpty_ok, Forall_forall. intros [i j] Hin.
  apply elem_of_allCells in Hin. simpl. lia.
Qed.

Lemma find_allCells_Some (b : SudokuBoard) row col :
  List.find (isEmptyAt b) allCells = Some (row, col) →
  row < 9 ∧ col < 9 ∧ isEmptyVal (cellAt b row col) = true.
Proof.
  intros H. apply find_some in H as [Hin He].
  apply list_elem_of_In, elem_of_allCells in Hin. by destruct Hin.
Qed.

Lemma find_allCells_None (b : SudokuBoard) :
  List.find (isEmptyAt b) allCells = None ↔
  ∀ i j, i < 9 → j < 9 → isEmptyVal (cellAt b i j) = false.
Proof.
  split.
  - intros H i j Hi Hj.
    apply (find_none _ _ H (i, j)), list_elem_of_In, elem_of_allCells. done.
  - intros H. destruct (List.find _ _) as [[i j]|] eqn:E; [|done].
    apply find_allCells_Some in E as (Hi & Hj & He). by rewrite H in He.
Qed.

(** ** What a search leaves behind *)

Lemma isEmptyVal_digit n : isDigit n → isEmptyVal (JNum n) = false.
Proof. unfold isDigit. simpl. intros H. apply Z.eqb_neq. lia. Qed.

Lemma isEmptyVal_true v : isEmptyVal v = true ↔ v = JNull ∨ v = JNum 0.
Proof.
  destruct v as [| |n]; simpl.
  - split; [done|by intros [|]].
  - split; [by left|done].
  - rewrite Z.eqb_eq. split; [intros ->; by right|by intros [|[= ->]]].
Qed.

Lemma zeroToNull_refl b : zeroToNull b b.
Proof. intros i j _ _. by left. Qed.

Lemma zeroToNull_trans b1 b2 b3 : zeroToNull b1 b2 → zeroToNull b2 b3 → zeroToNull b1 b3.
Proof.
  intros H12 H23 i j Hi Hj.
  destruct (H12 i j Hi Hj) as [E12|[E1 E2]], (H23 i j Hi Hj) as [E23|[E2' E3]].
  - left. congruence.
  - right. split; congruence.
  - right. split; congruence.
  - congruence.
Qed.

Lemma zeroToNull_empty b b' i j :
  zeroToNull b b' → i < 9 → j < 9 →
  isEmptyVal (cellAt b' i j) = isEmptyVal (cellAt b i j).
Proof.
  intros H Hi Hj. destruct (H i j Hi Hj) as [->|[-> ->]]; done.
Qed.

Lemma zeroToNull_filled b b' i j :
  zeroToNull b b' → i < 9 → j < 9 → isEmptyVal (cellAt b i j) = false →
  cellAt b' i j = cellAt b i j.
Proof.
  intros H Hi Hj He. destruct (H i j Hi Hj) as [->|[E _]]; [done|].
  by rewrite E in He.
Qed.

Lemma searchPost_transfer b b0 res b' :
  zeroToNull b b0 → countEmpty b0 = countEmpty b →
  searchPost b0 res b' → searchPost b res b'.
Proof.
  intros Hz Hcnt [H9 Hpost]. split; [done|]. destruct res.
  - destruct Hpost as (Hfull & Hkeep & Hfit). split; [done|]. split.
    + intros i j Hi Hj He. rewrite Hkeep; [|done..|].
      * by apply zeroToNull_filled.
      * by rewrite (zeroToNull_empty b b0).
    + intros i j Hi Hj He. apply Hfit; [done..|].
      by rewrite (zeroToNull_empty b b0).
  - destruct Hpost as [Hz' Hcnt']. split; [by eapply zeroToNull_trans|congruence].
Qed.

(** ** Counting the cells still to fill *)

Lemma filter_insert_length (P : jsval → Prop) `{∀ v, Decision (P v)}
    (r : list jsval) j x v :
  r !! j = Some x →
  length (filter P (<[j := v]> r)) + (if decide (P x) then 1 else 0)
  = length (filter P r) + (if decide (P v) then 1 else 0).
Proof.
  intros Hj. pose proof (lookup_lt_Some _ _ _ Hj) as Hlt.
  rewrite insert_take_drop by done.
  rewrite <- (take_drop_middle r j x Hj) at 3.
  rewrite !filter_app, !filter_cons, !length_app.
  destruct (decide (P x)), (decide (P v)); simpl; lia.
Qed.

Lemma countIf_setCell (P : jsval → Prop) `{∀ v, Decision (P v)}
    (b : SudokuBoard) i j v :
  is9x9 b → i < 9 → j < 9 →
  countIf P (setCell b i j v) + (if decide (P (cellAt b i j)) then 1 else 0)
  = countIf P b + (if decide (P v) then 1 else 0).
Proof.
  intros Hb Hi Hj. destruct (is9x9_row b i Hb Hi) as (r & Hr & Hlen).
  destruct (lookup_lt_is_Some_2 r j) as [x Hx]; [lia|].
  unfold cellAt. rewrite Hr, Hx. simpl.
  pose proof (lookup_lt_Some _ _ _ Hr) as Hlt.
  unfold countIf, setCell.
  assert (alter (λ r0, <[j := v]> r0) i b = take i b ++ <[j := v]> r :: drop (S i) b) as ->.
  { rewrite <- (take_drop_middle b i r Hr) at 1.
    rewrite alter_app_r_alt by (rewrite length_take; lia).
    rewrite length_take, Nat.min_l by lia. by rewrite Nat.sub_diag. }
  rewrite <- (take_drop_middle b i r Hr) at 3.
  rewrite !concat_app, !concat_cons, !filter_app, !length_app.
  pose proof (filter_insert_length P r j x v Hx). lia.
Qed.

Lemma countEmpty_place b i j n :
  is9x9 b → i < 9 → j < 9 → isEmptyVal (cellAt b i j) = true → isDigit n →
  S (countEmpty (setCell b i j (JNum n))) = countEmpty b.
Proof.
  intros Hb Hi Hj He Hn.
  pose proof (countIf_setCell (λ v, isEmptyVal v = true) b i j (JNum n) Hb Hi Hj) as H.
  rewrite decide_True in H by done.
  rewrite decide_False in H by (rewrite isEmptyVal_digit; done).
  unfold countEmpty, countIf in *. lia.
Qed.

Lemma countEmpty_clear b i j :
  is9x9 b → i < 9 → j < 9 → isEmptyVal (cellAt b i j) = false →
  countEmpty (setCell b i j JNull) = S (countEmpty b).
Proof.
  intros Hb Hi Hj He.
  pose proof (countIf_setCell (λ v, isEmptyVal v = true) b i j JNull Hb Hi Hj) as H.
  rewrite decide_False in H by (rewrite He; done).
  rewrite decide_True in H by done.
  unfold countEmpty, countIf in *. lia.
Qed.

(** ** The backtracking step *)

Lemma digits_are_digits : Forall isDigit digits.
Proof. unfold digits, isDigit. repeat constructor; lia. Qed.

(** A successful search below a valid placement is a successful search. *)
Lemma placement_kept b row col n b2 :
  is9x9 b → row < 9 → col < 9 →
  isEmptyVal (cellAt b row col) = true → isDigit n →
  validAt b row col n = true →
  searchPost (setCell b row col (JNum n)) true b2 →
  searchPost b true b2.
Proof.
  intros Hb Hr Hc He Hn Hval (H9 & Hfull & Hkeep & Hfit).
  assert (Hplaced : cellAt b2 row col = JNum n).
  { rewrite Hkeep; [by apply cellAt_setCell_eq|done..|].
    rewrite cellAt_setCell_eq by done. by apply isEmptyVal_digit. }
  split; [done|]. split; [done|]. split.
  - intros i j Hi Hj Hne.
    assert ((i, j) ≠ (row, col)) as Hpos by (intros [= -> ->]; congruence).
    rewrite Hkeep; [by apply cellAt_setCell_ne|done..|].
    by rewrite cellAt_setCell_ne.
  - intros i j Hi Hj Hij.
    destruct (decide ((i, j) = (row, col))) as [[= -> ->]|Hpos].
    + exists n. split; [done|]. split; [done|].
      intros i' j' Hi' Hj' Hs Hpos'.
      destruct (isEmptyVal (cellAt b i' j')) eqn:He'.
      * destruct (Hfit i' j' Hi' Hj') as (n' & _ & Hn' & Hothers).
        { by rewrite cellAt_setCell_ne. }
        rewrite Hn'. intros [= ->].
        apply (Hothers row col Hr Hc); [|congruence|done].
        by rewrite inScope_sym.
      * rewrite Hkeep; [|done..|by rewrite cellAt_setCell_ne].
        rewrite cellAt_setCell_ne by done.
        by apply (validAt_spec b row col n Hr Hc).
    + apply Hfit; [done..|]. by rewrite cellAt_setCell_ne.
Qed.

(** After a failed search below a placement, clearing the cell gives the
    board back, a [0] at a tried cell having become [null]. *)
Lemma placement_undone b row col n b2 :
  is9x9 b → row < 9 → col < 9 →
  isEmptyVal (cellAt b row col) = true → isDigit n →
  searchPost (setCell b row col (JNum n)) false b2 →
  let b3 := setCell b2 row col JNull in
  is9x9 b3 ∧ isEmptyVal (cellAt b3 row col) = true ∧
  zeroToNull b b3 ∧ countEmpty b3 = countEmpty b.
Proof.
  intros Hb Hr Hc He Hn (H9 & Hz & Hcnt) b3.
  assert (Hplaced : cellAt b2 row col = JNum n).
  { rewrite (zeroToNull_filled _ _ _ _ Hz); [by apply cellAt_setCell_eq|done..|].
    rewrite cellAt_setCell_eq by done. by apply isEmptyVal_digit. }
  split; [by apply setCell_9x9|]. split; [unfold b3; by rewrite cellAt_setCell_eq|].
  split.
  - intros i j Hi Hj. destruct (decide ((i, j) = (row, col))) as [[= -> ->]|Hpos].
    + unfold b3. rewrite cellAt_setCell_eq by done.
      apply isEmptyVal_true in He as [->| ->]; [by left|by right].
    + unfold b3. rewrite cellAt_setCell_ne by done.
      destruct (Hz i j Hi Hj) as [E|E]; rewrite cellAt_setCell_ne in E by done; tauto.
  - unfold b3. rewrite countEmpty_clear; [|done..|].
    + rewrite Hcnt. by apply countEmpty_place.
    + rewrite Hplaced. by apply isEmptyVal_digit.
Qed.

Section SolverLoop.

Variable rec : SudokuBoard → outcome (bool * SudokuBoard).
Variable m : nat.
Hypothesis rec_spec : ∀ b, is9x9 b → countEmpty b < m →
  ∃ res b', rec b = Ok (res, b') ∧ searchPost b res b'.
Variables row col : nat.
Hypothesis Hrow : row < 9.
Hypothesis Hcol : col < 9.

Lemma tryDigits_spec nums :
  Forall isDigit nums →
  ∀ b, is9x9 b → isEmptyVal (cellAt b row col) = true → countEmpty b ≤ m →
  ∃ res b', tryDigits rec row col nums b = Ok (res, b') ∧ searchPost b res b'.
Proof.
  induction 1 as [|n rest Hn _ IH]; intros b Hb He Hm.
  - exists false, b. split; [done|]. split; [done|].
    split; [apply zeroToNull_refl|done].
  - simpl. rewrite isValid_ok by done. simpl.
    destruct (validAt b row col n) eqn:Hval; [|by apply IH].
    rewrite writeCell_ok by done. simpl.
    destruct (rec_spec (setCell b row col (JNum n))) as (res & b2 & -> & Hpost).
    { by apply setCell_9x9. }
    { pose proof (countEmpty_place b row col n Hb Hrow Hcol He Hn). lia. }
    simpl. destruct res.
    + exists true, b2. split; [done|].
      by apply (placement_kept b row col n b2).
    + destruct (placement_undone b row col n b2 Hb Hrow Hcol He Hn Hpost)
        as (H9 & He3 & Hz & Hcnt).
      rewrite writeCell_ok by (done || apply Hpost). simpl.
      destruct (IH (setCell b2 row col JNull) H9 He3) as (res & b' & -> & Hpost').
      { lia. }
      exists res, b'. split; [done|]. by eapply searchPost_transfer.
Qed.

End SolverLoop.

Lemma outcome_bind_Ok {A B : Type} (f : A → outcome B) (a : A) : Ok a ≫= f = f a.
Proof. done. Qed.

Lemma solveFuel_S fuel b :
  solveFuel (S fuel) b =
  empty ← findEmpty b;
  match empty with
  | None => Ok (true, b)
  | Some (row, col) => tryDigits (solveFuel fuel) row col digits b
  end.
Proof. done. Qed.

Lemma solveFuel_spec fuel :
  ∀ b, is9x9 b → countEmpty b < fuel →
  ∃ res b', solveFuel fuel b = Ok (res, b') ∧ searchPost b res b'.
Proof.
  induction fuel as [|fuel IH]; intros b Hb Hfuel; [lia|].
  rewrite solveFuel_S, findEmpty_ok, outcome_bind_Ok by done.
  destruct (List.find (isEmptyAt b) allCells) as [[row col]|] eqn:Hfind.
  - apply find_allCells_Some in Hfind as (Hr & Hc & He).
    apply (tryDigits_spec _ fuel IH row col Hr Hc digits digits_are_digits b Hb He). lia.
  - exists true, b. split; [done|]. split; [done|].
    split; [exact (proj1 (find_allCells_None b) Hfind)|]. split; [by intros i j _ _ _|].
    intros i j Hi Hj He. rewrite (proj1 (find_allCells_None b) Hfind) in He; done.
Qed.

(** [solveSudokuInstant] returns on every 9×9 board, with a result and a
    board that satisfy the postcondition. *)
Lemma solveSudokuInstant_spec b :
  is9x9 b → ∃ res b', solveSudokuInstant b = Ok (res, b') ∧ searchPost b res b'.
Proof. intros Hb. apply solveFuel_spec; [done|lia]. Qed.

(** ** Re-checking a cell *)

Lemma rechecks_spec b i j :
  is9x9 b → i < 9 → j < 9 →
  rechecks b i j ↔ ∃ n, cellAt b i j = JNum n ∧ aloneAt b i j (JNum n).
Proof.
  intros Hb Hi Hj. unfold rechecks. split.
  - intros (n & cleared & Hn & Hw & Hv). exists n. split; [done|].
    rewrite writeCell_ok in Hw by done. injection Hw as <-.
    rewrite isValid_ok in Hv by (done || by apply setCell_9x9).
    injection Hv as Hv. rewrite validAt_spec in Hv by done.
    intros i' j' Hi' Hj' Hs Hne.
    rewrite <- (cellAt_setCell_ne b i j JNull) by done. by apply Hv.
  - intros (n & Hn & Halone). exists n, (setCell b i j JNull).
    split; [done|]. split; [by apply writeCell_ok|].
    rewrite isValid_ok by (done || by apply setCell_9x9). f_equal.
    apply validAt_spec; [done..|]. intros i' j' Hi' Hj' Hs.
    destruct (decide ((i', j') = (i, j))) as [[= -> ->]|Hne].
    + by rewrite cellAt_setCell_eq.
    + rewrite cellAt_setCell_ne by done. by apply Halone.
Qed.

Lemma fitsAt_rechecks b i j : is9x9 b → i < 9 → j < 9 → fitsAt b i j → rechecks b i j.
Proof.
  intros Hb Hi Hj (n & _ & Hn & Halone). apply rechecks_spec; [done..|]. eauto.
Qed.

Lemma is9x9_examplePuzzle : is9x9 examplePuzzle.
Proof. split; [done|]. repeat constructor. Qed.

Lemma is9x9_allOnes : is9x9 allOnes.
Proof. split; [done|]. repeat constructor. Qed.

Lemma is9x9_zeroMarked : is9x9 zeroMarked.
Proof. split; [done|]. repeat constructor. Qed.

Lemma full_decide b :
  forallb (λ p, negb (isEmptyAt b p)) allCells = true → full b.
Proof.
  intros H i j Hi Hj. rewrite forallb_forall in H.
  apply negb_true_iff, (H (i, j)), list_elem_of_In, elem_of_allCells. done.
Qed.

(** ** The traced solver and the instant one run the same search *)

Lemma replay_cons b step tr : replay b (step :: tr) = replay (stepBoard step) tr.
Proof. done. Qed.

Lemma replay_app b tr1 tr2 : replay b (tr1 ++ tr2) = replay (replay b tr1) tr2.
Proof. apply fold_left_app. Qed.

Section TracedLoop.

Variable rec : SudokuBoard → outcome (bool * SudokuBoard).
Variable recT : SudokuBoard → outcome (bool * SudokuBoard * list Step).
Hypothesis rec_forget : ∀ b, forget (recT b) = rec b.
Hypothesis rec_replay : ∀ b res b' tr, recT b = Ok (res, b', tr) → replay b tr = b'.
Variables row col : nat.

Lemma tryDigitsTraced_forget nums :
  ∀ b, forget (tryDigitsTraced recT row col nums b) = tryDigits rec row col nums b.
Proof.
  induction nums as [|n rest IH]; intros b; [done|].
  simpl. destruct (isValid b row col n) as [[|]| |]; simpl; [|by apply IH|done..].
  destruct (writeCell b row col (JNum n)) as [b1| |]; simpl; [|done..].
  rewrite <- rec_forget. destruct (recT b1) as [[[[|] b2] inner]| |]; simpl; [done| |done..].
  destruct (writeCell b2 row col JNull) as [b3| |]; simpl; [|done..].
  rewrite <- IH. by destruct (tryDigitsTraced recT row col rest b3) as [[[res b4] later]| |].
Qed.

Lemma tryDigitsTraced_replay nums :
  ∀ b res b' tr,
    tryDigitsTraced recT row col nums b = Ok (res, b', tr) → replay b tr = b'.
Proof.
  induction nums as [|n rest IH]; intros b res b' tr; simpl.
  { by intros [= _ <- <-]. }
  destruct (isValid b row col n) as [[|]| |]; simpl; [|by apply IH|done..].
  destruct (writeCell b row col (JNum n)) as [b1| |]; simpl; [|done..].
  destruct (recT b1) as [[[[|] b2] inner]| |] eqn:Hrec; simpl; [| |done..].
  - intros [= <- <- <-]. rewrite replay_cons. simpl. by eapply rec_replay.
  - destruct (writeCell b2 row col JNull) as [b3| |]; simpl; [|done..].
    destruct (tryDigitsTraced recT row col rest b3) as [[[res' b4] later]| |] eqn:Hrest;
      simpl; [|done..].
    intros [= <- <- <-]. rewrite replay_cons, replay_app, replay_cons. simpl.
    by eapply IH.
Qed.

End TracedLoop.

Lemma solveTracedFuel_S fuel b :
  solveTracedFuel (S fuel) b =
  empty ← findEmpty b;
  match empty with
  | None => Ok (true, b, [])
  | Some (row, col) => tryDigitsTraced (solveTracedFuel fuel) row col digits b
  end.
Proof. done. Qed.

Lemma solveTracedFuel_forget fuel :
  ∀ b, forget (solveTracedFuel fuel b) = solveFuel fuel b.
Proof.
  induction fuel as [|fuel IH]; intros b; [done|].
  rewrite solveTracedFuel_S, solveFuel_S.
  destruct (findEmpty b) as [[[row col]|]| |]; [|done..].
  rewrite !outcome_bind_Ok. by apply tryDigitsTraced_forget.
Qed.

Lemma solveTracedFuel_replay fuel :
  ∀ b res b' tr, solveTracedFuel fuel b = Ok (res, b', tr) → replay b tr = b'.
Proof.
  induction fuel as [|fuel IH]; intros b res b' tr; [done|].
  rewrite solveTracedFuel_S.
  destruct (findEmpty b) as [[[row col]|]| |]; [| |done..].
  - rewrite outcome_bind_Ok. by apply tryDigitsTraced_replay.
  - by intros [= _ <- <-].
Qed.

Lemma solveSudoku_forget b : forget (solveSudoku b) = solveSudokuInstant b.
Proof. apply solveTracedFuel_forget. Qed.

Lemma forget_Ok {A B C : Type} (o : outcome (A * B * C)) a b :
  forget o = Ok (a, b) → ∃ c, o = Ok (a, b, c).
Proof.
  destruct o as [[[a' b'] c]| |]; simpl; [|done..]. intros [= -> ->]. by exists c.
Qed.

(** ** Replaying a trace write by write *)

Lemma applyStep_setCell b row col v :
  is9x9 b → row < 9 → col < 9 →
  applyStep b (mkStep (setCell b row col v) row col) = setCell b row col v.
Proof.
  intros Hb Hr Hc. destruct (is9x9_row b row Hb Hr) as (r & Hrow & Hlen).
  unfold applyStep, setCell. simpl.
  rewrite list_lookup_alter_eq, Hrow. simpl.
  rewrite list_lookup_insert_eq by lia.
  apply list_eq. intros k. destruct (decide (k = row)) as [->|Hne].
  - rewrite list_lookup_insert_eq by (apply lookup_lt_is_Some; eauto).
    by rewrite list_lookup_alter_eq, Hrow.
  - by rewrite list_lookup_insert_ne, list_lookup_alter_ne.
Qed.

Lemma replayWrites_cons b step tr :
  replayWrites b (step :: tr) = replayWrites (applyStep b step) tr.
Proof. done. Qed.

Lemma replayWrites_app b tr1 tr2 :
  replayWrites b (tr1 ++ tr2) = replayWrites (replayWrites b tr1) tr2.
Proof. apply fold_left_app. Qed.

Section TracedWrites.

Variable recT : SudokuBoard → outcome (bool * SudokuBoard * list Step).
Hypothesis rec_writes : ∀ b res b' tr,
  is9x9 b → recT b = Ok (res, b', tr) → is9x9 b' ∧ replayWrites b tr = b'.
Variables row col : nat.
Hypothesis Hrow : row < 9.
Hypothesis Hcol : col < 9.

Lemma tryDigitsTraced_writes nums :
  ∀ b res b' tr,
    is9x9 b → tryDigitsTraced recT row col nums b = Ok (res, b', tr) →
    is9x9 b' ∧ replayWrites b tr = b'.
Proof.
  induction nums as [|n rest IH]; intros b res b' tr Hb; simpl.
  { by intros [= _ <- <-]. }
  destruct (isValid b row col n) as [[|]| |]; simpl; [|by apply IH|done..].
  rewrite writeCell_ok by done. simpl.
  destruct (recT (setCell b row col (JNum n))) as [[[[|] b2] inner]| |] eqn:Hrec;
    simpl; [| |done..].
  - intros [= <- <- <-]. rewrite replayWrites_cons, applyStep_setCell by done.
    apply (rec_writes _ _ _ _ (setCell_9x9 b row col _ Hb) Hrec).
  - destruct (rec_writes _ _ _ _ (setCell_9x9 b row col _ Hb) Hrec) as [Hb2 Hinner].
    rewrite writeCell_ok by done. simpl.
    destruct (tryDigitsTraced recT row col rest (setCell b2 row col JNull))
      as [[[res' b4] later]| |] eqn:Hrest; simpl; [|done..].
    intros [= <- <- <-].
    rewrite replayWrites_cons, applyStep_setCell, replayWrites_app, Hinner by done.
    rewrite replayWrites_cons, applyStep_setCell by done.
    apply (IH _ _ _ _ (setCell_9x9 b2 row col _ Hb2) Hrest).
Qed.

End TracedWrites.

Lemma solveTracedFuel_writes fuel :
  ∀ b res b' tr,
    is9x9 b → solveTracedFuel fuel b = Ok (res, b', tr) →
    is9x9 b' ∧ replayWrites b tr = b'.
Proof.
  induction fuel as [|fuel IH]; intros b res b' tr Hb; [done|].
  rewrite solveTracedFuel_S, findEmpty_ok, outcome_bind_Ok by done.
  destruct (List.find (isEmptyAt b) allCells) as [[row col]|] eqn:Hfind.
  - apply find_allCells_Some in Hfind as (Hr & Hc & _).
    by apply tryDigitsTraced_writes.
  - by intros [= _ <- <-].
Qed.

(** ** Concrete runs *)

(** The bundled example is solved, its first row completed to
    5 3 4 6 7 8 9 1 2. *)
Lemma solve_examplePuzzle : solveSudokuInstant examplePuzzle = Ok (true, exampleSolved).
Proof. vm_compute. reflexivity. Qed.


(** Both entry points return on every 9×9 board, with the same result and
    the same final board. *)
Lemma solveSudoku_runs b :
  is9x9 b →
  ∃ res b' tr,
    solveSudoku b = Ok (res, b', tr) ∧ solveSudokuInstant b = Ok (res, b') ∧
    searchPost b res b' ∧ replay b tr = b' ∧ replayWrites b tr = b'.
Proof.
  intros Hb. destruct (solveSudokuInstant_spec b Hb) as (res & b' & Hrun & Hpost).
  pose proof (solveSudoku_forget b) as Hforget. rewrite Hrun in Hforget.
  apply forget_Ok in Hforget as [tr Htraced].
  exists res, b', tr. split; [done|]. split; [done|]. split; [done|]. split.
  - by apply (solveTracedFuel_replay _ _ _ _ _ Htraced).
  - by apply (solveTracedFuel_writes _ _ _ _ _ Hb Htraced).
Qed.

Lemma searchPost_filled b res b' i j :
  searchPost b res b' → i < 9 → j < 9 → isEmptyVal (cellAt b i j) = false →
  cellAt b' i j = cellAt b i j.
Proof.
  intros [_ Hpost] Hi Hj He. destruct res.
  - destruct Hpost as (_ & Hkeep & _). by apply Hkeep.
  - destruct Hpost as [Hz _]. by apply zeroToNull_filled.
Qed.

(** ** Completions *)

Lemma isDigit_elem n : isDigit n ↔ n ∈ digits.
Proof. unfold isDigit, digits. rewrite !elem_of_cons, elem_of_nil. lia. Qed.

Lemma fitsAtb_spec s i j :
  is9x9 s → i < 9 → j < 9 → fitsAtb s (i, j) = true → fitsAt s i j.
Proof.
  intros Hs Hi Hj. unfold fitsAtb. simpl.
  destruct (cellAt s i j) as [| |n] eqn:Hn; [done..|].
  rewrite !andb_true_iff, !Z.leb_le. intros [[Hlo Hhi] Hval].
  exists n. split; [done|]. split; [done|].
  assert (rechecks s i j) as Hre.
  { exists n, (setCell s i j JNull). split; [done|]. split; [by apply writeCell_ok|].
    rewrite isValid_ok by (done || by apply setCell_9x9). by rewrite Hval. }
  apply rechecks_spec in Hre as (n' & Hn' & Halone); [|done..].
  assert (n' = n) as -> by congruence. done.
Qed.

Lemma solvedGrid_decide s :
  is9x9 s → forallb (fitsAtb s) allCells = true → solvedGrid s.
Proof.
  intros Hs H. split; [done|]. intros i j Hi Hj.
  apply fitsAtb_spec; [done..|]. rewrite forallb_forall in H.
  apply H, list_elem_of_In, elem_of_allCells. done.
Qed.

Lemma solvedGrid_exampleSolved : solvedGrid exampleSolved.
Proof.
  apply solvedGrid_decide; [|by vm_compute]. split; [done|]. repeat constructor.
Qed.

(** In a completion, the digit at a cell that is empty in the board is a
    digit [isValid] accepts there. *)
Lemma completion_valid b s row col n :
  completion b s → row < 9 → col < 9 →
  isEmptyVal (cellAt b row col) = true → cellAt s row col = JNum n →
  isDigit n ∧ validAt b row col n = true.
Proof.
  intros [[Hs Hfits] Hkeep] Hr Hc He Hn.
  destruct (Hfits row col Hr Hc) as (n' & Hdig & Hn' & Halone).
  assert (n' = n) as -> by congruence. split; [done|].
  apply validAt_spec; [done..|]. intros i j Hi Hj Hscope Hb.
  destruct (decide ((i, j) = (row, col))) as [[= -> ->]|Hne].
  - rewrite Hb in He. by rewrite isEmptyVal_digit in He.
  - apply (Halone i j Hi Hj Hscope Hne). rewrite Hkeep; [done..|].
    rewrite Hb. by apply isEmptyVal_digit.
Qed.

Lemma inScope_same_row i j j' : inScope i j i j' = true.
Proof. unfold inScope. by rewrite Nat.eqb_refl. Qed.

Lemma inScope_same_col i i' j : inScope i j i' j = true.
Proof. unfold inScope. by rewrite Nat.eqb_refl, orb_true_r. Qed.

(** ** A row with the same digit twice cannot be completed *)

Lemma row_has_digit s i v :
  i < 9 → (∀ j, j < 9 → fitsAt s i j) → isDigit v →
  ∃ j, j < 9 ∧ cellAt s i j = JNum v.
Proof.
  intros Hi Hfits Hv.
  assert (Hnum : ∀ j, j < 9 → isDigit (numAt s i j) ∧ cellAt s i j = JNum (numAt s i j)).
  { intros j Hj. destruct (Hfits j Hj) as (n & Hn & Hcell & _).
    unfold numAt. by rewrite Hcell. }
  assert (Hperm : (numAt s i <$> seq 0 9) ≡ₚ digits).
  { apply submseteq_length_Permutation; [|by rewrite length_fmap].
    apply NoDup_submseteq.
    - apply NoDup_fmap_2_strong; [|apply NoDup_seq].
      intros x y Hx%elem_of_seq Hy%elem_of_seq Heq.
      destruct (decide (x = y)) as [|Hne]; [done|]. exfalso.
      destruct (Hfits x ltac:(lia)) as (n & _ & Hcell & Halone).
      apply (Halone i y); [lia..|apply inScope_same_row|congruence|].
      destruct (Hnum x ltac:(lia)) as [_ Hx'], (Hnum y ltac:(lia)) as [_ Hy'].
      congruence.
    - intros n (j & -> & Hj%elem_of_seq)%list_elem_of_fmap.
      apply isDigit_elem, Hnum. lia. }
  apply isDigit_elem in Hv. rewrite <- Hperm in Hv.
  apply list_elem_of_fmap in Hv as (j & -> & Hj%elem_of_seq).
  exists j. split; [lia|]. apply Hnum. lia.
Qed.

Lemma other_rows_length r :
  r < 9 → length (filter (λ i, i ≠ r) (seq 0 9)) = 8.
Proof.
  intros Hr. do 9 (destruct r as [|r]; [done|]). lia.
Qed.

Lemma other_columns_length c1 c2 :
  c1 < 9 → c2 < 9 → c1 ≠ c2 →
  length (filter (λ j, j ≠ c1 ∧ j ≠ c2) (seq 0 9)) = 7.
Proof.
  intros H1 H2 Hne.
  do 9 (destruct c1 as [|c1]; [do 9 (destruct c2 as [|c2]; [done|]); lia|]). lia.
Qed.

Lemma two_in_row_unsolvable s r c1 c2 v :
  r < 9 → c1 < 9 → c2 < 9 → c1 ≠ c2 → isDigit v →
  cellAt s r c1 = JNum v → cellAt s r c2 = JNum v →
  (∀ i j, i < 9 → j < 9 → i ≠ r → fitsAt s i j) →
  False.
Proof.
  intros Hr Hc1 Hc2 Hne Hv H1 H2 Hfits.
  set (rows := filter (λ i, i ≠ r) (seq 0 9)).
  set (cols := filter (λ j, j ≠ c1 ∧ j ≠ c2) (seq 0 9)).
  assert (Hrows : ∀ i, i ∈ rows ↔ i < 9 ∧ i ≠ r).
  { intros i. unfold rows. rewrite list_elem_of_filter, elem_of_seq. lia. }
  assert (Hcol : ∀ i, i ∈ rows →
    columnOf s v i < 9 ∧ cellAt s i (columnOf s v i) = JNum v).
  { intros i [Hi Hir]%Hrows.
    destruct (row_has_digit s i v Hi) as (j & Hj & Hcell); [|done|].
    { intros j' Hj'. by apply Hfits. }
    unfold columnOf.
    destruct (List.find _ (seq 0 9)) as [j'|] eqn:Hfind.
    - apply find_some in Hfind as [Hin Hb]. apply in_seq in Hin.
      apply bool_decide_eq_true in Hb. simpl. split; [lia|done].
    - assert (In j (seq 0 9)) as Hin by (apply in_seq; lia).
      apply (find_none _ _ Hfind j) in Hin.
      by apply bool_decide_eq_false in Hin. }
  assert (Hsame : ∀ i i' j, i < 9 → i' < 9 → j < 9 → i ≠ r → i ≠ i' →
    cellAt s i j = JNum v → cellAt s i' j = JNum v → False).
  { intros i i' j Hi Hi' Hj Hir Hii Hcell Hcell'.
    destruct (Hfits i j Hi Hj Hir) as (n & _ & Hn & Halone).
    apply (Halone i' j Hi' Hj); [apply inScope_same_col|congruence|congruence]. }
  destruct (list_pigeonhole (columnOf s v <$> rows) cols) as (k1 & k2 & x & Hk & Hx1 & Hx2).
  - intros j (i & -> & Hin)%list_elem_of_fmap.
    destruct (Hcol i Hin) as [Hlt Hcell]. apply Hrows in Hin as [Hi Hir].
    unfold cols. rewrite list_elem_of_filter, elem_of_seq.
    split; [|lia]. split; intros Heq; rewrite Heq in Hcell.
    + by apply (Hsame i r c1).
    + by apply (Hsame i r c2).
  - unfold rows, cols.
    rewrite length_fmap, other_rows_length, other_columns_length by done. lia.
  - rewrite list_lookup_fmap in Hx1, Hx2.
    destruct (rows !! k1) as [i1|] eqn:Hi1; [|done].
    destruct (rows !! k2) as [i2|] eqn:Hi2; [|done].
    simpl in Hx1, Hx2. injection Hx1 as Hx1. injection Hx2 as Hx2.
    assert (i1 ≠ i2) as Hii.
    { intros ->. assert (k1 = k2); [|lia].
      eapply NoDup_lookup; [|done..]. apply NoDup_filter, NoDup_seq. }
    apply list_elem_of_lookup_2 in Hi1, Hi2.
    destruct (Hcol i1 Hi1) as [Hlt1 Hcell1], (Hcol i2 Hi2) as [Hlt2 Hcell2].
    apply Hrows in Hi1 as [Hi1 Hir1]. apply Hrows in Hi2 as [Hi2 Hir2].
    rewrite Hx1 in Hcell1, Hlt1. rewrite Hx2 in Hcell2.
    by apply (Hsame i1 i2 x).
Qed.

(** ** When the trace is empty *)








(** ** The validator on a 9×9 board *)

Lemma anyEqual_ok (b : SudokuBoard) value cells :
  Forall (λ p, p.1 < length b) cells →
  anyEqual b value cells = Ok (holdsAny b value cells).
Proof.
  induction 1 as [|[i j] rest Hi _ IH]; [done|].
  simpl in *. rewrite readCell_ok by done. simpl.
  destruct (decide (cellAt b i j = value)) as [Heq|Hne].
  - by rewrite bool_decide_eq_true_2.
  - by rewrite bool_decide_eq_false_2, IH.
Qed.

Lemma holdsAny_false (b : SudokuBoard) value cells :
  holdsAny b value cells = false ↔ ∀ p, p ∈ cells → cellAt b p.1 p.2 ≠ value.
Proof.
  unfold holdsAny. rewrite <- not_true_iff_false, existsb_exists. split.
  - intros Hnot p Hin Heq. apply Hnot. exists p.
    split; [by apply list_elem_of_In|by apply bool_decide_eq_true].
  - intros Hall (p & Hin & Heq). apply bool_decide_eq_true in Heq.
    by apply (Hall p); [apply list_elem_of_In|].
Qed.

Lemma holdsAny_ext (b B : SudokuBoard) value cells :
  (∀ p, p ∈ cells → cellAt b p.1 p.2 = value ↔ cellAt B p.1 p.2 = value) →
  holdsAny b value cells = holdsAny B value cells.
Proof.
  intros H. unfold holdsAny. induction cells as [|p rest IH]; [done|].
  simpl. rewrite IH by (intros q Hq; apply H; by right).
  f_equal. apply bool_decide_ext, H. by left.
Qed.

Lemma otherCells_table :
  Forall (λ row, Forall (λ col,
    Forall (λ r, r < 9) (seq (row / 3 * 3) 3) ∧
    Forall (λ p, p.1 < 9 ∧ p.2 < 9 ∧ inScope row col p.1 p.2 = true ∧ p ≠ (row, col))
      (otherCells row col))
    (seq 0 9)) (seq 0 9).
Proof. apply (bool_decide_unpack _). vm_compute. exact I. Qed.

Lemma otherCells_spec row col :
  row < 9 → col < 9 →
  (∀ r, r ∈ seq (row / 3 * 3) 3 → r < 9) ∧
  (∀ p, p ∈ otherCells row col →
     p.1 < 9 ∧ p.2 < 9 ∧ inScope row col p.1 p.2 = true ∧ p ≠ (row, col)).
Proof.
  intros Hr Hc. pose proof otherCells_table as T.
  rewrite Forall_forall in T. specialize (T row ltac:(apply elem_of_seq; lia)).
  rewrite Forall_forall in T. specialize (T col ltac:(apply elem_of_seq; lia)).
  by rewrite !Forall_forall in T.
Qed.

Lemma otherCells_row row col p : p ∈ rowOthers row col → p ∈ otherCells row col.
Proof. intros H. unfold otherCells. apply elem_of_app. by left. Qed.

Lemma otherCells_col row col p : p ∈ colOthers row col → p ∈ otherCells row col.
Proof.
  intros H. unfold otherCells. apply elem_of_app. right. apply elem_of_app. by left.
Qed.

Lemma otherCells_box row col r p :
  r ∈ seq (row / 3 * 3) 3 → p ∈ boxRowOthers row col r → p ∈ otherCells row col.
Proof.
  intros Hr H. unfold otherCells. apply elem_of_app. right. apply elem_of_app. right.
  apply list_elem_of_In, in_flat_map. exists r. by rewrite <- !list_elem_of_In.
Qed.

Lemma boxScan_ok (b : SudokuBoard) value row col rs :
  Forall (λ r, r < length b) rs →
  boxScan b value row col (col / 3 * 3) rs =
  Ok (flat_map (λ r, pushIf (holdsAny b value (boxRowOthers row col r))
                            (boxError row col value)) rs).
Proof.
  induction 1 as [|r rest Hr _ IH]; [done|].
  cbn [boxScan flat_map]. rewrite anyEqual_ok.
  - by rewrite outcome_bind_Ok, IH, outcome_bind_Ok.
  - apply Forall_forall. intros p (c & -> & _)%list_elem_of_fmap. done.
Qed.

Lemma validateCell_ok (b : SudokuBoard) row col :
  is9x9 b → row < 9 → col < 9 →
  validateCell b row col = Ok (cellErrors b (row, col)).
Proof.
  intros Hb Hr Hc. pose proof Hb as [Hlen _].
  destruct (otherCells_spec row col Hr Hc) as [Hrows Hcells].
  unfold validateCell, cellErrors. cbn [fst snd]. cbv zeta.
  rewrite readCell_ok by lia. rewrite outcome_bind_Ok.
  destruct (isEmptyVal (cellAt b row col)); [done|].
  fold (rowOthers row col). fold (colOthers row col).
  rewrite (anyEqual_ok b _ (rowOthers row col)), outcome_bind_Ok.
  2:{ apply Forall_forall. intros p Hp%otherCells_row.
      destruct (Hcells p Hp) as [? _]. lia. }
  rewrite (anyEqual_ok b _ (colOthers row col)), outcome_bind_Ok.
  2:{ apply Forall_forall. intros p Hp%otherCells_col.
      destruct (Hcells p Hp) as [? _]. lia. }
  rewrite boxScan_ok; [done|].
  apply Forall_forall. intros r Hin. specialize (Hrows r Hin). lia.
Qed.

Lemma validateCells_ok (b : SudokuBoard) cells :
  is9x9 b → Forall (λ p, p.1 < 9 ∧ p.2 < 9) cells →
  validateCells b cells = Ok (flat_map (cellErrors b) cells).
Proof.
  intros Hb. induction 1 as [|[row col] rest [Hr Hc] _ IH]; [done|].
  cbn [validateCells flat_map fst snd] in *.
  by rewrite validateCell_ok, outcome_bind_Ok, IH, outcome_bind_Ok.
Qed.

Lemma validateBoard_ok (b : SudokuBoard) :
  is9x9 b → validateBoard b = Ok (flat_map (cellErrors b) allCells).
Proof.
  intros Hb. apply validateCells_ok; [done|].
  apply Forall_forall. intros [i j] Hin. by apply elem_of_allCells in Hin.
Qed.

Lemma flat_map_nil {A B : Type} (f : A → list B) (l : list A) :
  (∀ x, x ∈ l → f x = []) → flat_map f l = [].
Proof.
  induction l as [|x l IH]; [done|]. intros H. simpl.
  rewrite (H x) by left. apply IH. intros y Hy. apply H. by right.
Qed.

Lemma flat_map_ext_elem {A B : Type} (f g : A → list B) (l : list A) :
  (∀ x, x ∈ l → f x = g x) → flat_map f l = flat_map g l.
Proof.
  induction l as [|x l IH]; [done|]. intros H. simpl.
  rewrite (H x) by left. f_equal. apply IH. intros y Hy. apply H. by right.
Qed.

Lemma cellErrors_empty b row col :
  isEmptyVal (cellAt b row col) = true → cellErrors b (row, col) = [].
Proof. intros He. unfold cellErrors. cbn [fst snd]. by rewrite He. Qed.

Lemma cellErrors_alone b row col :
  row < 9 → col < 9 → aloneAt b row col (cellAt b row col) →
  cellErrors b (row, col) = [].
Proof.
  intros Hr Hc Halone.
  destruct (otherCells_spec row col Hr Hc) as [_ Hcells].
  assert (Hno : ∀ cells, (∀ p, p ∈ cells → p ∈ otherCells row col) →
    holdsAny b (cellAt b row col) cells = false).
  { intros cells Hsub. apply holdsAny_false. intros [i j] Hin.
    destruct (Hcells _ (Hsub _ Hin)) as (Hi & Hj & Hs & Hne). by apply Halone. }
  unfold cellErrors. cbn [fst snd]. destruct (isEmptyVal (cellAt b row col)); [done|].
  rewrite (Hno (rowOthers row col)) by apply otherCells_row.
  rewrite (Hno (colOthers row col)) by apply otherCells_col.
  cbn [pushIf app]. apply flat_map_nil. intros r Hin.
  rewrite Hno; [done|]. intros p. by apply otherCells_box.
Qed.

Lemma cellErrors_ext b B row col :
  row < 9 → col < 9 → cellAt b row col = cellAt B row col →
  (∀ i j, i < 9 → j < 9 → inScope row col i j = true → (i, j) ≠ (row, col) →
     cellAt b i j = cellAt b row col ↔ cellAt B i j = cellAt b row col) →
  cellErrors b (row, col) = cellErrors B (row, col).
Proof.
  intros Hr Hc Hval Hsame.
  destruct (otherCells_spec row col Hr Hc) as [_ Hcells].
  assert (Hext : ∀ cells, (∀ p, p ∈ cells → p ∈ otherCells row col) →
    holdsAny b (cellAt b row col) cells = holdsAny B (cellAt b row col) cells).
  { intros cells Hsub. apply holdsAny_ext. intros [i j] Hin.
    destruct (Hcells _ (Hsub _ Hin)) as (Hi & Hj & Hs & Hne). by apply Hsame. }
  unfold cellErrors. cbn [fst snd]. rewrite <- Hval.
  destruct (isEmptyVal (cellAt b row col)); [done|].
  rewrite (Hext (rowOthers row col)) by apply otherCells_row.
  rewrite (Hext (colOthers row col)) by apply otherCells_col.
  do 2 f_equal. apply flat_map_ext_elem. intros r Hin.
  rewrite Hext; [done|]. intros p. by apply otherCells_box.
Qed.

Lemma pairBoard_table :
  Forall (λ r, Forall (λ c1, Forall (λ c2,
    c1 < c2 → flat_map (cellErrors (pairBoard r c1 c2)) allCells = pairErrors r c1 c2)
    (seq 0 9)) (seq 0 9)) (seq 0 9).
Proof. apply (bool_decide_unpack _). vm_compute. exact I. Qed.

Lemma pairBoard_errors r c1 c2 :
  r < 9 → c1 < c2 → c2 < 9 →
  flat_map (cellErrors (pairBoard r c1 c2)) allCells = pairErrors r c1 c2.
Proof.
  intros Hr H12 Hc2. pose proof pairBoard_table as T.
  rewrite Forall_forall in T. specialize (T r ltac:(apply elem_of_seq; lia)).
  rewrite Forall_forall in T. specialize (T c1 ltac:(apply elem_of_seq; lia)).
  rewrite Forall_forall in T. by apply (T c2 ltac:(apply elem_of_seq; lia)).
Qed.

Lemma is9x9_createEmptyBoard : is9x9 createEmptyBoard.
Proof. split; [done|]. repeat constructor. Qed.

Lemma cellAt_createEmptyBoard i j : i < 9 → j < 9 → cellAt createEmptyBoard i j = JNull.
Proof.
  intros Hi Hj. unfold cellAt, createEmptyBoard.
  rewrite lookup_replicate_2 by done. cbv beta iota.
  by rewrite lookup_replicate_2.
Qed.

Lemma cellAt_pairBoard r c1 c2 i j :
  r < 9 → c1 < 9 → c2 < 9 → i < 9 → j < 9 →
  cellAt (pairBoard r c1 c2) i j =
  if decide ((i, j) = (r, c1) ∨ (i, j) = (r, c2)) then JNum 5 else JNull.
Proof.
  intros Hr Hc1 Hc2 Hi Hj. unfold pairBoard.
  pose proof (setCell_9x9 _ r c1 (JNum 5) is9x9_createEmptyBoard) as H9.
  destruct (decide ((i, j) = (r, c2))) as [[= -> ->]|Hne2].
  - rewrite cellAt_setCell_eq by done. rewrite decide_True; [done|by right].
  - rewrite cellAt_setCell_ne by done.
    destruct (decide ((i, j) = (r, c1))) as [[= -> ->]|Hne1].
    + rewrite cellAt_setCell_eq by (done || apply is9x9_createEmptyBoard).
      rewrite decide_True; [done|by left].
    + rewrite cellAt_setCell_ne by done. rewrite cellAt_createEmptyBoard by done.
      rewrite decide_False; [done|]. by intros [|].
Qed.

(** ** Which cells the validator reports, on any board *)

Lemma readCell_value (b : SudokuBoard) i j v : readCell b i j = Ok v → v = cellAt b i j.
Proof.
  unfold readCell, cellAt. destruct (b !! i); [|done]. by intros [= <-].
Qed.

Lemma pushIf_elem found e e' : e' ∈ pushIf found e → e' = e.
Proof.
  destruct found; simpl; [|by intros ?%elem_of_nil].
  intros [->|?%elem_of_nil]%elem_of_cons; done.
Qed.

Lemma boxScan_cells (b : SudokuBoard) value row col boxCol rs :
  ∀ errs, boxScan b value row col boxCol rs = Ok errs →
  ∀ e, e ∈ errs → errRow e = row ∧ errCol e = col.
Proof.
  induction rs as [|r rest IH]; intros errs; cbn [boxScan].
  { intros [= <-] e He. by apply elem_of_nil in He. }
  destruct (anyEqual b value _) as [found| |]; [|done..].
  rewrite outcome_bind_Ok.
  destruct (boxScan b value row col boxCol rest) as [later| |]; [|done..].
  rewrite outcome_bind_Ok. intros [= <-] e [He|He]%elem_of_app.
  - by apply pushIf_elem in He as ->.
  - by apply (IH later).
Qed.

Lemma validateCell_cells (b : SudokuBoard) row col errs :
  validateCell b row col = Ok errs →
  ∀ e, e ∈ errs →
    errRow e = row ∧ errCol e = col ∧ isEmptyVal (cellAt b row col) = false.
Proof.
  unfold validateCell. destruct (readCell b row col) as [value| |] eqn:Hread; [|done..].
  apply readCell_value in Hread as ->. rewrite outcome_bind_Ok.
  destruct (isEmptyVal (cellAt b row col)) eqn:He.
  { intros [= <-] e Hin. by apply elem_of_nil in Hin. }
  fold (rowOthers row col). fold (colOthers row col).
  destruct (anyEqual b _ (rowOthers row col)) as [inRow| |]; [|done..].
  rewrite outcome_bind_Ok.
  destruct (anyEqual b _ (colOthers row col)) as [inCol| |]; [|done..].
  rewrite outcome_bind_Ok.
  cbv zeta. destruct (boxScan b _ row col _ _) as [inBox| |] eqn:Hbox; [|done..].
  rewrite outcome_bind_Ok. intros [= <-] e Hin.
  apply elem_of_app in Hin as [Hin|Hin]; [|apply elem_of_app in Hin as [Hin|Hin]].
  - by apply pushIf_elem in Hin as ->.
  - by apply pushIf_elem in Hin as ->.
  - destruct (boxScan_cells _ _ _ _ _ _ _ Hbox e Hin) as [-> ->]. done.
Qed.

Lemma validateCells_cells (b : SudokuBoard) cells :
  ∀ errs, validateCells b cells = Ok errs →
  ∀ e, e ∈ errs → isEmptyVal (cellAt b (errRow e) (errCol e)) = false.
Proof.
  induction cells as [|[row col] rest IH]; intros errs; cbn [validateCells].
  { intros [= <-] e He. by apply elem_of_nil in He. }
  destruct (validateCell b row col) as [here| |] eqn:Hhere; [|done..].
  rewrite outcome_bind_Ok.
  destruct (validateCells b rest) as [later| |]; [|done..].
  rewrite outcome_bind_Ok. intros [= <-] e [He|He]%elem_of_app.
  - by destruct (validateCell_cells _ _ _ _ Hhere e He) as (-> & -> & ?).
  - by apply (IH later).
Qed.

(** ** [shuffle] permutes *)

Lemma swap_Permutation {A : Type} (l : list A) i j : swap l i j ≡ₚ l.
Proof.
  unfold swap. destruct (l !! i) as [x|] eqn:Hi; [|done].
  destruct (l !! j) as [y|] eqn:Hj; [|done].
  pose proof (lookup_lt_Some _ _ _ Hi) as Hilt.
  pose proof (lookup_lt_Some _ _ _ Hj) as Hjlt.
  apply Permutation_inj. split; [by rewrite !length_insert|].
  exists (swapIndex i j). split.
  - intros k1 k2. unfold swapIndex. repeat case_decide; congruence.
  - intros k. unfold swapIndex.
    destruct (decide (k = j)) as [->|Hkj].
    + rewrite list_lookup_insert_eq by (by rewrite length_insert).
      case_decide; congruence.
    + rewrite list_lookup_insert_ne by done.
      destruct (decide (k = i)) as [->|Hki].
      * by rewrite list_lookup_insert_eq.
      * by rewrite list_lookup_insert_ne.
Qed.

Lemma shuffleLoop_Permutation {A : Type} random i :
  ∀ (l : list A) k, (shuffleLoop random i l k).1 ≡ₚ l.
Proof.
  induction i as [|i IH]; intros l k; [done|].
  simpl. rewrite IH. apply swap_Permutation.
Qed.

Lemma shuffle_Permutation {A : Type} random (l : list A) k :
  (shuffle random l k).1 ≡ₚ l.
Proof. apply shuffleLoop_Permutation. Qed.

(** ** The empty cells the generator sees *)

Lemma elem_of_nullPositions (b : SudokuBoard) i j :
  (i, j) ∈ nullPositions b ↔ cellAt b i j = JNull.
Proof.
  unfold nullPositions, cellAt. rewrite list_elem_of_omap. split.
  - intros (o & Hin & Ho). simpl in Ho. subst o.
    apply list_elem_of_In, in_concat in Hin as (cells & Hcells & Hin).
    apply list_elem_of_In, elem_of_lookup_imap in Hcells as (i' & row & -> & Hrow).
    apply list_elem_of_In, elem_of_lookup_imap in Hin as (j' & cell & Hcell & Hj).
    destruct cell; try done. injection Hcell as -> ->.
    by rewrite Hrow, Hj.
  - intros Hcell. destruct (b !! i) as [row|] eqn:Hrow; [|done].
    destruct (row !! j) as [cell|] eqn:Hj; [|done]. simpl in Hcell. subst cell.
    exists (Some (i, j)). split; [|done].
    apply list_elem_of_In, in_concat.
    exists (imap (λ j' cell,
      match cell with JNull => Some (i, j') | _ => None end) row).
    rewrite <- !list_elem_of_In. split.
    + apply (elem_of_lookup_imap (λ i' row', imap (λ j' cell,
        match cell with JNull => Some (i', j') | _ => None end) row')).
      by exists i, row.
    + apply (elem_of_lookup_imap (λ j' (cell : jsval),
        match cell with JNull => Some (i, j') | _ => None end)).
      by exists j, JNull.
Qed.

Lemma cellAt_defined (b : SudokuBoard) i j :
  is9x9 b → cellAt b i j ≠ JUndefined → i < 9 ∧ j < 9.
Proof.
  intros [Hlen Hrows] Hcell. unfold cellAt in Hcell.
  destruct (b !! i) as [row|] eqn:Hrow; [|done].
  destruct (row !! j) as [cell|] eqn:Hj; [|done].
  apply lookup_lt_Some in Hrow as Hi. apply lookup_lt_Some in Hj as Hjlt.
  rewrite Forall_forall in Hrows.
  rewrite (Hrows row) in Hjlt by (apply list_elem_of_lookup; eauto). lia.
Qed.

Lemma firstNull_Some (b : SudokuBoard) row col :
  is9x9 b → firstNull b = Some (row, col) →
  row < 9 ∧ col < 9 ∧ cellAt b row col = JNull.
Proof.
  intros Hb Hfirst. unfold firstNull in Hfirst.
  assert ((row, col) ∈ nullPositions b) as Hin%elem_of_nullPositions.
  { destruct (nullPositions b); [done|]. injection Hfirst as ->. left. }
  destruct (cellAt_defined b row col Hb) as [Hr Hc]; [by rewrite Hin|done].
Qed.

Lemma firstNull_None (b : SudokuBoard) :
  firstNull b = None → ∀ i j, cellAt b i j ≠ JNull.
Proof.
  unfold firstNull. intros Hfirst i j Hcell%elem_of_nullPositions.
  destruct (nullPositions b); [by apply elem_of_nil in Hcell|done].
Qed.

Lemma imap_null_length (g : nat → nat * nat) (row : list jsval) :
  length (omap id (imap (λ j cell,
    match cell with JNull => Some (g j) | _ => None end) row))
  = length (filter (λ v, v = JNull) row).
Proof.
  revert g. induction row as [|cell row IH]; intros g; [done|].
  rewrite imap_cons, filter_cons. cbn [omap list_omap].
  specialize (IH (g ∘ S)). unfold compose in IH.
  destruct cell; cbn [id]; rewrite ?decide_True, ?decide_False by done;
    simpl; by rewrite <- IH.
Qed.

Lemma nullPositions_length (h : nat → nat → nat * nat) (b : SudokuBoard) :
  length (omap id (concat (imap (λ i row, imap (λ j cell,
    match cell with JNull => Some (h i j) | _ => None end) row) b)))
  = length (filter (λ v, v = JNull) (concat b)).
Proof.
  revert h. induction b as [|row b IH]; intros h; [done|].
  rewrite imap_cons, !concat_cons, omap_app, filter_app, !length_app.
  rewrite (imap_null_length (h 0)). f_equal.
  apply (IH (h ∘ S)).
Qed.

Lemma countNull_countIf (b : SudokuBoard) : countNull b = countIf (λ v, v = JNull) b.
Proof. apply (nullPositions_length (λ i j, (i, j))). Qed.

Lemma countNull_place b i j n :
  is9x9 b → i < 9 → j < 9 → cellAt b i j = JNull →
  S (countNull (setCell b i j (JNum n))) = countNull b.
Proof.
  intros Hb Hi Hj He. rewrite !countNull_countIf.
  pose proof (countIf_setCell (λ v, v = JNull) b i j (JNum n) Hb Hi Hj) as H.
  rewrite decide_True, decide_False in H by done. lia.
Qed.

Lemma countNull_clear b i j :
  is9x9 b → i < 9 → j < 9 →
  countNull (setCell b i j JNull) ≤ S (countNull b).
Proof.
  intros Hb Hi Hj. rewrite !countNull_countIf.
  pose proof (countIf_setCell (λ v, v = JNull) b i j JNull Hb Hi Hj) as H.
  rewrite (decide_True (P := JNull = JNull)) in H by done.
  destruct (decide (cellAt b i j = JNull)); lia.
Qed.

Lemma setCell_restore b i j w :
  is9x9 b → i < 9 → j < 9 → setCell (setCell b i j w) i j (cellAt b i j) = b.
Proof.
  intros Hb Hi Hj. apply board_ext; [by do 2 apply setCell_9x9|done|].
  intros i' j' Hi' Hj'. destruct (decide ((i', j') = (i, j))) as [[= -> ->]|Hne].
  - by rewrite cellAt_setCell_eq by (done || by apply setCell_9x9).
  - by rewrite !cellAt_setCell_ne.
Qed.

Lemma clean_setCell_digit b i j n :
  is9x9 b → i < 9 → j < 9 → clean b → isDigit n → clean (setCell b i j (JNum n)).
Proof.
  intros Hb Hi Hj Hclean Hn i' j' Hi' Hj'.
  destruct (decide ((i', j') = (i, j))) as [[= -> ->]|Hne].
  - rewrite cellAt_setCell_eq by done. right. eauto.
  - rewrite cellAt_setCell_ne by done. by apply Hclean.
Qed.

Lemma clean_empty b i j :
  clean b → i < 9 → j < 9 →
  isEmptyVal (cellAt b i j) = true ↔ cellAt b i j = JNull.
Proof.
  intros Hclean Hi Hj. destruct (Hclean i j Hi Hj) as [->|(n & Hn & ->)]; [done|].
  rewrite isEmptyVal_digit by done. done.
Qed.

Lemma clean_no_null_full b :
  clean b → (∀ i j, cellAt b i j ≠ JNull) → full b.
Proof.
  intros Hclean Hnonull i j Hi Hj.
  destruct (isEmptyVal (cellAt b i j)) eqn:He; [|done].
  apply clean_empty in He; [|done..]. by destruct (Hnonull i j).
Qed.

(** ** [fillBoard] *)

Lemma completion_digit s i j :
  solvedGrid s → i < 9 → j < 9 → ∃ n, isDigit n ∧ cellAt s i j = JNum n.
Proof. intros [_ Hfits] Hi Hj. destruct (Hfits i j Hi Hj) as (n & ? & ? & _). eauto. Qed.

Lemma completion_place b s row col n :
  is9x9 b → row < 9 → col < 9 →
  completion b s → cellAt s row col = JNum n →
  completion (setCell b row col (JNum n)) s.
Proof.
  intros Hb Hr Hc [Hs Hkeep] Hn. split; [done|]. intros i j Hi Hj He.
  destruct (decide ((i, j) = (row, col))) as [[= -> ->]|Hne].
  - by rewrite cellAt_setCell_eq.
  - rewrite cellAt_setCell_ne in He |- * by done. by apply Hkeep.
Qed.

Section FillLoop.

Variable rec : SudokuBoard → nat → outcome (bool * SudokuBoard * nat).
Variable m : nat.
Hypothesis rec_spec : ∀ b k, is9x9 b → clean b → countNull b < m →
  ∃ res b' k', rec b k = Ok (res, b', k') ∧ fillPost b res b' ∧
    ((∃ s, completion b s) → res = true).
Variables row col : nat.
Hypothesis Hrow : row < 9.
Hypothesis Hcol : col < 9.
Variable b : SudokuBoard.
Hypothesis Hb : is9x9 b.
Hypothesis Hclean : clean b.
Hypothesis Hnull : cellAt b row col = JNull.
Hypothesis Hm : countNull b ≤ m.

Lemma tryFill_spec nums :
  Forall isDigit nums →
  ∀ k, ∃ res b' k',
    tryFill rec row col nums b k = Ok (res, b', k') ∧ fillPost b res b' ∧
    ((∃ s n, completion b s ∧ n ∈ nums ∧ cellAt s row col = JNum n) → res = true).
Proof.
  assert (He : isEmptyVal (cellAt b row col) = true) by (by rewrite Hnull).
  induction 1 as [|n rest Hn _ IH]; intros k.
  - exists false, b, k. split; [done|]. split; [done|].
    intros (s & n & _ & Hin & _). by apply elem_of_nil in Hin.
  - cbn [tryFill]. rewrite isValid_ok, outcome_bind_Ok by done.
    destruct (validAt b row col n) eqn:Hval.
    + rewrite writeCell_ok, outcome_bind_Ok by done.
      destruct (rec_spec (setCell b row col (JNum n)) k)
        as (res & b2 & k2 & -> & (H9 & Hclean2 & Hpost) & Hcomp).
      { by apply setCell_9x9. }
      { by apply clean_setCell_digit. }
      { pose proof (countNull_place b row col n Hb Hrow Hcol Hnull). lia. }
      rewrite outcome_bind_Ok. destruct res.
      * exists true, b2, k2. split; [done|]. split; [|done].
        split; [done|]. split; [done|].
        by apply (placement_kept b row col n b2).
      * subst b2. rewrite writeCell_ok, outcome_bind_Ok by done.
        pose proof (setCell_restore b row col (JNum n) Hb Hrow Hcol) as Hback.
        rewrite Hnull in Hback. rewrite Hback.
        destruct (IH k2) as (res & b' & k' & -> & Hpost' & Hcomp').
        exists res, b', k'. split; [done|]. split; [done|].
        intros (s & n' & Hs & [->|Hin]%elem_of_cons & Hcell).
        -- discriminate Hcomp. exists s. by apply completion_place.
        -- apply Hcomp'. eauto.
    + destruct (IH k) as (res & b' & k' & -> & Hpost' & Hcomp').
      exists res, b', k'. split; [done|]. split; [done|].
      intros (s & n' & Hs & [->|Hin]%elem_of_cons & Hcell).
      * destruct (completion_valid b s row col n Hs Hrow Hcol He Hcell) as [_ Hv].
        congruence.
      * apply Hcomp'. eauto.
Qed.

End FillLoop.

Lemma fillFuel_S random fuel b k :
  fillFuel random (S fuel) b k =
  match firstNull b with
  | None => Ok (true, b, k)
  | Some (row, col) =>
      let '(numbers, k1) := shuffle random digits k in
      tryFill (fillFuel random fuel) row col numbers b k1
  end.
Proof. done. Qed.

Lemma fillFuel_spec random fuel :
  ∀ b k, is9x9 b → clean b → countNull b < fuel →
  ∃ res b' k', fillFuel random fuel b k = Ok (res, b', k') ∧ fillPost b res b' ∧
    ((∃ s, completion b s) → res = true).
Proof.
  induction fuel as [|fuel IH]; intros b k Hb Hclean Hfuel; [lia|].
  rewrite fillFuel_S. destruct (firstNull b) as [[row col]|] eqn:Hfirst.
  - apply firstNull_Some in Hfirst as (Hr & Hc & Hnull); [|done].
    pose proof (shuffle_Permutation random digits k) as Hperm.
    destruct (shuffle random digits k) as [numbers k1]. simpl in Hperm.
    destruct (tryFill_spec _ fuel IH row col Hr Hc b Hb Hclean Hnull ltac:(lia) numbers)
      with (k := k1) as (res & b' & k' & Hrun & Hpost & Hcomp).
    { rewrite Hperm. apply digits_are_digits. }
    exists res, b', k'. split; [done|]. split; [done|].
    intros [s Hs]. apply Hcomp.
    destruct (completion_digit s row col (proj1 Hs) Hr Hc) as (n & Hn & Hcell).
    exists s, n. split; [done|]. split; [|done].
    rewrite Hperm. by apply isDigit_elem.
  - pose proof (firstNull_None b Hfirst) as Hnonull.
    pose proof (clean_no_null_full b Hclean Hnonull) as Hfull.
    exists true, b, k. split; [done|]. split; [|done].
    split; [done|]. split; [done|]. split; [done|]. split; [by intros i j _ _ _|].
    intros i j Hi Hj He. by rewrite Hfull in He.
Qed.

(** ** [countSolutions] *)

Section CountLoop.

Variable rec : SudokuBoard → outcome (nat * SudokuBoard).
Variable m : nat.
Hypothesis rec_spec : ∀ b, is9x9 b → clean b → countNull b < m →
  ∃ found, rec b = Ok (found, b) ∧ countPost b found.
Variables row col : nat.
Hypothesis Hrow : row < 9.
Hypothesis Hcol : col < 9.
Variable b : SudokuBoard.
Hypothesis Hb : is9x9 b.
Hypothesis Hclean : clean b.
Hypothesis Hnull : cellAt b row col = JNull.
Hypothesis Hm : countNull b ≤ m.

Lemma countLoop_spec nums :
  Forall isDigit nums →
  ∀ count, ∃ total,
    countLoop rec 2 row col nums b count = Ok (total, b) ∧ count ≤ total ∧
    (total < 2 → total = count →
       ∀ s n, completion b s → n ∈ nums → cellAt s row col ≠ JNum n) ∧
    (total ≤ 1 →
       ∀ s s' n n', completion b s → completion b s' → n ∈ nums → n' ∈ nums →
         cellAt s row col = JNum n → cellAt s' row col = JNum n' → s = s').
Proof.
  assert (He : isEmptyVal (cellAt b row col) = true) by (by rewrite Hnull).
  induction 1 as [|n rest Hn _ IH]; intros count.
  - exists count. split; [done|]. split; [done|]. split.
    + intros _ _ s n _ Hin. by apply elem_of_nil in Hin.
    + intros _ s s' n n' _ _ Hin. by apply elem_of_nil in Hin.
  - cbn [countLoop]. rewrite isValid_ok, outcome_bind_Ok by done.
    destruct (validAt b row col n) eqn:Hval.
    + rewrite writeCell_ok, outcome_bind_Ok by done.
      destruct (rec_spec (setCell b row col (JNum n))) as (found & -> & Hsome & Hone).
      { by apply setCell_9x9. }
      { by apply clean_setCell_digit. }
      { pose proof (countNull_place b row col n Hb Hrow Hcol Hnull). lia. }
      rewrite outcome_bind_Ok. cbv zeta.
      rewrite writeCell_ok, outcome_bind_Ok by (done || by apply setCell_9x9).
      pose proof (setCell_restore b row col (JNum n) Hb Hrow Hcol) as Hback.
      rewrite Hnull in Hback. rewrite Hback.
      destruct (decide (2 ≤ count + found)) as [Hcap|Hcap].
      { exists (count + found). split; [done|]. split; [lia|]. split; intros; lia. }
      destruct (IH (count + found)) as (total & -> & Hle & Hnone & Hsame).
      exists total. split; [done|]. split; [lia|]. split.
      * intros Hlt Heq s n' Hs [->|Hin]%elem_of_cons Hcell.
        -- assert (1 ≤ found); [|lia]. apply Hsome. exists s.
           by apply completion_place.
        -- apply (Hnone Hlt ltac:(lia) s n' Hs Hin Hcell).
      * intros Hle1 s s' n1 n2 Hs Hs' [->|Hin1]%elem_of_cons [->|Hin2]%elem_of_cons
          Hcell Hcell'.
        -- apply Hone; [lia|by apply completion_place..].
        -- exfalso. assert (1 ≤ found) as Hfound.
           { apply Hsome. exists s. by apply completion_place. }
           apply (Hnone ltac:(lia) ltac:(lia) s' n2 Hs' Hin2 Hcell').
        -- exfalso. assert (1 ≤ found) as Hfound.
           { apply Hsome. exists s'. by apply completion_place. }
           apply (Hnone ltac:(lia) ltac:(lia) s n1 Hs Hin1 Hcell).
        -- by apply (Hsame Hle1 s s' n1 n2).
    + destruct (IH count) as (total & -> & Hle & Hnone & Hsame).
      assert (Hnot : ∀ s, completion b s → cellAt s row col ≠ JNum n).
      { intros s Hs Hcell.
        destruct (completion_valid b s row col n Hs Hrow Hcol He Hcell) as [_ Hv].
        congruence. }
      exists total. split; [done|]. split; [done|]. split.
      * intros Hlt Heq s n' Hs [->|Hin]%elem_of_cons; [by apply Hnot|].
        by apply Hnone.
      * intros Hle1 s s' n1 n2 Hs Hs' [->|Hin1]%elem_of_cons [->|Hin2]%elem_of_cons
          Hcell Hcell'; try (by destruct (Hnot s Hs)); try (by destruct (Hnot s' Hs')).
        by apply (Hsame Hle1 s s' n1 n2).
Qed.

End CountLoop.

Lemma countFuel_S fuel limit b :
  countFuel (S fuel) limit b =
  match firstNull b with
  | None => Ok (1, b)
  | Some (row, col) => countLoop (countFuel fuel limit) limit row col digits b 0
  end.
Proof. done. Qed.

Lemma full_completion_unique b s s' :
  is9x9 b → full b → completion b s → completion b s' → s = s'.
Proof.
  intros Hb Hfull [[Hs _] Hkeep] [[Hs' _] Hkeep'].
  apply board_ext; [done..|]. intros i j Hi Hj.
  by rewrite Hkeep, Hkeep' by (done || by apply Hfull).
Qed.

Lemma countFuel_spec fuel :
  ∀ b, is9x9 b → clean b → countNull b < fuel →
  ∃ found, countFuel fuel 2 b = Ok (found, b) ∧ countPost b found.
Proof.
  induction fuel as [|fuel IH]; intros b Hb Hclean Hfuel; [lia|].
  rewrite countFuel_S. destruct (firstNull b) as [[row col]|] eqn:Hfirst.
  - apply firstNull_Some in Hfirst as (Hr & Hc & Hnull); [|done].
    destruct (countLoop_spec _ fuel IH row col Hr Hc b Hb Hclean Hnull ltac:(lia)
      digits digits_are_digits 0) as (total & Hrun & _ & Hnone & Hsame).
    exists total. split; [done|]. split.
    + intros [s Hs]. destruct (decide (total = 0)) as [Hz|]; [|lia]. exfalso.
      destruct (completion_digit s row col (proj1 Hs) Hr Hc) as (n & Hn & Hcell).
      apply (Hnone ltac:(lia) Hz s n Hs); [by apply isDigit_elem|done].
    + intros Hle s s' Hs Hs'.
      destruct (completion_digit s row col (proj1 Hs) Hr Hc) as (n & Hn & Hcell).
      destruct (completion_digit s' row col (proj1 Hs') Hr Hc) as (n' & Hn' & Hcell').
      by apply (Hsame Hle s s' n n'); [..|apply isDigit_elem|apply isDigit_elem| |].
  - pose proof (firstNull_None b Hfirst) as Hnonull.
    pose proof (clean_no_null_full b Hclean Hnonull) as Hfull.
    exists 1. split; [done|]. split; [done|].
    intros _ s s'. by apply full_completion_unique.
Qed.

Lemma countSolutions_spec b :
  is9x9 b → clean b → ∃ found, countSolutions b = Ok (found, b) ∧ countPost b found.
Proof. intros Hb Hclean. apply countFuel_spec; [done..|lia]. Qed.

(** ** [removeNumbers] and [generateSudoku] *)

Lemma dugFrom_clean s b : solvedGrid s → dugFrom s b → clean b.
Proof.
  intros Hs Hdug i j Hi Hj. destruct (Hdug i j Hi Hj) as [-> | ->]; [by left|].
  right. by apply completion_digit.
Qed.

Lemma dugFrom_completion s b : solvedGrid s → dugFrom s b → completion b s.
Proof.
  intros Hs Hdug. split; [done|]. intros i j Hi Hj He.
  destruct (Hdug i j Hi Hj) as [Hnull|Heq]; [by rewrite Hnull in He|done].
Qed.

Lemma dugFrom_clear s b row col :
  is9x9 b → row < 9 → col < 9 → dugFrom s b → dugFrom s (setCell b row col JNull).
Proof.
  intros Hb Hr Hc Hdug i j Hi Hj.
  destruct (decide ((i, j) = (row, col))) as [[= -> ->]|Hne].
  - left. by apply cellAt_setCell_eq.
  - rewrite cellAt_setCell_ne by done. by apply Hdug.
Qed.

Lemma removeLoop_spec s cells target :
  solvedGrid s → Forall (λ p, p.1 < 9 ∧ p.2 < 9) cells →
  ∀ b removed,
    is9x9 b → dugFrom s b → countSolutions b = Ok (1, b) →
    countNull b ≤ removed → removed ≤ target →
    ∃ g, removeLoop cells target b removed = Ok g ∧
      is9x9 g ∧ dugFrom s g ∧ countSolutions g = Ok (1, g) ∧ countNull g ≤ target.
Proof.
  intros Hs. induction 1 as [|[row col] rest [Hr Hc] _ IH];
    intros b removed Hb Hdug Hone Hnull Hle.
  { exists b. split; [done|]. split; [done|]. split; [done|]. split; [done|lia]. }
  cbn [removeLoop]. cbn [fst snd] in Hr, Hc.
  destruct (decide (target ≤ removed)) as [Hdone|Hmore].
  { exists b. split; [done|]. split; [done|]. split; [done|]. split; [done|lia]. }
  rewrite readCell_ok, outcome_bind_Ok by (destruct Hb; lia).
  rewrite writeCell_ok, outcome_bind_Ok by done. cbv zeta.
  pose proof (setCell_9x9 b row col JNull Hb) as Hb1.
  pose proof (dugFrom_clear s b row col Hb Hr Hc Hdug) as Hdug1.
  destruct (countSolutions_spec _ Hb1 (dugFrom_clean _ _ Hs Hdug1)) as (found & Hrun & _).
  rewrite Hrun, outcome_bind_Ok.
  destruct (decide (found ≠ 1)) as [Hmany|Hsingle].
  - rewrite writeCell_ok, outcome_bind_Ok by done.
    rewrite setCell_restore by done. by apply IH.
  - assert (found = 1) as -> by lia. apply IH; [done..| |lia].
    pose proof (countNull_clear b row col Hb Hr Hc). lia.
Qed.

Lemma cells81_in_range : Forall (λ p : nat * nat, p.1 < 9 ∧ p.2 < 9) cells81.
Proof. apply (bool_decide_unpack _). vm_compute. exact I. Qed.

Lemma length_concat_rows (b : SudokuBoard) n :
  Forall (λ r, length r = n) b → length (concat b) = length b * n.
Proof.
  induction 1 as [|r b Hr _ IH]; [done|].
  rewrite concat_cons, length_app, IH, Hr. simpl. lia.
Qed.

Lemma filter_complement_length {A : Type} (P : A → Prop) `{∀ x, Decision (P x)}
    (l : list A) :
  length (filter P l) + length (filter (λ x, ¬ P x) l) = length l.
Proof.
  induction l as [|x l IH]; [done|].
  rewrite !filter_cons. destruct (decide (P x)) as [HP|HP].
  - rewrite decide_False by tauto. simpl. lia.
  - rewrite decide_True by done. simpl. lia.
Qed.

Lemma clueCount_countNull b : is9x9 b → clueCount b + countNull b = 81.
Proof.
  intros [Hlen Hrows]. rewrite countNull_countIf. unfold clueCount, countIf.
  pose proof (filter_complement_length (λ v, v = JNull) (concat b)) as H.
  rewrite (length_concat_rows b 9 Hrows), Hlen in H. simpl in H.
  unfold not in H |- *. lia.
Qed.

Lemma full_countNull b : is9x9 b → full b → countNull b = 0.
Proof.
  intros Hb Hfull. unfold countNull.
  destruct (nullPositions b) as [|[i j] rest] eqn:Hps; [done|].
  assert ((i, j) ∈ nullPositions b) as Hnull%elem_of_nullPositions
    by (rewrite Hps; left).
  destruct (cellAt_defined b i j Hb) as [Hi Hj]; [by rewrite Hnull|].
  specialize (Hfull i j Hi Hj). by rewrite Hnull in Hfull.
Qed.

Lemma countSolutions_full b : is9x9 b → full b → countSolutions b = Ok (1, b).
Proof.
  intros Hb Hfull. unfold countSolutions. rewrite countFuel_S.
  destruct (firstNull b) as [[row col]|] eqn:Hfirst; [|done].
  apply firstNull_Some in Hfirst as (Hr & Hc & Hnull); [|done].
  specialize (Hfull row col Hr Hc). by rewrite Hnull in Hfull.
Qed.

Lemma completion_createEmptyBoard : completion createEmptyBoard exampleSolved.
Proof.
  split; [apply solvedGrid_exampleSolved|]. intros i j Hi Hj He.
  by rewrite cellAt_createEmptyBoard in He.
Qed.

(** ** A failed search means there was nothing to find *)

Lemma completion_zeroToNull b b' s :
  zeroToNull b b' → completion b s → completion b' s.
Proof.
  intros Hz [Hs Hkeep]. split; [done|]. intros i j Hi Hj He.
  rewrite (zeroToNull_empty b b') in He by done.
  rewrite (zeroToNull_filled b b') by done. by apply Hkeep.
Qed.

Section SolverComplete.

Variable rec : SudokuBoard → outcome (bool * SudokuBoard).
Variable m : nat.
Hypothesis rec_spec : ∀ b, is9x9 b → countEmpty b < m →
  ∃ res b', rec b = Ok (res, b') ∧ searchPost b res b'.
Hypothesis rec_complete : ∀ b b', is9x9 b → countEmpty b < m →
  rec b = Ok (false, b') → ¬ ∃ s, completion b s.
Variables row col : nat.
Hypothesis Hrow : row < 9.
Hypothesis Hcol : col < 9.

Lemma tryDigits_complete nums :
  Forall isDigit nums →
  ∀ b b', is9x9 b → isEmptyVal (cellAt b row col) = true → countEmpty b ≤ m →
    tryDigits rec row col nums b = Ok (false, b') →
    ∀ s n, completion b s → n ∈ nums → cellAt s row col ≠ JNum n.
Proof.
  induction 1 as [|n rest Hn _ IH]; intros b b' Hb He Hm Hrun s n' Hs Hin Hcell.
  { by apply elem_of_nil in Hin. }
  cbn [tryDigits] in Hrun. rewrite isValid_ok, outcome_bind_Ok in Hrun by done.
  destruct (validAt b row col n) eqn:Hval.
  - rewrite writeCell_ok, outcome_bind_Ok in Hrun by done.
    destruct (rec_spec (setCell b row col (JNum n))) as (res & b2 & Hrec & Hpost).
    { by apply setCell_9x9. }
    { pose proof (countEmpty_place b row col n Hb Hrow Hcol He Hn). lia. }
    rewrite Hrec, outcome_bind_Ok in Hrun. destruct res; [done|].
    destruct (placement_undone b row col n b2 Hb Hrow Hcol He Hn Hpost)
      as (H9 & He3 & Hz & Hcnt).
    rewrite writeCell_ok, outcome_bind_Ok in Hrun by (done || apply Hpost).
    apply elem_of_cons in Hin as [->|Hin].
    + apply (rec_complete _ _ (setCell_9x9 b row col _ Hb)) in Hrec.
      * apply Hrec. exists s. by apply completion_place.
      * pose proof (countEmpty_place b row col n Hb Hrow Hcol He Hn). lia.
    + apply (IH _ _ H9 He3 ltac:(lia) Hrun s n'); [|done..].
      by apply (completion_zeroToNull b).
  - apply elem_of_cons in Hin as [->|Hin].
    + destruct (completion_valid b s row col n Hs Hrow Hcol He Hcell) as [_ Hv].
      congruence.
    + by apply (IH _ _ Hb He Hm Hrun s n').
Qed.

End SolverComplete.

Lemma solveFuel_complete fuel :
  ∀ b b', is9x9 b → countEmpty b < fuel →
  solveFuel fuel b = Ok (false, b') → ¬ ∃ s, completion b s.
Proof.
  induction fuel as [|fuel IH]; intros b b' Hb Hfuel; [lia|].
  rewrite solveFuel_S, findEmpty_ok, outcome_bind_Ok by done.
  destruct (List.find (isEmptyAt b) allCells) as [[row col]|] eqn:Hfind; [|done].
  apply find_allCells_Some in Hfind as (Hr & Hc & He).
  intros Hrun [s Hs].
  destruct (completion_digit s row col (proj1 Hs) Hr Hc) as (n & Hn & Hcell).
  apply (tryDigits_complete _ fuel (solveFuel_spec fuel) IH row col Hr Hc
    digits digits_are_digits b b' Hb He ltac:(lia) Hrun s n Hs); [|done].
  by apply isDigit_elem.
Qed.

(** When [solveSudokuInstant] returns false the board has no completion. *)
Lemma solveSudokuInstant_complete b b' :
  is9x9 b → solveSudokuInstant b = Ok (false, b') → ¬ ∃ s, completion b s.
Proof. intros Hb. apply solveFuel_complete; [done|lia]. Qed.

(** * The claims *)

(** ** C6: the contract of [isValid] *)

(** C6. On a 9×9 board, for a cell [(row, col)] of the board and any number
    [num] (so for every digit 1–9), [isValid] returns, and it returns false
    exactly when [num] sits in one of the 9 cells of row [row], in one of the
    9 cells of column [col], or in one of the 9 cells of the box whose origin
    is [(row - row mod 3, col - col mod 3)]. The function only reads: its
    result is a boolean and the caller's board is the one it passed in. *)
Theorem isValid_contract (b : SudokuBoard) (row col : nat) (num : Z) :
  is9x9 b → row < 9 → col < 9 →
  ∃ ok, isValid b row col num = Ok ok ∧
    (ok = false ↔
      (∃ x, x < 9 ∧ cellAt b row x = JNum num) ∨
      (∃ x, x < 9 ∧ cellAt b x col = JNum num) ∨
      (∃ di dj, di < 3 ∧ dj < 3 ∧
         cellAt b (di + (row - row mod 3)) (dj + (col - col mod 3)) = JNum num)).
Proof.
  intros Hb Hr Hc. exists (validAt b row col num).
  split; [by apply isValid_ok|].
  unfold validAt. rewrite noneHolds_false. unfold scanCells. split.
  - intros (i & j & Hin & Hval).
    apply elem_of_app in Hin as [Hin|Hin]; [|apply elem_of_app in Hin as [Hin|Hin]].
    + apply elem_of_rowCells in Hin as [-> Hj]. left. eauto.
    + apply elem_of_colCells in Hin as [Hi ->]. right. left. eauto.
    + apply elem_of_boxCells in Hin as (di & dj & Hdi & Hdj & -> & ->).
      right. right. exists di, dj. eauto.
  - intros [(x & Hx & Hval)|[(x & Hx & Hval)|(di & dj & Hdi & Hdj & Hval)]].
    + exists row, x. split; [|done]. apply elem_of_app. left. by apply elem_of_rowCells.
    + exists x, col. split; [|done]. apply elem_of_app. right.
      apply elem_of_app. left. by apply elem_of_colCells.
    + eexists _, _. split; [|exact Hval]. apply elem_of_app. right.
      apply elem_of_app. right. apply elem_of_boxCells. by exists di, dj.
Qed.

Lemma isValid_contract_witness :
  ∃ ok, isValid examplePuzzle 0 2 5 = Ok ok ∧
    (ok = false ↔
      (∃ x, x < 9 ∧ cellAt examplePuzzle 0 x = JNum 5) ∨
      (∃ x, x < 9 ∧ cellAt examplePuzzle x 2 = JNum 5) ∨
      (∃ di dj, di < 3 ∧ dj < 3 ∧
         cellAt examplePuzzle (di + (0 - 0 mod 3)) (dj + (2 - 2 mod 3)) = JNum 5)).
Proof.
  apply (isValid_contract examplePuzzle 0 2 5).
  - split; [reflexivity|]. repeat constructor.
  - lia.
  - lia.
Defined.

(** ** C10: a board without empty cells is accepted as it is *)

(** C10. On a 9×9 board, if no cell is [null] or [0] then [solveSudokuInstant]
    returns true at once and leaves the board as it is, whatever the cells
    hold: nothing checks the values already present. A result of false
    therefore needs an empty cell: it is the result of the digit loop, run to
    its end, at the first empty cell. *)
Theorem full_board_accepted_unchecked (b : SudokuBoard) :
  is9x9 b →
  (full b → solveSudokuInstant b = Ok (true, b)) ∧
  (∀ b', solveSudokuInstant b = Ok (false, b') →
     ∃ row col, row < 9 ∧ col < 9 ∧ isEmptyVal (cellAt b row col) = true ∧
       findEmpty b = Ok (Some (row, col)) ∧
       tryDigits (solveFuel (countEmpty b)) row col digits b = Ok (false, b')).
Proof.
  intros Hb. unfold solveSudokuInstant.
  rewrite solveFuel_S, findEmpty_ok, outcome_bind_Ok by done. split.
  - intros Hfull. by rewrite (proj2 (find_allCells_None b) Hfull).
  - intros b'. destruct (List.find (isEmptyAt b) allCells) as [[row col]|] eqn:Hfind; [|done].
    intros Hloop. exists row, col.
    apply find_allCells_Some in Hfind as (Hr & Hc & He). done.
Qed.

Lemma full_board_accepted_unchecked_witness :
  is9x9 allOnes ∧ full allOnes ∧ solveSudokuInstant allOnes = Ok (true, allOnes).
Proof.
  assert (H9 : is9x9 allOnes) by (split; [reflexivity|repeat constructor]).
  assert (Hfull : full allOnes) by (apply full_decide; reflexivity).
  split; [exact H9|]. split; [exact Hfull|].
  exact (proj1 (full_board_accepted_unchecked allOnes H9) Hfull).
Defined.

(** ** C3: what a failed search leaves *)

(** C3, the claim as stated fails. [zeroMarked] has its first empty cell
    written as [0]. The search places 9 there, fails below, and clears the
    cell with [null]: the call returns false on a board that differs from
    its input at [(0, 0)]. *)
Lemma failed_search_rewrites_zero :
  ∃ b', solveSudokuInstant zeroMarked = Ok (false, b') ∧
    is9x9 zeroMarked ∧ cellAt zeroMarked 0 0 = JNum 0 ∧ cellAt b' 0 0 = JNull ∧
    b' ≠ zeroMarked.
Proof.
  eexists. split; [vm_compute; reflexivity|].
  split; [apply is9x9_zeroMarked|]. split; [reflexivity|]. split; [reflexivity|].
  discriminate.
Qed.

(** C3, amended. On a 9×9 board, when [solveSudokuInstant] returns false
    every cell of the board holds what it held on entry, except that an
    empty cell that was written as [0] may now hold [null]; on a board whose
    empty cells are all [null] the board after the call is the board passed
    in. *)
Theorem failed_search_restores (b b' : SudokuBoard) :
  is9x9 b → solveSudokuInstant b = Ok (false, b') →
  zeroToNull b b' ∧
  ((∀ i j, i < 9 → j < 9 → cellAt b i j ≠ JNum 0) → b' = b).
Proof.
  intros Hb Hrun.
  destruct (solveSudokuInstant_spec b Hb) as (res & b2 & Hrun' & H9 & Hpost).
  rewrite Hrun in Hrun'. injection Hrun' as <- <-.
  destruct Hpost as [Hz _]. split; [done|].
  intros Hnozero. apply board_ext; [done..|]. intros i j Hi Hj.
  destruct (Hz i j Hi Hj) as [E|[E _]]; [done|]. by destruct (Hnozero i j Hi Hj).
Qed.

Lemma failed_search_restores_witness :
  zeroToNull nullMarked nullMarked ∧
  ((∀ i j, i < 9 → j < 9 → cellAt nullMarked i j ≠ JNum 0) → nullMarked = nullMarked).
Proof.
  apply (failed_search_restores nullMarked nullMarked).
  - apply setCell_9x9. split; [reflexivity|]. repeat constructor.
  - vm_compute. reflexivity.
Defined.

(** ** C2: re-checking the cells of a solved board *)

(** C2. The solver breaks the claim, and its own documentation
    ([@returns true if solved, false if no solution exists]): it never looks
    at the cells that are filled on entry. [allOnes] is full, so the solver
    returns true on it and leaves it as it is; its cell [(0, 0)] holds a 1
    that the rest of its row repeats, and re-checking that cell yields
    false. *)
Lemma solved_board_keeps_clue_conflicts :
  ∃ b', solveSudokuInstant allOnes = Ok (true, b') ∧ is9x9 allOnes ∧
    full b' ∧ ¬ rechecks b' 0 0.
Proof.
  exists allOnes. split; [reflexivity|]. split; [apply is9x9_allOnes|].
  split; [apply full_decide; reflexivity|].
  rewrite rechecks_spec by (apply is9x9_allOnes || lia).
  intros (n & Hn & Halone). injection Hn as <-.
  apply (Halone 0 1); [lia|lia|reflexivity|discriminate|reflexivity].
Qed.

(** X27. What a result of true does establish. On a 9×9 board on which
    [solveSudokuInstant] returns true, the board after the call has no empty
    cell; every cell that was empty on entry passes the re-check (clear it,
    ask [isValid] for its value); and a cell that was already filled on entry
    passes the re-check on the final board exactly when it passed it on the
    input board. *)
Theorem solved_board_rechecks (b b' : SudokuBoard) :
  is9x9 b → solveSudokuInstant b = Ok (true, b') →
  full b' ∧
  (∀ i j, i < 9 → j < 9 → isEmptyVal (cellAt b i j) = true → rechecks b' i j) ∧
  (∀ i j, i < 9 → j < 9 → isEmptyVal (cellAt b i j) = false →
     (rechecks b' i j ↔ rechecks b i j)).
Proof.
  intros Hb Hrun.
  destruct (solveSudokuInstant_spec b Hb) as (res & b2 & Hrun' & H9 & Hpost).
  rewrite Hrun in Hrun'. injection Hrun' as <- <-.
  destruct Hpost as (Hfull & Hkeep & Hfit).
  split; [done|]. split.
  - intros i j Hi Hj He. apply fitsAt_rechecks; [done..|]. by apply Hfit.
  - intros i j Hi Hj He. rewrite !rechecks_spec by done.
    rewrite (Hkeep i j Hi Hj He).
    split; intros (n & Hn & Halone); exists n; (split; [done|]);
      intros i' j' Hi' Hj' Hs Hne.
    + destruct (isEmptyVal (cellAt b i' j')) eqn:He'.
      * apply isEmptyVal_true in He' as [-> | ->]; [done|].
        intros [= <-]. by rewrite Hn in He.
      * rewrite <- (Hkeep i' j') by done. by apply Halone.
    + destruct (isEmptyVal (cellAt b i' j')) eqn:He'.
      * destruct (Hfit i' j' Hi' Hj' He') as (n' & _ & Hn' & Halone').
        rewrite Hn'. intros [= ->].
        apply (Halone' i j Hi Hj); [by rewrite inScope_sym|congruence|].
        by rewrite (Hkeep i j Hi Hj He).
      * rewrite (Hkeep i' j') by done. by apply Halone.
Qed.

Lemma solved_board_rechecks_witness :
  full exampleSolved ∧
  (∀ i j, i < 9 → j < 9 → isEmptyVal (cellAt examplePuzzle i j) = true →
     rechecks exampleSolved i j) ∧
  (∀ i j, i < 9 → j < 9 → isEmptyVal (cellAt examplePuzzle i j) = false →
     (rechecks exampleSolved i j ↔ rechecks examplePuzzle i j)).
Proof.
  apply (solved_board_rechecks examplePuzzle exampleSolved).
  - split; [reflexivity|]. repeat constructor.
  - vm_compute. reflexivity.
Defined.

(** ** C4: the trace and the instant solver agree *)

(** C4. On a 9×9 board the traced solver and [solveSudokuInstant] both
    return, with the same result; playing the trace back from the original
    board, either by showing each snapshot in turn as the page does or by
    applying each recorded write, ends on the board [solveSudokuInstant]
    leaves. *)
Theorem trace_replay_matches_instant (b : SudokuBoard) :
  is9x9 b →
  ∃ res b' tr,
    solveSudoku b = Ok (res, b', tr) ∧
    solveSudokuInstant b = Ok (res, b') ∧
    replay b tr = b' ∧ replayWrites b tr = b'.
Proof.
  intros Hb.
  destruct (solveSudoku_runs b Hb) as (res & b' & tr & Ht & Hi & _ & Hr & Hw).
  by exists res, b', tr.
Qed.

Lemma trace_replay_matches_instant_witness :
  ∃ res b' tr,
    solveSudoku examplePuzzle = Ok (res, b', tr) ∧
    solveSudokuInstant examplePuzzle = Ok (res, b') ∧
    replay examplePuzzle tr = b' ∧ replayWrites examplePuzzle tr = b'.
Proof.
  apply (trace_replay_matches_instant examplePuzzle).
  split; [reflexivity|]. repeat constructor.
Defined.

(** ** C9: malformed input *)

(** C9, the claim as stated fails. A board holding 10 in a cell is searched
    like any other and solved around the 10; a 10×10 board is searched too,
    its tenth row and column never looked at; and a board of eight rows makes
    the search itself raise a TypeError, at the first read of the missing
    row. Nothing inspects the input before searching. *)
Lemma malformed_input_is_searched :
  (∃ b', solveSudokuInstant tenInCorner = Ok (true, b') ∧ cellAt b' 0 0 = JNum 10) ∧
  (∃ b', solveSudokuInstant tenByTen = Ok (true, b') ∧ length b' = 10) ∧
  findEmpty eightRows = Ok (Some (0, 2)) ∧
  isValid eightRows 0 2 1 = TypeError.
Proof.
  split; [|split; [|split]].
  - eexists. split; [vm_compute; reflexivity|reflexivity].
  - eexists. split; [vm_compute; reflexivity|reflexivity].
  - reflexivity.
  - reflexivity.
Qed.

(** C9, amended. The solver entry points do not validate their input. On a
    board of 9 rows of 9 cells, whatever the cells hold (numbers outside
    1..9 included), [solveSudokuInstant] and the traced solver run the search
    and return true or false, never an error; they agree on the result; and
    every cell that was not empty on entry, in range or not, holds the same
    value afterwards. *)
Theorem unvalidated_input_is_searched (b : SudokuBoard) :
  is9x9 b →
  ∃ res b' tr,
    solveSudokuInstant b = Ok (res, b') ∧
    solveSudoku b = Ok (res, b', tr) ∧
    ∀ i j, i < 9 → j < 9 → isEmptyVal (cellAt b i j) = false →
      cellAt b' i j = cellAt b i j.
Proof.
  intros Hb.
  destruct (solveSudoku_runs b Hb) as (res & b' & tr & Ht & Hi & Hpost & _).
  exists res, b', tr. split; [done|]. split; [done|].
  intros i j. by apply (searchPost_filled b res b').
Qed.

Lemma unvalidated_input_is_searched_witness :
  ∃ res b' tr,
    solveSudokuInstant tenInCorner = Ok (res, b') ∧
    solveSudoku tenInCorner = Ok (res, b', tr) ∧
    ∀ i j, i < 9 → j < 9 → isEmptyVal (cellAt tenInCorner i j) = false →
      cellAt b' i j = cellAt tenInCorner i j.
Proof.
  apply (unvalidated_input_is_searched tenInCorner).
  apply setCell_9x9. split; [reflexivity|]. repeat constructor.
Defined.

(** ** C8: two 5's in one row *)

(** C8. On a 9×9 board that is empty except for two cells of one row that
    both hold 5, [solveSudokuInstant] returns, without raising, and its
    result is false; the board it leaves is the board it was given (an empty
    cell written as [0] may come back as [null]). *)
Theorem two_fives_in_a_row_unsolved (b : SudokuBoard) (r c1 c2 : nat) :
  is9x9 b → r < 9 → c1 < 9 → c2 < 9 → c1 ≠ c2 →
  cellAt b r c1 = JNum 5 → cellAt b r c2 = JNum 5 →
  (∀ i j, i < 9 → j < 9 → (i, j) ≠ (r, c1) → (i, j) ≠ (r, c2) →
     isEmptyVal (cellAt b i j) = true) →
  ∃ b', solveSudokuInstant b = Ok (false, b') ∧ zeroToNull b b'.
Proof.
  intros Hb Hr Hc1 Hc2 Hne H1 H2 Hrest.
  destruct (solveSudokuInstant_spec b Hb) as (res & b' & Hrun & H9 & Hpost).
  destruct res.
  - exfalso. destruct Hpost as (Hfull & Hkeep & Hfit).
    apply (two_in_row_unsolvable b' r c1 c2 5); try done.
    + by rewrite Hkeep; [|done..|rewrite H1].
    + by rewrite Hkeep; [|done..|rewrite H2].
    + intros i j Hi Hj Hir. apply Hfit; [done..|].
      apply Hrest; [done..| |]; intros [= -> _]; done.
  - exists b'. split; [done|]. by destruct Hpost.
Qed.

Lemma two_fives_in_a_row_unsolved_witness :
  ∃ b', solveSudokuInstant twoFives = Ok (false, b') ∧ zeroToNull twoFives b'.
Proof.
  apply (two_fives_in_a_row_unsolved twoFives 0 0 1).
  - do 2 apply setCell_9x9. split; [reflexivity|]. repeat constructor.
  - lia.
  - lia.
  - lia.
  - lia.
  - reflexivity.
  - reflexivity.
  - intros i j Hi Hj H00 H01.
    assert (forallb (λ p, bool_decide (p = (0, 0)) || bool_decide (p = (0, 1))
                          || isEmptyAt twoFives p) allCells = true) as Hall
      by reflexivity.
    rewrite forallb_forall in Hall.
    specialize (Hall (i, j)
      (proj1 (list_elem_of_In _ _) (proj2 (elem_of_allCells i j) (conj Hi Hj)))).
    rewrite !orb_true_iff, !bool_decide_eq_true in Hall.
    destruct Hall as [[Hall|Hall]|Hall]; [by destruct H00|by destruct H01|exact Hall].
Defined.

(** ** C5: the empty trace *)




(** ** C7: the validator *)

(** C7, the claim as stated fails. On the board that is empty but for two
    5's at [(0, 0)] and [(0, 1)] (two 5's in one row, nothing else on the
    board) the validator returns four entries, not two: each of the two cells
    is reported for its row and again for its box, which the two cells
    share. *)
Lemma adjacent_fives_report_four_errors :
  is9x9 (pairBoard 0 0 1) ∧
  (∀ i j, i < 9 → j < 9 →
     cellAt (pairBoard 0 0 1) i j =
     if decide ((i, j) = (0, 0) ∨ (i, j) = (0, 1)) then JNum 5 else JNull) ∧
  ∃ errs, validateBoard (pairBoard 0 0 1) = Ok errs ∧ length errs = 4 ∧
    map (λ e, (errRow e, errCol e, errType e)) errs =
    [(0, 0, ErrRow); (0, 0, ErrBox); (0, 1, ErrRow); (0, 1, ErrBox)].
Proof.
  split; [do 2 apply setCell_9x9; apply is9x9_createEmptyBoard|].
  split; [intros i j Hi Hj; apply cellAt_pairBoard; (done || lia)|].
  eexists. split; [vm_compute; reflexivity|]. split; reflexivity.
Qed.

(** C7, amended. (a) On a full valid grid [validateBoard] returns the empty
    sequence. (b) On a 9×9 board with two 5's in one row, at columns
    [c1 < c2], where every other cell is empty or holds a value that no cell
    of its row, column or box repeats: if the two columns lie in different
    boxes the validator returns exactly two entries, one per cell, both
    tagged row; if they lie in the same box it returns four, each cell being
    reported for its row and for its box. (c) On every board on which the
    validator returns, each entry names a cell that is not empty. *)
Theorem validateBoard_reports :
  (∀ s, solvedGrid s → validateBoard s = Ok []) ∧
  (∀ b r c1 c2,
     is9x9 b → r < 9 → c1 < c2 → c2 < 9 →
     cellAt b r c1 = JNum 5 → cellAt b r c2 = JNum 5 →
     (∀ i j, i < 9 → j < 9 → (i, j) ≠ (r, c1) → (i, j) ≠ (r, c2) →
        isEmptyVal (cellAt b i j) = true ∨ aloneAt b i j (cellAt b i j)) →
     validateBoard b = Ok (pairErrors r c1 c2)) ∧
  (∀ b errs, validateBoard b = Ok errs →
     ∀ e, e ∈ errs → isEmptyVal (cellAt b (errRow e) (errCol e)) = false).
Proof.
  split; [|split].
  - intros s [Hs Hfits]. rewrite validateBoard_ok by done. f_equal.
    apply flat_map_nil. intros [i j] [Hi Hj]%elem_of_allCells.
    destruct (Hfits i j Hi Hj) as (n & _ & Hn & Halone).
    apply cellErrors_alone; [done..|]. by rewrite Hn.
  - intros b r c1 c2 Hb Hr H12 Hc2 H1 H2 Hrest.
    assert (c1 < 9) as Hc1 by lia.
    rewrite validateBoard_ok by done. f_equal.
    rewrite <- (pairBoard_errors r c1 c2) by done.
    assert (Hfive : ∀ i j, i < 9 → j < 9 → cellAt b i j = JNum 5 →
      ∀ i' j', i' < 9 → j' < 9 → inScope i j i' j' = true →
      cellAt b i' j' = JNum 5 → (i', j') ≠ (i, j) →
      (i, j) = (r, c1) ∨ (i, j) = (r, c2)).
    { intros i j Hi Hj Hcell i' j' Hi' Hj' Hs Hcell' Hne.
      destruct (decide ((i, j) = (r, c1))) as [|Hn1]; [by left|].
      destruct (decide ((i, j) = (r, c2))) as [|Hn2]; [by right|].
      exfalso. destruct (Hrest i j Hi Hj Hn1 Hn2) as [He|Halone].
      - by rewrite Hcell in He.
      - rewrite Hcell in Halone. by apply (Halone i' j'). }
    assert (Hpair : ∀ c c', (c = c1 ∧ c' = c2) ∨ (c = c2 ∧ c' = c1) →
      cellErrors b (r, c) = cellErrors (pairBoard r c1 c2) (r, c)).
    { intros c c' Hcc.
      assert (c < 9 ∧ cellAt b r c = JNum 5 ∧ c ≠ c') as (Hc & Hcell & Hcc')
        by (destruct Hcc as [[-> ->]|[-> ->]]; repeat split; (done || lia)).
      apply cellErrors_ext; [done..| |].
      - rewrite cellAt_pairBoard by done.
        rewrite decide_True; [done|]. destruct Hcc as [[-> _]|[-> _]]; auto.
      - intros i j Hi Hj Hs Hne. rewrite Hcell, cellAt_pairBoard by done.
        split.
        + intros Hij. rewrite decide_True; [done|].
          apply (Hfive i j Hi Hj Hij r c); [done|done| |done|congruence].
          by rewrite inScope_sym.
        + destruct (decide _) as [[[= -> ->]|[= -> ->]]|]; done. }
    apply flat_map_ext_elem. intros [i j] [Hi Hj]%elem_of_allCells.
    destruct (decide ((i, j) = (r, c1))) as [[= -> ->]|Hn1];
      [apply (Hpair c1 c2); by left|].
    destruct (decide ((i, j) = (r, c2))) as [[= -> ->]|Hn2];
      [apply (Hpair c2 c1); by right|].
    rewrite (cellErrors_empty (pairBoard r c1 c2)).
    + destruct (Hrest i j Hi Hj Hn1 Hn2) as [He|Halone].
      * by apply cellErrors_empty.
      * by apply cellErrors_alone.
    + rewrite cellAt_pairBoard by done. rewrite decide_False; [done|]. by intros [|].
  - intros b errs. apply validateCells_cells.
Qed.

Lemma validateBoard_reports_witness :
  validateBoard exampleSolved = Ok [] ∧
  validateBoard (pairBoard 0 0 8) = Ok (pairErrors 0 0 8) ∧
  pairErrors 0 0 8 =
    [mkError 0 0 ErrRow "Duplicate 5 in row"; mkError 0 8 ErrRow "Duplicate 5 in row"].
Proof.
  destruct validateBoard_reports as (Hsolved & Hpair & _).
  split; [|split].
  - apply Hsolved, solvedGrid_decide; [|reflexivity].
    split; [reflexivity|]. repeat constructor.
  - apply Hpair.
    + do 2 apply setCell_9x9. split; [reflexivity|]. repeat constructor.
    + lia.
    + lia.
    + lia.
    + reflexivity.
    + reflexivity.
    + intros i j Hi Hj H1 H2. left.
      rewrite cellAt_pairBoard by lia. rewrite decide_False; [reflexivity|].
      intros [H|H]; [by destruct H1|by destruct H2].
  - reflexivity.
Defined.

(** ** C1: the generated puzzle *)

(** C1. For each difficulty and whatever the random choices are,
    [generateSudoku] returns a 9×9 board of clues 1..9 and [null]s on which
    [countSolutions] (capped at 2) returns exactly 1, which has exactly one
    completion to a full valid grid, and which keeps at least
    [81 - cellsToRemove] clues: 41 for easy, 31 for medium, 24 for hard. *)
Theorem generateSudoku_unique_puzzle (random : nat → nat) (difficulty : Difficulty) :
  ∃ g, generateSudoku random difficulty = Ok g ∧
    is9x9 g ∧ clean g ∧
    countSolutions g = Ok (1, g) ∧
    (∃ s, completion g s ∧ ∀ s', completion g s' → s' = s) ∧
    81 - cellsToRemove difficulty ≤ clueCount g ∧
    match difficulty with easy => 41 | medium => 31 | hard => 24 end ≤ clueCount g.
Proof.
  unfold generateSudoku. cbv zeta.
  destruct (fillFuel_spec random (S (countNull createEmptyBoard)) createEmptyBoard 0)
    as (res & s & k & Hfill & (Hs9 & Hsclean & Hpost) & Hcomp).
  { apply is9x9_createEmptyBoard. }
  { intros i j Hi Hj. left. by apply cellAt_createEmptyBoard. }
  { lia. }
  rewrite (Hcomp (ex_intro _ _ completion_createEmptyBoard)) in Hfill, Hpost.
  destruct Hpost as (Hfull & _ & Hfit).
  assert (solvedGrid s) as Hs.
  { split; [done|]. intros i j Hi Hj. apply Hfit; [done..|].
    by rewrite cellAt_createEmptyBoard. }
  unfold fillBoard. rewrite Hfill, outcome_bind_Ok. unfold removeNumbers.
  pose proof (shuffle_Permutation random cells81 k) as Hperm.
  destruct (shuffle random cells81 k) as [shuffledCells k']. simpl in Hperm.
  destruct (removeLoop_spec s shuffledCells (cellsToRemove difficulty) Hs)
    with (b := s) (removed := 0) as (g & Hrun & Hg9 & Hdug & Hone & Hnulls).
  { rewrite Hperm. apply cells81_in_range. }
  { done. }
  { intros i j _ _. by right. }
  { by apply countSolutions_full. }
  { by rewrite full_countNull. }
  { lia. }
  exists g. split; [done|]. split; [done|].
  split; [by apply (dugFrom_clean s)|]. split; [done|]. split.
  - exists s. split; [by apply dugFrom_completion|].
    intros s' Hs'.
    destruct (countSolutions_spec g Hg9 (dugFrom_clean s g Hs Hdug))
      as (found & Hrun' & _ & Hunique).
    rewrite Hone in Hrun'. injection Hrun' as <-.
    apply Hunique; [lia|done|]. by apply dugFrom_completion.
  - pose proof (clueCount_countNull g Hg9) as Hsum.
    assert (81 - cellsToRemove difficulty ≤ clueCount g) as Hclues by lia.
    split; [done|]. by destruct difficulty.
Qed.

(** * Further properties of the engine *)

Lemma Ok_inj {A : Type} (x y : A) : Ok x = Ok y → x = y.
Proof. by intros [= ->]. Qed.

(** ** [findEmpty] scans in row-major order *)

Lemma find_first {A : Type} (f : A → bool) (l : list A) (x : A) :
  List.find f l = Some x →
  ∃ l1 l2, l = l1 ++ x :: l2 ∧ f x = true ∧ ∀ y, y ∈ l1 → f y = false.
Proof.
  induction l as [|a l IH]; [done|]. simpl. destruct (f a) eqn:Hfa.
  - intros [= ->]. exists [], l. split; [done|]. split; [done|].
    intros y Hy. by apply elem_of_nil in Hy.
  - intros Hfind. destruct (IH Hfind) as (l1 & l2 & -> & Hx & Hl1).
    exists (a :: l1), l2. split; [done|]. split; [done|].
    intros y [->|Hy]%elem_of_cons; [done|by apply Hl1].
Qed.

Lemma allCells_index_table :
  Forall (λ i, Forall (λ j, allCells !! (9 * i + j) = Some (i, j)) (seq 0 9)) (seq 0 9).
Proof. apply (bool_decide_unpack _). vm_compute. exact I. Qed.

Lemma allCells_index i j : i < 9 → j < 9 → allCells !! (9 * i + j) = Some (i, j).
Proof.
  intros Hi Hj. pose proof allCells_index_table as T.
  rewrite Forall_forall in T. specialize (T i ltac:(apply elem_of_seq; lia)).
  rewrite Forall_forall in T. apply T, elem_of_seq. lia.
Qed.

Lemma allCells_NoDup : NoDup allCells.
Proof. apply (bool_decide_unpack _). vm_compute. exact I. Qed.

(** The cells listed before [(r, c)] are those before it in row-major order. *)
Lemma allCells_prefix l1 l2 r c i j :
  allCells = l1 ++ (r, c) :: l2 → i < 9 → j < 9 →
  (i, j) ∈ l1 ↔ before i j r c.
Proof.
  intros Hsplit Hi Hj.
  assert ((r, c) ∈ allCells) as [Hr Hc]%elem_of_allCells.
  { rewrite Hsplit. apply elem_of_app. right. left. }
  assert (length l1 = 9 * r + c) as Hlen.
  { eapply (NoDup_lookup allCells _ _ (r, c) allCells_NoDup).
    - rewrite Hsplit. by rewrite list_lookup_middle.
    - by apply allCells_index. }
  pose proof (allCells_index i j Hi Hj) as Hij. unfold before. split.
  - intros [k Hk]%list_elem_of_lookup.
    pose proof (lookup_lt_Some _ _ _ Hk) as Hklt.
    assert (allCells !! k = Some (i, j)) as Hk'.
    { rewrite Hsplit. by rewrite lookup_app_l. }
    assert (k = 9 * i + j) by (by eapply (NoDup_lookup allCells _ _ _ allCells_NoDup)).
    lia.
  - intros Hbefore. apply list_elem_of_lookup. exists (9 * i + j).
    rewrite Hsplit in Hij. rewrite lookup_app_l in Hij by lia. done.
Qed.

Lemma find_allCells_before b r c :
  List.find (isEmptyAt b) allCells = Some (r, c) →
  ∀ i j, i < 9 → j < 9 → before i j r c → isEmptyVal (cellAt b i j) = false.
Proof.
  intros Hfind i j Hi Hj Hbefore.
  destruct (find_first _ _ _ Hfind) as (l1 & l2 & Hsplit & _ & Hl1).
  apply (Hl1 (i, j)), (allCells_prefix l1 l2 r c); done.
Qed.

(** X1. On a 9×9 board [findEmpty] returns [(r, c)] exactly when that cell is
    empty ([null] or [0]) and every cell before it in row-major order is
    filled; it returns [null] exactly when no cell is empty. *)
Theorem findEmpty_row_major (b : SudokuBoard) :
  is9x9 b →
  (∀ r c, findEmpty b = Ok (Some (r, c)) ↔
     r < 9 ∧ c < 9 ∧ isEmptyVal (cellAt b r c) = true ∧
     ∀ i j, i < 9 → j < 9 → before i j r c → isEmptyVal (cellAt b i j) = false) ∧
  (findEmpty b = Ok None ↔ full b).
Proof.
  intros Hb. rewrite findEmpty_ok by done. split.
  - intros r c. split.
    + intros Hfind%Ok_inj.
      pose proof (find_allCells_Some b r c Hfind) as (Hr & Hc & He).
      split; [done|]. split; [done|]. split; [done|].
      by apply find_allCells_before.
    + intros (Hr & Hc & He & Hfilled).
      destruct (List.find (isEmptyAt b) allCells) as [[r' c']|] eqn:Hfind.
      * pose proof (find_allCells_Some b r' c' Hfind) as (Hr' & Hc' & He').
        destruct (decide (before r' c' r c)) as [Hb1|Hb1].
        { by rewrite (Hfilled r' c' Hr' Hc' Hb1) in He'. }
        destruct (decide (before r c r' c')) as [Hb2|Hb2].
        { by rewrite (find_allCells_before b r' c' Hfind r c Hr Hc Hb2) in He. }
        unfold before in Hb1, Hb2.
        assert (r' = r) as -> by lia. assert (c' = c) as -> by lia. done.
      * rewrite (proj1 (find_allCells_None b) Hfind) in He; done.
  - split.
    + intros Hfind%Ok_inj. exact (proj1 (find_allCells_None b) Hfind).
    + intros Hfull. f_equal. exact (proj2 (find_allCells_None b) Hfull).
Qed.

Lemma findEmpty_row_major_witness :
  (∀ r c, findEmpty examplePuzzle = Ok (Some (r, c)) ↔
     r < 9 ∧ c < 9 ∧ isEmptyVal (cellAt examplePuzzle r c) = true ∧
     ∀ i j, i < 9 → j < 9 → before i j r c →
       isEmptyVal (cellAt examplePuzzle i j) = false) ∧
  (findEmpty examplePuzzle = Ok None ↔ full examplePuzzle).
Proof.
  apply (findEmpty_row_major examplePuzzle).
  split; [reflexivity|]. repeat constructor.
Defined.

(** ** [isValid] at and beyond the edge of the board *)

(** X2. [isValid] does not check its coordinates. With a row index past the
    last row of the board, its first read, [board[row][0]], raises a
    TypeError. *)
Theorem isValid_row_out_of_range (b : SudokuBoard) (row col : nat) (num : Z) :
  length b ≤ row → isValid b row col num = TypeError.
Proof.
  intros Hrow. unfold isValid.
  assert (noneEqual b num (rowCells row) = TypeError) as ->; [|done].
  unfold rowCells. cbn [seq map noneEqual].
  rewrite !readCell_throws by done. reflexivity.
Qed.

Lemma isValid_row_out_of_range_witness : isValid examplePuzzle 9 0 5 = TypeError.
Proof. apply (isValid_row_out_of_range examplePuzzle 9 0 5). vm_compute. lia. Defined.

Lemma cellAt_column_out_of_range (b : SudokuBoard) i j :
  is9x9 b → 9 ≤ j → cellAt b i j = JUndefined.
Proof.
  intros Hb Hj. destruct (decide (cellAt b i j = JUndefined)) as [|Hne]; [done|].
  destruct (cellAt_defined b i j Hb Hne). lia.
Qed.

Lemma boxCells_rows row col p : row < 9 → p ∈ boxCells row col → p.1 < 9.
Proof.
  intros Hrow. destruct p as [i j].
  intros (di & dj & Hdi & Hdj & -> & _)%elem_of_boxCells. simpl.
  do 9 (destruct row as [|row]; [simpl; lia|]). lia.
Qed.

(** X3. With a column index past the ninth column, on a 9×9 board,
    [isValid] raises nothing: the column and box scans read [undefined]
    everywhere, and the answer is whether the row is free of the digit. *)
Theorem isValid_column_out_of_range (b : SudokuBoard) (row col : nat) (num : Z) :
  is9x9 b → row < 9 → 9 ≤ col →
  isValid b row col num = Ok (noneHolds b num (rowCells row)).
Proof.
  intros Hb Hrow Hcol. pose proof Hb as [Hlen _]. unfold isValid.
  rewrite (noneEqual_ok b num (rowCells row)), outcome_bind_Ok.
  2:{ apply Forall_forall. intros [i j] [-> _]%elem_of_rowCells. simpl. lia. }
  rewrite (noneEqual_ok b num (colCells col)), outcome_bind_Ok.
  2:{ apply Forall_forall. intros [i j] [Hi _]%elem_of_colCells. simpl. lia. }
  rewrite (noneEqual_ok b num (boxCells row col)), outcome_bind_Ok.
  2:{ apply Forall_forall. intros p Hp%boxCells_rows; [lia|done]. }
  assert (noneHolds b num (colCells col) = true) as ->.
  { apply noneHolds_spec. intros i j [_ ->]%elem_of_colCells.
    by rewrite cellAt_column_out_of_range. }
  assert (noneHolds b num (boxCells row col) = true) as ->.
  { apply noneHolds_spec.
    intros i j (di & dj & _ & _ & -> & ->)%elem_of_boxCells.
    rewrite cellAt_column_out_of_range; [done..|].
    pose proof (Nat.div_mod_eq col 3). pose proof (Nat.mod_upper_bound col 3). lia. }
  by destruct (noneHolds b num (rowCells row)).
Qed.

Lemma isValid_column_out_of_range_witness :
  isValid examplePuzzle 0 9 4 = Ok (noneHolds examplePuzzle 4 (rowCells 0)).
Proof.
  apply (isValid_column_out_of_range examplePuzzle 0 9 4).
  - split; [reflexivity|]. repeat constructor.
  - lia.
  - lia.
Defined.

(** X4. [isValid] scans the cell it is asked about along with the others: on
    a 9×9 board it answers false for the digit a cell already holds. A
    placed digit can only be re-checked after clearing its cell. *)
Theorem isValid_rejects_own_digit (b : SudokuBoard) (row col : nat) (num : Z) :
  is9x9 b → row < 9 → col < 9 → cellAt b row col = JNum num →
  isValid b row col num = Ok false.
Proof.
  intros Hb Hrow Hcol Hcell. rewrite isValid_ok by done. f_equal.
  apply noneHolds_false. exists row, col. split; [|done].
  apply scanCells_spec; [done..|]. split; [done|]. split; [done|].
  unfold inScope. by rewrite Nat.eqb_refl.
Qed.

Lemma isValid_rejects_own_digit_witness : isValid examplePuzzle 0 0 5 = Ok false.
Proof.
  apply (isValid_rejects_own_digit examplePuzzle 0 0 5).
  - split; [reflexivity|]. repeat constructor.
  - lia.
  - lia.
  - reflexivity.
Defined.

(** ** What the solver's result means *)

Lemma completion_cluesFit b s : completion b s → cluesFit b.
Proof.
  intros [[_ Hfits] Hkeep] i j Hi Hj He.
  destruct (Hfits i j Hi Hj) as (n & Hn & Hcell & Halone).
  rewrite (Hkeep i j Hi Hj He) in Hcell.
  exists n. split; [done|]. split; [done|].
  intros i' j' Hi' Hj' Hs Hne Hcell'. apply (Halone i' j' Hi' Hj' Hs Hne).
  rewrite Hkeep; [done..|]. rewrite Hcell'. by apply isEmptyVal_digit.
Qed.

Lemma searchPost_solved b b' :
  searchPost b true b' → cluesFit b → completion b b'.
Proof.
  intros (H9 & Hfull & Hkeep & Hfit) Hclues. split; [|done].
  split; [done|]. intros i j Hi Hj.
  destruct (isEmptyVal (cellAt b i j)) eqn:He; [by apply Hfit|].
  destruct (Hclues i j Hi Hj He) as (n & Hn & Hcell & Halone).
  exists n. split; [done|]. split; [by rewrite Hkeep|].
  intros i' j' Hi' Hj' Hs Hne.
  destruct (isEmptyVal (cellAt b i' j')) eqn:He'.
  - destruct (Hfit i' j' Hi' Hj' He') as (n' & _ & Hcell' & Halone').
    rewrite Hcell'. intros [= ->].
    apply (Halone' i j Hi Hj); [by rewrite inScope_sym|congruence|].
    by rewrite Hkeep.
  - rewrite Hkeep by done. by apply Halone.
Qed.

(** X5. On every 9×9 board [solveSudokuInstant] returns, and the puzzle has a
    solution (a full valid grid that agrees with the board on its filled
    cells) exactly when the result is true and the filled cells of the input
    are digits without conflicts among themselves; the board the solver
    leaves is then such a solution. In particular a result of false means
    that no solution exists. *)
Theorem solveSudokuInstant_decides (b : SudokuBoard) :
  is9x9 b →
  ∃ res b', solveSudokuInstant b = Ok (res, b') ∧
    ((∃ s, completion b s) ↔ res = true ∧ cluesFit b) ∧
    (res = true → cluesFit b → completion b b').
Proof.
  intros Hb. destruct (solveSudokuInstant_spec b Hb) as (res & b' & Hrun & Hpost).
  exists res, b'. split; [done|]. split; [split|].
  - intros [s Hs]. split; [|by apply (completion_cluesFit b s)].
    destruct res; [done|]. destruct (solveSudokuInstant_complete b b' Hb Hrun). eauto.
  - intros [-> Hclues]. exists b'. by apply searchPost_solved.
  - intros -> Hclues. by apply searchPost_solved.
Qed.

Lemma solveSudokuInstant_decides_witness :
  ∃ res b', solveSudokuInstant examplePuzzle = Ok (res, b') ∧
    ((∃ s, completion examplePuzzle s) ↔ res = true ∧ cluesFit examplePuzzle) ∧
    (res = true → cluesFit examplePuzzle → completion examplePuzzle b').
Proof.
  apply (solveSudokuInstant_decides examplePuzzle).
  split; [reflexivity|]. repeat constructor.
Defined.

(** X6. Solving is idempotent: on a 9×9 board, when [solveSudokuInstant]
    returns true, running it again on the board it left returns true and
    changes nothing. *)
Theorem solveSudokuInstant_twice (b b' : SudokuBoard) :
  is9x9 b → solveSudokuInstant b = Ok (true, b') →
  solveSudokuInstant b' = Ok (true, b').
Proof.
  intros Hb Hrun.
  destruct (solveSudokuInstant_spec b Hb) as (res & b2 & Hrun' & H9 & Hpost).
  rewrite Hrun in Hrun'. injection Hrun' as <- <-. destruct Hpost as (Hfull & _).
  unfold solveSudokuInstant. rewrite solveFuel_S, findEmpty_ok, outcome_bind_Ok by done.
  by rewrite (proj2 (find_allCells_None b') Hfull).
Qed.

Lemma solveSudokuInstant_twice_witness :
  solveSudokuInstant exampleSolved = Ok (true, exampleSolved).
Proof.
  apply (solveSudokuInstant_twice examplePuzzle exampleSolved).
  - split; [reflexivity|]. repeat constructor.
  - vm_compute. reflexivity.
Defined.

(** ** Which solution the solver returns *)

Lemma digits_ascending : StronglySorted Z.lt digits.
Proof. unfold digits. repeat constructor; lia. Qed.

Section SolverLeast.

Variable rec : SudokuBoard → outcome (bool * SudokuBoard).
Variable m : nat.
Hypothesis rec_spec : ∀ b, is9x9 b → countEmpty b < m →
  ∃ res b', rec b = Ok (res, b') ∧ searchPost b res b'.
Hypothesis rec_complete : ∀ b b', is9x9 b → countEmpty b < m →
  rec b = Ok (false, b') → ¬ ∃ s, completion b s.
Hypothesis rec_least : ∀ b b', is9x9 b → countEmpty b < m →
  rec b = Ok (true, b') → ∀ s, completion b s → lexLe b' s.
Variables row col : nat.
Hypothesis Hrow : row < 9.
Hypothesis Hcol : col < 9.

Lemma tryDigits_least nums :
  Forall isDigit nums → StronglySorted Z.lt nums →
  ∀ b b', is9x9 b → isEmptyVal (cellAt b row col) = true → countEmpty b ≤ m →
    tryDigits rec row col nums b = Ok (true, b') →
    ∃ n, cellAt b' row col = JNum n ∧
      ∀ s n', completion b s → n' ∈ nums → cellAt s row col = JNum n' →
        (n ≤ n')%Z ∧ (n' = n → lexLe b' s).
Proof.
  induction 1 as [|n rest Hn _ IH]; intros Hsorted b b' Hb He Hm Hrun; [done|].
  apply StronglySorted_inv in Hsorted as [Hsorted Hless].
  rewrite Forall_forall in Hless.
  cbn [tryDigits] in Hrun. rewrite isValid_ok, outcome_bind_Ok in Hrun by done.
  destruct (validAt b row col n) eqn:Hval.
  - rewrite writeCell_ok, outcome_bind_Ok in Hrun by done.
    pose proof (setCell_9x9 b row col (JNum n) Hb) as Hb1.
    pose proof (countEmpty_place b row col n Hb Hrow Hcol He Hn) as Hcount.
    destruct (rec_spec (setCell b row col (JNum n)) Hb1 ltac:(lia))
      as (res & b2 & Hrec & Hpost).
    rewrite Hrec, outcome_bind_Ok in Hrun. destruct res.
    + apply Ok_inj in Hrun. injection Hrun as <-. exists n. split.
      * rewrite (searchPost_filled _ _ _ row col Hpost); [by apply cellAt_setCell_eq|done..|].
        rewrite cellAt_setCell_eq by done. by apply isEmptyVal_digit.
      * intros s n' Hs [->|Hin]%elem_of_cons Hcell.
        -- split; [lia|]. intros _.
           apply (rec_least _ _ Hb1 ltac:(lia) Hrec). by apply completion_place.
        -- specialize (Hless n' Hin). split; lia.
    + destruct (placement_undone b row col n b2 Hb Hrow Hcol He Hn Hpost)
        as (H9 & He3 & Hz & Hcnt).
      rewrite writeCell_ok, outcome_bind_Ok in Hrun by (done || apply Hpost).
      destruct (IH Hsorted _ _ H9 He3 ltac:(lia) Hrun) as (n0 & Hcell0 & Hleast).
      exists n0. split; [done|].
      intros s n' Hs [->|Hin]%elem_of_cons Hcell.
      * destruct (rec_complete _ _ Hb1 ltac:(lia) Hrec).
        exists s. by apply completion_place.
      * apply Hleast; [|done..]. by apply (completion_zeroToNull b).
  - destruct (IH Hsorted _ _ Hb He Hm Hrun) as (n0 & Hcell0 & Hleast).
    exists n0. split; [done|].
    intros s n' Hs [->|Hin]%elem_of_cons Hcell.
    + destruct (completion_valid b s row col n Hs Hrow Hcol He Hcell) as [_ Hv].
      congruence.
    + by apply Hleast.
Qed.

End SolverLeast.

Lemma solveFuel_least fuel :
  ∀ b b', is9x9 b → countEmpty b < fuel →
  solveFuel fuel b = Ok (true, b') → ∀ s, completion b s → lexLe b' s.
Proof.
  induction fuel as [|fuel IH]; intros b b' Hb Hfuel Hrun s Hs; [lia|].
  destruct (solveFuel_spec (S fuel) b Hb Hfuel) as (res & b2 & Hrun' & Hpost).
  rewrite Hrun in Hrun'. apply Ok_inj in Hrun'. injection Hrun' as <- <-.
  rewrite solveFuel_S, findEmpty_ok, outcome_bind_Ok in Hrun by done.
  pose proof Hs as [_ Hkeep].
  destruct (List.find (isEmptyAt b) allCells) as [[r0 c0]|] eqn:Hfind.
  - pose proof (find_allCells_before b r0 c0 Hfind) as Hfirst.
    apply find_allCells_Some in Hfind as (Hr0 & Hc0 & He).
    destruct (tryDigits_least _ fuel (solveFuel_spec fuel) (solveFuel_complete fuel) IH
      r0 c0 Hr0 Hc0 digits digits_are_digits digits_ascending b b' Hb He ltac:(lia) Hrun)
      as (n & Hcell & Hleast).
    destruct (completion_digit s r0 c0 (proj1 Hs) Hr0 Hc0) as (n' & Hn' & Hcell').
    destruct (Hleast s n' Hs (proj1 (isDigit_elem n') Hn') Hcell') as [Hle Hsame].
    intros r c Hr Hc Hagree.
    destruct (decide (before r c r0 c0)) as [Hb1|Hb1].
    { specialize (Hfirst r c Hr Hc Hb1). unfold numAt.
      by rewrite (searchPost_filled _ _ _ r c Hpost), (Hkeep r c). }
    destruct (decide (before r0 c0 r c)) as [Hb2|Hb2].
    { pose proof (Hagree r0 c0 Hr0 Hc0 Hb2) as Heq.
      apply Hsame; [congruence|done..]. }
    assert (r = r0) as -> by (unfold before in *; lia).
    assert (c = c0) as -> by (unfold before in *; lia).
    unfold numAt. by rewrite Hcell, Hcell'.
  - apply Ok_inj in Hrun. injection Hrun as <-.
    pose proof (proj1 (find_allCells_None b) Hfind) as Hfull.
    intros r c Hr Hc _. unfold numAt. by rewrite (Hkeep r c) by (done || by apply Hfull).
Qed.

(** X7. The scan order and the ascending digit order pin the solution: on a
    9×9 board, when [solveSudokuInstant] returns true, the board it leaves
    comes first among all the solutions of the puzzle in row-major
    lexicographic order (at the first cell where another solution differs,
    the solver's board holds the smaller digit). *)
Theorem solveSudokuInstant_least (b b' : SudokuBoard) :
  is9x9 b → solveSudokuInstant b = Ok (true, b') →
  ∀ s, completion b s → lexLe b' s.
Proof. intros Hb. apply solveFuel_least; [done|lia]. Qed.

Lemma solveSudokuInstant_least_witness :
  completion twoWays exampleSwapped ∧ exampleSwapped ≠ exampleSolved ∧
  lexLe exampleSolved exampleSwapped.
Proof.
  assert (completion twoWays exampleSwapped) as Hs.
  { split.
    - apply solvedGrid_decide; [|by vm_compute].
      do 4 apply setCell_9x9. split; [reflexivity|]. repeat constructor.
    - intros i j Hi Hj He.
      assert (Forall (λ p, isEmptyVal (cellAt twoWays p.1 p.2) = false →
                cellAt exampleSwapped p.1 p.2 = cellAt twoWays p.1 p.2) allCells)
        as T by (apply (bool_decide_unpack _); vm_compute; exact I).
      rewrite Forall_forall in T. apply (T (i, j)); [by apply elem_of_allCells|done]. }
  split; [done|]. split; [discriminate|].
  apply (solveSudokuInstant_least twoWays exampleSolved).
  - do 4 apply setCell_9x9. split; [reflexivity|]. repeat constructor.
  - vm_compute. reflexivity.
  - done.
Defined.

(** ** The shape of a trace *)

Lemma stepOk_transfer b b1 step :
  keepsClues b b1 → stepOk b1 step → stepOk b step.
Proof.
  intros Hkeep (H9 & Hr & Hc & He & Hclues).
  split; [done|]. split; [done|]. split; [done|]. split.
  - destruct (isEmptyVal (cellAt b (stepRow step) (stepCol step))) eqn:Hb; [done|].
    rewrite (Hkeep _ _ Hr Hc Hb) in He. congruence.
  - intros i j Hi Hj Hb. rewrite <- (Hkeep i j Hi Hj Hb).
    apply Hclues; [done..|]. by rewrite (Hkeep i j Hi Hj Hb).
Qed.

Lemma keepsClues_place b row col v :
  isEmptyVal (cellAt b row col) = true → keepsClues b (setCell b row col v).
Proof.
  intros He i j Hi Hj Hb. apply cellAt_setCell_ne. intros [= -> ->]. congruence.
Qed.

Lemma zeroToNull_keepsClues b b' : zeroToNull b b' → keepsClues b b'.
Proof. intros Hz i j Hi Hj He. by apply zeroToNull_filled. Qed.

Section TracedShape.

Variable recT : SudokuBoard → outcome (bool * SudokuBoard * list Step).
Variable m : nat.
Hypothesis recT_spec : ∀ b, is9x9 b → countEmpty b < m →
  ∃ res b' tr, recT b = Ok (res, b', tr) ∧ searchPost b res b' ∧ traceOk b res tr.
Variables row col : nat.
Hypothesis Hrow : row < 9.
Hypothesis Hcol : col < 9.

Lemma tryDigitsTraced_shape nums :
  Forall isDigit nums →
  ∀ b, is9x9 b → isEmptyVal (cellAt b row col) = true → countEmpty b ≤ m →
  ∃ res b' tr,
    tryDigitsTraced recT row col nums b = Ok (res, b', tr) ∧
    searchPost b res b' ∧ traceOk b res tr.
Proof.
  induction 1 as [|n rest Hn _ IH]; intros b Hb He Hm.
  - exists false, b, []. split; [done|]. split.
    + split; [done|]. split; [apply zeroToNull_refl|done].
    + split; [constructor|]. by exists 0.
  - cbn [tryDigitsTraced]. rewrite isValid_ok, outcome_bind_Ok by done.
    destruct (validAt b row col n) eqn:Hval; [|by apply IH].
    rewrite writeCell_ok, outcome_bind_Ok by done. cbv zeta.
    pose proof (setCell_9x9 b row col (JNum n) Hb) as Hb1.
    pose proof (countEmpty_place b row col n Hb Hrow Hcol He Hn) as Hcount.
    pose proof (keepsClues_place b row col (JNum n) He) as Hkeep1.
    assert (stepOk b (mkStep (setCell b row col (JNum n)) row col)) as Hplaced.
    { split; [done|]. split; [done|]. split; [done|]. split; done. }
    destruct (recT_spec (setCell b row col (JNum n)) Hb1 ltac:(lia))
      as (res & b2 & inner & -> & Hpost & Hinner & k1 & Hlen1).
    rewrite outcome_bind_Ok.
    assert (Forall (stepOk b) inner) as Hinner'.
    { eapply Forall_impl; [exact Hinner|]. intros step. by apply stepOk_transfer. }
    destruct res.
    + exists true, b2, (mkStep (setCell b row col (JNum n)) row col :: inner).
      split; [done|]. split; [by apply (placement_kept b row col n b2)|].
      split; [by constructor|]. exists k1. simpl. lia.
    + destruct (placement_undone b row col n b2 Hb Hrow Hcol He Hn Hpost)
        as (H9 & He3 & Hz & Hcnt).
      rewrite writeCell_ok, outcome_bind_Ok by (done || apply Hpost). cbv zeta.
      destruct (IH (setCell b2 row col JNull) H9 He3 ltac:(lia))
        as (res & b4 & later & -> & Hpost3 & Hlater & k3 & Hlen3).
      rewrite outcome_bind_Ok.
      exists res, b4,
        (mkStep (setCell b row col (JNum n)) row col
           :: inner ++ mkStep (setCell b2 row col JNull) row col :: later).
      split; [done|]. split; [by apply (searchPost_transfer b _ res b4 Hz)|].
      split.
      * constructor; [done|]. apply Forall_app. split; [done|]. constructor.
        -- split; [done|]. split; [done|]. split; [done|]. split; [done|].
           by apply zeroToNull_keepsClues.
        -- eapply Forall_impl; [exact Hlater|]. intros step.
           by apply stepOk_transfer, zeroToNull_keepsClues.
      * exists (k1 + k3 + 1). simpl. rewrite length_app. simpl.
        rewrite Hlen1, Hlen3, Hcnt. lia.
Qed.

End TracedShape.

Lemma solveTracedFuel_shape fuel :
  ∀ b, is9x9 b → countEmpty b < fuel →
  ∃ res b' tr,
    solveTracedFuel fuel b = Ok (res, b', tr) ∧ searchPost b res b' ∧ traceOk b res tr.
Proof.
  induction fuel as [|fuel IH]; intros b Hb Hfuel; [lia|].
  rewrite solveTracedFuel_S, findEmpty_ok, outcome_bind_Ok by done.
  destruct (List.find (isEmptyAt b) allCells) as [[row col]|] eqn:Hfind.
  - apply find_allCells_Some in Hfind as (Hr & Hc & He).
    apply (tryDigitsTraced_shape _ fuel IH row col Hr Hc digits digits_are_digits b Hb He).
    lia.
  - pose proof (proj1 (find_allCells_None b) Hfind) as Hfull.
    exists true, b, []. split; [done|]. split.
    + split; [done|]. split; [done|]. split; [by intros i j _ _ _|].
      intros i j Hi Hj He. by rewrite Hfull in He.
    + split; [constructor|]. exists 0. simpl.
      unfold countEmpty. destruct (filter _ (concat b)) as [|v rest] eqn:Hf; [done|].
      exfalso. assert (v ∈ filter (λ v, isEmptyVal v = true) (concat b)) as Hin
        by (rewrite Hf; left).
      apply list_elem_of_filter in Hin as [Hv Hin].
      apply list_elem_of_In, in_concat in Hin as (r & Hr & Hin).
      apply list_elem_of_In, list_elem_of_lookup in Hr as [i Hi].
      apply list_elem_of_In, list_elem_of_lookup in Hin as [j Hj].
      assert (cellAt b i j = v) as Hcell by (unfold cellAt; by rewrite Hi, Hj).
      destruct (cellAt_defined b i j Hb) as [Hi9 Hj9].
      { rewrite Hcell. by destruct v. }
      pose proof (Hfull i j Hi9 Hj9) as Hne. rewrite Hcell in Hne. congruence.
Qed.

(** X8. The animation never touches a clue: on a 9×9 board, every step of
    the traced solver's trace names a cell that was empty in the input, and
    its snapshot is a 9×9 board in which every filled cell of the input
    holds the value it had. *)
Theorem trace_keeps_clues (b b' : SudokuBoard) (res : bool) (tr : list Step) :
  is9x9 b → solveSudoku b = Ok (res, b', tr) →
  ∀ step, step ∈ tr →
    is9x9 (stepBoard step) ∧ stepRow step < 9 ∧ stepCol step < 9 ∧
    isEmptyVal (cellAt b (stepRow step) (stepCol step)) = true ∧
    ∀ i j, i < 9 → j < 9 → isEmptyVal (cellAt b i j) = false →
      cellAt (stepBoard step) i j = cellAt b i j.
Proof.
  intros Hb Hrun step Hin.
  destruct (solveTracedFuel_shape (S (countEmpty b)) b Hb ltac:(lia))
    as (res' & b2 & tr' & Hrun' & _ & Hsteps & _).
  unfold solveSudoku in Hrun. rewrite Hrun in Hrun'.
  apply Ok_inj in Hrun'. injection Hrun' as <- <- <-.
  rewrite Forall_forall in Hsteps. apply (Hsteps step Hin).
Qed.

Lemma trace_keeps_clues_witness :
  is9x9 (setCell nullMarked 0 0 (JNum 9)) ∧ 0 < 9 ∧ 0 < 9 ∧
  isEmptyVal (cellAt nullMarked 0 0) = true ∧
  ∀ i j, i < 9 → j < 9 → isEmptyVal (cellAt nullMarked i j) = false →
    cellAt (setCell nullMarked 0 0 (JNum 9)) i j = cellAt nullMarked i j.
Proof.
  apply (trace_keeps_clues nullMarked nullMarked false
           [mkStep (setCell nullMarked 0 0 (JNum 9)) 0 0; mkStep nullMarked 0 0]
           ltac:(split; [reflexivity|repeat constructor])
           ltac:(vm_compute; reflexivity)
           (mkStep (setCell nullMarked 0 0 (JNum 9)) 0 0)).
  left.
Defined.

(** X9. On a 9×9 board the trace of the traced solver is made of the
    placements that stay and of placement/removal pairs: when the result is
    true its length is the number of empty cells of the input plus an even
    number, and when the result is false its length is even. *)
Theorem trace_length (b b' : SudokuBoard) (res : bool) (tr : list Step) :
  is9x9 b → solveSudoku b = Ok (res, b', tr) →
  ∃ k, length tr = 2 * k + (if res then countEmpty b else 0).
Proof.
  intros Hb Hrun.
  destruct (solveTracedFuel_shape (S (countEmpty b)) b Hb ltac:(lia))
    as (res' & b2 & tr' & Hrun' & _ & _ & Hlen).
  unfold solveSudoku in Hrun. rewrite Hrun in Hrun'.
  apply Ok_inj in Hrun'. by injection Hrun' as <- <- <-.
Qed.

Lemma trace_length_witness :
  ∃ k, length [mkStep (setCell nullMarked 0 0 (JNum 9)) 0 0; mkStep nullMarked 0 0]
       = 2 * k + 0.
Proof.
  apply (trace_length nullMarked nullMarked false).
  - apply setCell_9x9. split; [reflexivity|]. repeat constructor.
  - vm_compute. reflexivity.
Defined.

(** ** What [validateBoard] reports, cell by cell *)

Lemma otherCells_cover_table :
  Forall (λ row, Forall (λ col,
    Forall (λ p, inScope row col p.1 p.2 = true → p ≠ (row, col) →
                 p ∈ otherCells row col) allCells)
    (seq 0 9)) (seq 0 9).
Proof. apply (bool_decide_unpack _). vm_compute. exact I. Qed.

Lemma otherCells_cover row col i j :
  row < 9 → col < 9 → i < 9 → j < 9 →
  inScope row col i j = true → (i, j) ≠ (row, col) → (i, j) ∈ otherCells row col.
Proof.
  intros Hr Hc Hi Hj. pose proof otherCells_cover_table as T.
  rewrite Forall_forall in T. specialize (T row ltac:(apply elem_of_seq; lia)).
  rewrite Forall_forall in T. specialize (T col ltac:(apply elem_of_seq; lia)).
  rewrite Forall_forall in T. apply (T (i, j)). by apply elem_of_allCells.
Qed.

Lemma holdsAny_true (b : SudokuBoard) value cells :
  holdsAny b value cells = true ↔ ∃ p, p ∈ cells ∧ cellAt b p.1 p.2 = value.
Proof.
  unfold holdsAny. rewrite existsb_exists. split.
  - intros (p & Hin & Heq). exists p.
    split; [by apply list_elem_of_In|by apply bool_decide_eq_true in Heq].
  - intros (p & Hin & Heq). exists p.
    split; [by apply list_elem_of_In|by apply bool_decide_eq_true].
Qed.

Lemma pushIf_nil found e : pushIf found e = [] ↔ found = false.
Proof. by destruct found. Qed.

Lemma flat_map_nil_inv {A B : Type} (f : A → list B) (l : list A) :
  flat_map f l = [] → ∀ x, x ∈ l → f x = [].
Proof.
  induction l as [|a l IH]; simpl; [by intros _ x ?%elem_of_nil|].
  intros [Ha Hl]%app_eq_nil x [->|Hx]%elem_of_cons; [done|by apply IH].
Qed.

Lemma flat_map_not_nil {A B : Type} (f : A → list B) (l : list A) :
  flat_map f l ≠ [] → ∃ x, x ∈ l ∧ f x ≠ [].
Proof.
  induction l as [|a l IH]; simpl; [done|]. intros Hne.
  destruct (f a) as [|y ys] eqn:Hfa.
  - destruct (IH Hne) as (x & Hx & Hfx). exists x. split; [by right|done].
  - exists a. split; [by left|]. by rewrite Hfa.
Qed.

(** A cell is reported exactly when it is filled and in conflict. *)
Lemma cellErrors_conflict b row col :
  row < 9 → col < 9 →
  cellErrors b (row, col) ≠ [] ↔
  isEmptyVal (cellAt b row col) = false ∧ conflictAt b row col.
Proof.
  intros Hr Hc. destruct (otherCells_spec row col Hr Hc) as [_ Hcells]. split.
  - intros Hne. destruct (isEmptyVal (cellAt b row col)) eqn:He.
    { by rewrite cellErrors_empty in Hne. }
    split; [done|].
    assert (∃ cells, (∀ p, p ∈ cells → p ∈ otherCells row col) ∧
      holdsAny b (cellAt b row col) cells = true) as (cells & Hsub & Hhold).
    { unfold cellErrors in Hne. cbn [fst snd] in Hne. rewrite He in Hne.
      destruct (holdsAny b _ (rowOthers row col)) eqn:H1.
      { exists (rowOthers row col). split; [apply otherCells_row|done]. }
      destruct (holdsAny b _ (colOthers row col)) eqn:H2.
      { exists (colOthers row col). split; [apply otherCells_col|done]. }
      cbn [pushIf app] in Hne.
      apply flat_map_not_nil in Hne as (r & Hin & Hr').
      exists (boxRowOthers row col r). split.
      - intros p. by apply otherCells_box.
      - by destruct (holdsAny b _ (boxRowOthers row col r)). }
    apply holdsAny_true in Hhold as ([i j] & Hin & Heq).
    destruct (Hcells _ (Hsub _ Hin)) as (Hi & Hj & Hs & Hnp).
    by exists i, j.
  - intros [He (i & j & Hi & Hj & Hs & Hnp & Heq)] Hnil.
    pose proof (otherCells_cover row col i j Hr Hc Hi Hj Hs Hnp) as Hin.
    unfold cellErrors in Hnil. cbn [fst snd] in Hnil. rewrite He in Hnil.
    apply app_eq_nil in Hnil as [H1%pushIf_nil Hnil].
    apply app_eq_nil in Hnil as [H2%pushIf_nil H3].
    unfold otherCells in Hin.
    apply elem_of_app in Hin as [Hin|Hin]; [|apply elem_of_app in Hin as [Hin|Hin]].
    + rewrite holdsAny_false in H1. by apply (H1 (i, j)).
    + rewrite holdsAny_false in H2. by apply (H2 (i, j)).
    + apply list_elem_of_In, in_flat_map in Hin as (r & Hrin & Hin).
      apply list_elem_of_In in Hrin, Hin.
      pose proof (flat_map_nil_inv _ _ H3 r Hrin) as H4. cbv beta in H4.
      apply pushIf_nil in H4. rewrite holdsAny_false in H4. by apply (H4 (i, j)).
Qed.

Lemma cellErrors_entry b p e :
  e ∈ cellErrors b p →
  errRow e = p.1 ∧ errCol e = p.2 ∧
  errType e ≠ ErrInvalid ∧
  errMessage e = duplicateMessage (cellAt b p.1 p.2) (errType e).
Proof.
  unfold cellErrors. destruct (isEmptyVal _); [by intros ?%elem_of_nil|].
  intros Hin.
  apply elem_of_app in Hin as [Hin|Hin]; [|apply elem_of_app in Hin as [Hin|Hin]].
  - by apply pushIf_elem in Hin as ->.
  - by apply pushIf_elem in Hin as ->.
  - apply list_elem_of_In, in_flat_map in Hin as (r & _ & Hin).
    by apply list_elem_of_In, pushIf_elem in Hin as ->.
Qed.

Lemma elem_of_flat_map_cellErrors b e cells :
  e ∈ flat_map (cellErrors b) cells ↔ ∃ p, p ∈ cells ∧ e ∈ cellErrors b p.
Proof.
  rewrite list_elem_of_In, in_flat_map. split.
  - intros (p & Hp & He). exists p. by rewrite !list_elem_of_In.
  - intros (p & Hp & He). exists p. by rewrite <- !list_elem_of_In.
Qed.

(** X10. On a 9×9 board [validateBoard] returns no entry exactly when no
    filled cell shares its value with another cell of its row, column or
    box. *)
Theorem validateBoard_clean_iff (b : SudokuBoard) :
  is9x9 b →
  validateBoard b = Ok [] ↔
  ∀ i j, i < 9 → j < 9 →
    isEmptyVal (cellAt b i j) = true ∨ aloneAt b i j (cellAt b i j).
Proof.
  intros Hb. rewrite validateBoard_ok by done. split.
  - intros Hnil%Ok_inj i j Hi Hj.
    destruct (isEmptyVal (cellAt b i j)) eqn:He; [by left|right].
    intros i' j' Hi' Hj' Hs Hne Heq.
    apply (proj2 (cellErrors_conflict b i j Hi Hj)).
    + split; [done|]. by exists i', j'.
    + apply (flat_map_nil_inv _ _ Hnil). by apply elem_of_allCells.
  - intros Hall. f_equal. apply flat_map_nil. intros [i j] [Hi Hj]%elem_of_allCells.
    destruct (Hall i j Hi Hj) as [He|Halone].
    + by apply cellErrors_empty.
    + by apply cellErrors_alone.
Qed.

Lemma validateBoard_clean_iff_witness :
  validateBoard examplePuzzle = Ok [] ↔
  ∀ i j, i < 9 → j < 9 →
    isEmptyVal (cellAt examplePuzzle i j) = true ∨
    aloneAt examplePuzzle i j (cellAt examplePuzzle i j).
Proof.
  apply (validateBoard_clean_iff examplePuzzle).
  split; [reflexivity|]. repeat constructor.
Defined.

Lemma hasError_conflict (b : SudokuBoard) (errs : list ValidationError)
    (row col : nat) :
  is9x9 b → validateBoard b = Ok errs →
  hasError row col errs = true ↔
  row < 9 ∧ col < 9 ∧ isEmptyVal (cellAt b row col) = false ∧ conflictAt b row col.
Proof.
  intros Hb. rewrite validateBoard_ok by done. intros <-%Ok_inj.
  unfold hasError. rewrite existsb_exists. split.
  - intros (e & Hin & Hcell).
    apply list_elem_of_In, elem_of_flat_map_cellErrors in Hin as ([i j] & Hp & He).
    apply elem_of_allCells in Hp as [Hi Hj].
    destruct (cellErrors_entry b (i, j) e He) as (Hrow & Hcol & _).
    cbn [fst snd] in *. apply andb_true_iff in Hcell as [H1%Nat.eqb_eq H2%Nat.eqb_eq].
    assert (i = row) as -> by congruence. assert (j = col) as -> by congruence.
    split; [done|]. split; [done|].
    apply cellErrors_conflict; [done..|]. intros Hnil. rewrite Hnil in He.
    by apply elem_of_nil in He.
  - intros (Hr & Hc & He & Hconf).
    pose proof (proj2 (cellErrors_conflict b row col Hr Hc) (conj He Hconf)) as Hne.
    destruct (cellErrors b (row, col)) as [|e rest] eqn:Herrs; [done|].
    assert (e ∈ cellErrors b (row, col)) as Hin by (rewrite Herrs; left).
    destruct (cellErrors_entry b (row, col) e Hin) as (Hrow & Hcol & _).
    exists e. split.
    + apply list_elem_of_In, elem_of_flat_map_cellErrors. exists (row, col).
      split; [by apply elem_of_allCells|done].
    + cbn [fst snd] in *. apply andb_true_iff. by rewrite !Nat.eqb_eq.
Qed.

(** X11. [hasError] applied to the result of [validateBoard] on a 9×9 board
    marks the cell [(row, col)] exactly when the cell lies on the board, is
    filled, and some other cell of its row, column or box holds the same
    value. *)
Theorem hasError_marks_conflicts (b : SudokuBoard) (errs : list ValidationError)
    (row col : nat) :
  is9x9 b → validateBoard b = Ok errs →
  hasError row col errs = true ↔
  row < 9 ∧ col < 9 ∧ isEmptyVal (cellAt b row col) = false ∧ conflictAt b row col.
Proof. apply hasError_conflict. Qed.

Lemma hasError_marks_conflicts_witness :
  hasError 0 1 (pairErrors 0 0 1) = true ↔
  0 < 9 ∧ 1 < 9 ∧ isEmptyVal (cellAt (pairBoard 0 0 1) 0 1) = false ∧
  conflictAt (pairBoard 0 0 1) 0 1.
Proof.
  apply (hasError_marks_conflicts (pairBoard 0 0 1)).
  - do 2 apply setCell_9x9. split; [reflexivity|]. repeat constructor.
  - vm_compute. reflexivity.
Defined.

(** X25. A cell is never flagged alone: when [hasError] marks a cell of a
    9×9 board, it also marks another cell of the same row, column or box
    that holds the same value. *)
Theorem flagged_cells_have_partners (b : SudokuBoard) (errs : list ValidationError)
    (row col : nat) :
  is9x9 b → validateBoard b = Ok errs → hasError row col errs = true →
  ∃ i j, (i, j) ≠ (row, col) ∧ inScope row col i j = true ∧
    cellAt b i j = cellAt b row col ∧ hasError i j errs = true.
Proof.
  intros Hb Hrun Hflag.
  apply (hasError_conflict b errs row col Hb Hrun) in Hflag
    as (Hr & Hc & He & i & j & Hi & Hj & Hs & Hne & Heq).
  exists i, j. split; [done|]. split; [done|]. split; [done|].
  apply (hasError_conflict b errs i j Hb Hrun).
  split; [done|]. split; [done|]. split; [by rewrite Heq|].
  exists row, col. split; [done|]. split; [done|].
  split; [by rewrite inScope_sym|]. split; [congruence|done].
Qed.

Lemma flagged_cells_have_partners_witness :
  ∃ i j, (i, j) ≠ (0, 1) ∧ inScope 0 1 i j = true ∧
    cellAt (pairBoard 0 0 1) i j = cellAt (pairBoard 0 0 1) 0 1 ∧
    hasError i j (pairErrors 0 0 1) = true.
Proof.
  apply (flagged_cells_have_partners (pairBoard 0 0 1)).
  - do 2 apply setCell_9x9. split; [reflexivity|]. repeat constructor.
  - vm_compute. reflexivity.
  - reflexivity.
Defined.

(** X12. Every entry [validateBoard] returns on a 9×9 board is a duplicate
    report: its type is row, column or box, never invalid, and its message
    is the text for that type around the value of the cell it names. *)
Theorem validateBoard_entries (b : SudokuBoard) (errs : list ValidationError) :
  is9x9 b → validateBoard b = Ok errs →
  ∀ e, e ∈ errs →
    errType e ≠ ErrInvalid ∧
    errMessage e = duplicateMessage (cellAt b (errRow e) (errCol e)) (errType e).
Proof.
  intros Hb. rewrite validateBoard_ok by done. intros <-%Ok_inj e Hin.
  apply elem_of_flat_map_cellErrors in Hin as (p & _ & He).
  destruct (cellErrors_entry b p e He) as (-> & -> & Htype & Hmsg). done.
Qed.

Lemma validateBoard_entries_witness :
  ErrBox ≠ ErrInvalid ∧
  "Duplicate 5 in 3×3 box" = duplicateMessage (cellAt (pairBoard 0 0 1) 0 1) ErrBox.
Proof.
  apply (validateBoard_entries (pairBoard 0 0 1) (pairErrors 0 0 1)
           ltac:(do 2 apply setCell_9x9; split; [reflexivity|repeat constructor])
           ltac:(vm_compute; reflexivity)
           (mkError 0 1 ErrBox "Duplicate 5 in 3×3 box")).
  vm_compute. do 3 right. left.
Defined.

Lemma holdsAny_boxRow b row col r :
  holdsAny b (cellAt b row col) (boxRowOthers row col r) = repeatsInBoxRow b row col r.
Proof.
  unfold holdsAny, boxRowOthers, repeatsInBoxRow.
  induction (seq (col / 3 * 3) 3) as [|c l IH]; [done|].
  rewrite filter_cons. cbn [existsb]. rewrite <- IH.
  destruct (decide (r ≠ row ∨ c ≠ col)) as [Hq|Hq].
  - cbn [map existsb fst snd]. f_equal. apply bool_decide_ext. tauto.
  - rewrite (bool_decide_eq_false_2 (_ ∧ _)) by tauto. done.
Qed.

Lemma entriesOf_app row col type l1 l2 :
  entriesOf row col type (l1 ++ l2) = entriesOf row col type l1 ++ entriesOf row col type l2.
Proof. apply filter_app. Qed.

Lemma entriesOf_pushIf row col type found e :
  errRow e = row → errCol e = col →
  entriesOf row col type (pushIf found e) =
  if found && bool_decide (errType e = type) then [e] else [].
Proof.
  intros Hr Hc. destruct found; [|done]. unfold entriesOf. cbn [pushIf andb].
  rewrite filter_cons, filter_nil.
  destruct (decide (errType e = type)) as [Ht|Ht].
  - rewrite decide_True by done. by rewrite bool_decide_eq_true_2.
  - rewrite decide_False by tauto. by rewrite bool_decide_eq_false_2.
Qed.

Lemma entriesOf_other_cells b row col type cells :
  (row, col) ∉ cells → entriesOf row col type (flat_map (cellErrors b) cells) = [].
Proof.
  intros Hnot.
  destruct (entriesOf row col type _) as [|e rest] eqn:Hf; [done|]. exfalso.
  assert (e ∈ entriesOf row col type (flat_map (cellErrors b) cells)) as Hin
    by (rewrite Hf; left).
  apply list_elem_of_filter in Hin as [(Hr & Hc & _) Hin].
  apply elem_of_flat_map_cellErrors in Hin as ([i j] & Hp & He).
  destruct (cellErrors_entry b (i, j) e He) as (Hi & Hj & _). cbn [fst snd] in *.
  apply Hnot. by rewrite <- Hr, <- Hc, Hi, Hj.
Qed.

Lemma entriesOf_box_rows row col (h : nat → bool) value rows :
  length (entriesOf row col ErrBox
            (flat_map (λ r, pushIf (h r) (boxError row col value)) rows)) =
  length (filter (λ r, h r = true) rows).
Proof.
  induction rows as [|r rows IH]; [done|].
  cbn [flat_map]. rewrite entriesOf_app, length_app, IH, filter_cons.
  rewrite entriesOf_pushIf by done.
  destruct (h r); [by rewrite decide_True|by rewrite decide_False].
Qed.

Lemma entriesOf_box_rows_other row col type (h : nat → bool) value rows :
  type ≠ ErrBox →
  entriesOf row col type (flat_map (λ r, pushIf (h r) (boxError row col value)) rows) = [].
Proof.
  intros Ht. induction rows as [|r rows IH]; [done|].
  cbn [flat_map]. rewrite entriesOf_app, IH, entriesOf_pushIf by done.
  rewrite (bool_decide_eq_false_2 (errType _ = type)), andb_false_r; [done|].
  intros Heq. by apply Ht.
Qed.

(** The entries of one cell in the whole report are the entries computed
    for that cell. *)
Lemma entriesOf_validate b row col type :
  row < 9 → col < 9 →
  entriesOf row col type (flat_map (cellErrors b) allCells) =
  entriesOf row col type (cellErrors b (row, col)).
Proof.
  intros Hr Hc.
  assert ((row, col) ∈ allCells) as Hin by (by apply elem_of_allCells).
  apply list_elem_of_split in Hin as (l1 & l2 & Hsplit).
  pose proof allCells_NoDup as Hnd. rewrite Hsplit in Hnd.
  apply NoDup_app in Hnd as (_ & Hl1 & Hnd). apply NoDup_cons in Hnd as [Hl2 _].
  rewrite Hsplit, flat_map_app. cbn [flat_map].
  rewrite !entriesOf_app, !entriesOf_other_cells, app_nil_r; [done|done|].
  intros Hin. apply (Hl1 _ Hin). left.
Qed.

(** X13. The box scan leaves only its inner loop when it finds a copy, so a
    cell is reported once for every row of its box that holds another copy
    of its value, up to three times; the row scan and the column scan report
    it at most once each. *)
Theorem validateBoard_entries_per_cell (b : SudokuBoard) (errs : list ValidationError)
    (row col : nat) :
  is9x9 b → validateBoard b = Ok errs → row < 9 → col < 9 →
  isEmptyVal (cellAt b row col) = false →
  length (entriesOf row col ErrBox errs) =
    length (filter (λ r, repeatsInBoxRow b row col r = true) (seq (row / 3 * 3) 3)) ∧
  length (entriesOf row col ErrRow errs) ≤ 1 ∧
  length (entriesOf row col ErrColumn errs) ≤ 1.
Proof.
  intros Hb. rewrite validateBoard_ok by done. intros <-%Ok_inj Hr Hc He.
  rewrite !entriesOf_validate by done.
  unfold cellErrors. cbn [fst snd]. rewrite He.
  rewrite !entriesOf_app, !length_app.
  rewrite !(entriesOf_pushIf _ _ _ _ (rowError row col _)) by done.
  rewrite !(entriesOf_pushIf _ _ _ _ (columnError row col _)) by done.
  rewrite (entriesOf_box_rows_other row col ErrRow) by done.
  rewrite (entriesOf_box_rows_other row col ErrColumn) by done.
  rewrite entriesOf_box_rows.
  cbn [rowError columnError errType].
  rewrite !(bool_decide_eq_false_2 (ErrRow = ErrBox)) by done.
  rewrite !(bool_decide_eq_false_2 (ErrColumn = ErrBox)) by done.
  rewrite !(bool_decide_eq_false_2 (ErrColumn = ErrRow)) by done.
  rewrite !(bool_decide_eq_false_2 (ErrRow = ErrColumn)) by done.
  rewrite !andb_false_r. cbn [length Nat.add].
  split; [|split].
  - f_equal. apply list_filter_iff. intros r. by rewrite holdsAny_boxRow.
  - destruct (_ && _); simpl; lia.
  - destruct (_ && _); simpl; lia.
Qed.

Lemma validateBoard_entries_per_cell_witness :
  length (entriesOf 1 1 ErrBox
    [mkError 0 0 ErrBox "Duplicate 5 in 3×3 box";
     mkError 1 1 ErrBox "Duplicate 5 in 3×3 box"]) =
    length (filter (λ r, repeatsInBoxRow (setCell (setCell createEmptyBoard 0 0 (JNum 5)) 1 1 (JNum 5)) 1 1 r = true)
              (seq (1 / 3 * 3) 3)) ∧
  length (entriesOf 1 1 ErrRow
    [mkError 0 0 ErrBox "Duplicate 5 in 3×3 box";
     mkError 1 1 ErrBox "Duplicate 5 in 3×3 box"]) ≤ 1 ∧
  length (entriesOf 1 1 ErrColumn
    [mkError 0 0 ErrBox "Duplicate 5 in 3×3 box";
     mkError 1 1 ErrBox "Duplicate 5 in 3×3 box"]) ≤ 1.
Proof.
  apply (validateBoard_entries_per_cell
           (setCell (setCell createEmptyBoard 0 0 (JNum 5)) 1 1 (JNum 5))).
  - do 2 apply setCell_9x9. split; [reflexivity|]. repeat constructor.
  - vm_compute. reflexivity.
  - lia.
  - lia.
  - reflexivity.
Defined.

(** ** [validateBoard] on a board with missing rows *)

Lemma anyEqual_not_OutOfFuel (b : SudokuBoard) value cells :
  anyEqual b value cells ≠ OutOfFuel.
Proof.
  induction cells as [|[i j] rest IH]; [done|]. cbn [anyEqual].
  unfold readCell. destruct (b !! i); [|done]. rewrite outcome_bind_Ok.
  by destruct (decide _).
Qed.

Lemma boxScan_not_OutOfFuel (b : SudokuBoard) value row col boxCol rs :
  boxScan b value row col boxCol rs ≠ OutOfFuel.
Proof.
  induction rs as [|r rest IH]; [done|]. cbn [boxScan].
  pose proof (anyEqual_not_OutOfFuel b value
    (map (λ c, (r, c)) (filter (λ c, r ≠ row ∨ c ≠ col) (seq boxCol 3)))) as Hany.
  destruct (anyEqual b value _) as [found| |]; [|done..].
  rewrite outcome_bind_Ok.
  by destruct (boxScan b value row col boxCol rest) as [later| |].
Qed.

Lemma validateCell_not_OutOfFuel (b : SudokuBoard) row col :
  validateCell b row col ≠ OutOfFuel.
Proof.
  unfold validateCell. unfold readCell at 1. destruct (b !! row); [|done].
  rewrite outcome_bind_Ok. destruct (isEmptyVal _); [done|].
  pose proof (anyEqual_not_OutOfFuel b (default JUndefined (l !! col))
    (map (λ c, (row, c)) (filter (λ c, c ≠ col) (seq 0 9)))) as H1.
  destruct (anyEqual b _ (map (λ c, (row, c)) _)) as [inRow| |]; [|done..].
  rewrite outcome_bind_Ok.
  pose proof (anyEqual_not_OutOfFuel b (default JUndefined (l !! col))
    (map (λ r, (r, col)) (filter (λ r, r ≠ row) (seq 0 9)))) as H2.
  destruct (anyEqual b _ (map (λ r, (r, col)) _)) as [inCol| |]; [|done..].
  rewrite outcome_bind_Ok. cbv zeta.
  pose proof (boxScan_not_OutOfFuel b (default JUndefined (l !! col)) row col
    (col / 3 * 3) (seq (row / 3 * 3) 3)) as H3.
  by destruct (boxScan b _ row col _ _) as [inBox| |].
Qed.

Lemma validateCells_throws (b : SudokuBoard) cells row col :
  (row, col) ∈ cells → length b ≤ row → validateCells b cells = TypeError.
Proof.
  intros Hin Hrow. induction cells as [|[i j] rest IH]; [by apply elem_of_nil in Hin|].
  cbn [validateCells]. pose proof (validateCell_not_OutOfFuel b i j) as Hfuel.
  destruct (validateCell b i j) as [here| |] eqn:Hhere; [|done..].
  rewrite outcome_bind_Ok. apply elem_of_cons in Hin as [[= <- <-]|Hin].
  - unfold validateCell in Hhere. by rewrite readCell_throws in Hhere.
  - by rewrite IH.
Qed.

(** X14. [validateBoard] reads all nine rows whatever the board holds: on a
    board with fewer than nine rows it raises a TypeError, when it reaches
    the first missing row or before. *)
Theorem validateBoard_missing_row (b : SudokuBoard) :
  length b < 9 → validateBoard b = TypeError.
Proof.
  intros Hlen. apply (validateCells_throws b allCells (length b) 0); [|done].
  apply elem_of_allCells. lia.
Qed.

Lemma validateBoard_missing_row_witness : validateBoard eightRows = TypeError.
Proof. apply validateBoard_missing_row. vm_compute. lia. Defined.

(** ** [getRelatedCells] *)

Lemma getRelatedCells_list row col :
  getRelatedCells row col = list_to_set (relatedKeys row col).
Proof.
  unfold getRelatedCells.
  assert (∀ l (s : gset string),
    fold_left (λ related key, related ∪ {[ key ]}) l s = s ∪ list_to_set l) as Hfold.
  { induction l as [|k l IH]; intros s; simpl.
    - by rewrite (right_id_L ∅ (∪)).
    - rewrite IH. by rewrite (assoc_L (∪)). }
  by rewrite Hfold, (left_id_L ∅ (∪)).
Qed.

Lemma relatedKeys_table :
  Forall (λ row, Forall (λ col,
    length (remove_dups (relatedKeys row col)) = 21 ∧
    Forall (λ p, cellKey p.1 p.2 ∈ relatedKeys row col ↔ inScope row col p.1 p.2 = true)
      allCells)
    (seq 0 9)) (seq 0 9).
Proof. apply (bool_decide_unpack _). vm_compute. exact I. Qed.

(** X15. For a cell of the board, [getRelatedCells] returns a set of 21
    keys, and the key of a cell of the board is in it exactly when the cell
    lies in the row, the column or the 3×3 box of the given cell (the cell
    itself included). *)
Theorem getRelatedCells_scope (row col : nat) :
  row < 9 → col < 9 →
  size (getRelatedCells row col) = 21 ∧
  ∀ i j, i < 9 → j < 9 →
    cellKey i j ∈ getRelatedCells row col ↔ inScope row col i j = true.
Proof.
  intros Hr Hc. pose proof relatedKeys_table as T.
  rewrite Forall_forall in T. specialize (T row ltac:(apply elem_of_seq; lia)).
  rewrite Forall_forall in T. specialize (T col ltac:(apply elem_of_seq; lia)).
  destruct T as [Hsize Hkeys]. rewrite getRelatedCells_list. split.
  - assert (list_to_set (relatedKeys row col)
            =@{gset string} list_to_set (remove_dups (relatedKeys row col))) as ->.
    { apply set_eq. intros key. by rewrite !elem_of_list_to_set, elem_of_remove_dups. }
    rewrite <- Hsize. apply size_list_to_set, NoDup_remove_dups.
  - intros i j Hi Hj. rewrite elem_of_list_to_set.
    rewrite Forall_forall in Hkeys. apply (Hkeys (i, j)). by apply elem_of_allCells.
Qed.

Lemma getRelatedCells_scope_witness :
  size (getRelatedCells 4 4) = 21 ∧
  ∀ i j, i < 9 → j < 9 →
    cellKey i j ∈ getRelatedCells 4 4 ↔ inScope 4 4 i j = true.
Proof. apply getRelatedCells_scope; lia. Defined.

(** ** The generator's parts *)

Lemma shuffleLoop_draws {A : Type} random i :
  ∀ (l : list A) k, (shuffleLoop random i l k).2 = k + i.
Proof.
  induction i as [|i IH]; intros l k; [simpl; lia|].
  cbn [shuffleLoop]. cbv zeta. rewrite IH. lia.
Qed.

(** X16. Whatever the random numbers are, [shuffle] returns a permutation of
    its argument, and it draws one random number for each element but one
    (none for an empty array). *)
Theorem shuffle_permutes {A : Type} (random : nat → nat) (array : list A) (k : nat) :
  (shuffle random array k).1 ≡ₚ array ∧
  (shuffle random array k).2 = k + (length array - 1).
Proof.
  split; [apply shuffle_Permutation|apply shuffleLoop_draws].
Qed.

(** X17. Started on a 9×9 board of digits and [null]s whose clues do not
    clash, [fillBoard] returns whatever the random numbers are; it returns
    true exactly when the board can be completed to a full valid grid, and
    then the board is such a completion; when it returns false the board is
    back to what it was. *)
Theorem fillBoard_completes (random : nat → nat) (b : SudokuBoard) (k : nat) :
  is9x9 b → clean b → cluesFit b →
  ∃ res b' k', fillBoard random b k = Ok (res, b', k') ∧
    (res = true ↔ ∃ s, completion b s) ∧
    if res then completion b b' else b' = b.
Proof.
  intros Hb Hclean Hclues.
  destruct (fillFuel_spec random (S (countNull b)) b k Hb Hclean ltac:(lia))
    as (res & b' & k' & Hrun & (H9 & _ & Hpost) & Hcomp).
  exists res, b', k'. split; [done|]. destruct res.
  - assert (completion b b') as Hdone.
    { apply searchPost_solved; [|done]. by split. }
    split; [|done]. split; [by exists b'|done].
  - split; [|done]. split; [done|]. intros Hs. by apply Hcomp.
Qed.

Lemma fillBoard_completes_witness :
  ∃ res b' k', fillBoard (λ _, 0) createEmptyBoard 0 = Ok (res, b', k') ∧
    (res = true ↔ ∃ s, completion createEmptyBoard s) ∧
    if res then completion createEmptyBoard b' else b' = createEmptyBoard.
Proof.
  apply fillBoard_completes.
  - apply is9x9_createEmptyBoard.
  - intros i j Hi Hj. left. by apply cellAt_createEmptyBoard.
  - intros i j Hi Hj He. by rewrite cellAt_createEmptyBoard in He.
Defined.

Lemma removeNumbers_dug (random : nat → nat) (s : SudokuBoard)
    (target k : nat) :
  solvedGrid s →
  ∃ g, removeNumbers random s target k = Ok g ∧
    is9x9 g ∧ dugFrom s g ∧ countNull g ≤ target ∧
    completion g s ∧ ∀ s', completion g s' → s' = s.
Proof.
  intros Hs. pose proof Hs as [Hs9 Hfits]. unfold removeNumbers.
  assert (full s) as Hfull.
  { intros i j Hi Hj. destruct (Hfits i j Hi Hj) as (n & Hn & -> & _).
    by apply isEmptyVal_digit. }
  pose proof (shuffle_Permutation random cells81 k) as Hperm.
  destruct (shuffle random cells81 k) as [shuffledCells k']. simpl in Hperm.
  destruct (removeLoop_spec s shuffledCells target Hs)
    with (b := s) (removed := 0) as (g & Hrun & Hg9 & Hdug & Hone & Hnulls).
  { rewrite Hperm. apply cells81_in_range. }
  { done. }
  { intros i j _ _. by right. }
  { by apply countSolutions_full. }
  { by rewrite full_countNull. }
  { lia. }
  exists g. split; [done|]. split; [done|]. split; [done|]. split; [done|].
  split; [by apply dugFrom_completion|].
  intros s' Hs'.
  destruct (countSolutions_spec g Hg9 (dugFrom_clean s g Hs Hdug))
    as (found & Hrun' & _ & Hunique).
  rewrite Hone in Hrun'. apply Ok_inj in Hrun'. injection Hrun' as <-.
  apply Hunique; [lia|done|]. by apply dugFrom_completion.
Qed.

(** X18. Applied to a full valid grid, [removeNumbers] returns whatever the
    random numbers and the target are; the result is the grid with at most
    [target] cells cleared, nothing else changed, and the grid is the only
    full valid grid that completes it. *)
Theorem removeNumbers_keeps_uniqueness (random : nat → nat) (s : SudokuBoard)
    (target k : nat) :
  solvedGrid s →
  ∃ g, removeNumbers random s target k = Ok g ∧
    is9x9 g ∧ dugFrom s g ∧ countNull g ≤ target ∧
    completion g s ∧ ∀ s', completion g s' → s' = s.
Proof. apply removeNumbers_dug. Qed.

Lemma removeNumbers_keeps_uniqueness_witness :
  ∃ g, removeNumbers (λ _, 0) exampleSolved 3 0 = Ok g ∧
    is9x9 g ∧ dugFrom exampleSolved g ∧ countNull g ≤ 3 ∧
    completion g exampleSolved ∧ ∀ s', completion g s' → s' = exampleSolved.
Proof. apply removeNumbers_keeps_uniqueness, solvedGrid_exampleSolved. Defined.

(** ** What [countSolutions] counts *)

Lemma cluesFit_place b row col n :
  is9x9 b → row < 9 → col < 9 → isDigit n →
  validAt b row col n = true → cluesFit b → cluesFit (setCell b row col (JNum n)).
Proof.
  intros Hb Hr Hc Hn Hval Hclues i j Hi Hj He.
  rewrite validAt_spec in Hval by done.
  destruct (decide ((i, j) = (row, col))) as [[= -> ->]|Hne].
  - exists n. split; [done|]. split; [by apply cellAt_setCell_eq|].
    intros i' j' Hi' Hj' Hs Hne'. rewrite cellAt_setCell_ne by done. by apply Hval.
  - rewrite cellAt_setCell_ne in He by done.
    destruct (Hclues i j Hi Hj He) as (n0 & Hn0 & Hcell & Halone).
    exists n0. split; [done|]. split; [by rewrite cellAt_setCell_ne|].
    intros i' j' Hi' Hj' Hs Hne'.
    destruct (decide ((i', j') = (row, col))) as [[= -> ->]|Hne2].
    + rewrite cellAt_setCell_eq by done. intros [= ->].
      apply (Hval i j Hi Hj); [by rewrite inScope_sym|done].
    + rewrite cellAt_setCell_ne by done. by apply Halone.
Qed.

Lemma completion_unplace b row col n s :
  is9x9 b → row < 9 → col < 9 → isDigit n →
  isEmptyVal (cellAt b row col) = true →
  completion (setCell b row col (JNum n)) s →
  completion b s ∧ cellAt s row col = JNum n.
Proof.
  intros Hb Hr Hc Hn He [Hs Hkeep]. split; [split; [done|]|].
  - intros i j Hi Hj Hne.
    assert ((i, j) ≠ (row, col)) as Hpos by (intros [= -> ->]; congruence).
    rewrite <- (cellAt_setCell_ne b row col (JNum n) i j Hpos).
    apply Hkeep; [done..|]. by rewrite cellAt_setCell_ne.
  - pose proof (cellAt_setCell_eq b row col (JNum n) Hb Hr Hc) as Hcell.
    rewrite (Hkeep row col Hr Hc); [done|]. rewrite Hcell.
    by apply isEmptyVal_digit.
Qed.

Section CountSound.

Variable rec : SudokuBoard → outcome (nat * SudokuBoard).
Variable m : nat.
Hypothesis rec_sound : ∀ b, is9x9 b → clean b → cluesFit b → countNull b < m →
  ∃ found ss, rec b = Ok (found, b) ∧ countedPost b found ss.
Variables row col : nat.
Hypothesis Hrow : row < 9.
Hypothesis Hcol : col < 9.
Variable b : SudokuBoard.
Hypothesis Hb : is9x9 b.
Hypothesis Hclean : clean b.
Hypothesis Hclues : cluesFit b.
Hypothesis Hnull : cellAt b row col = JNull.
Hypothesis Hm : countNull b ≤ m.

Lemma countLoop_sound nums :
  Forall isDigit nums → NoDup nums →
  ∀ count, ∃ total ss,
    countLoop rec 2 row col nums b count = Ok (total, b) ∧
    countedPost b (total - count) ss ∧ count ≤ total ∧
    ∀ s, s ∈ ss → ∃ n, n ∈ nums ∧ cellAt s row col = JNum n.
Proof.
  assert (He : isEmptyVal (cellAt b row col) = true) by (by rewrite Hnull).
  induction 1 as [|n rest Hn _ IH]; intros Hnd count.
  - exists count, []. split; [done|]. split.
    + split; [constructor|]. split; [simpl; lia|]. by intros s ?%elem_of_nil.
    + split; [done|]. by intros s ?%elem_of_nil.
  - apply NoDup_cons in Hnd as [Hfresh Hnd]. specialize (IH Hnd).
    cbn [countLoop]. rewrite isValid_ok, outcome_bind_Ok by done.
    destruct (validAt b row col n) eqn:Hval.
    + rewrite writeCell_ok, outcome_bind_Ok by done.
      destruct (rec_sound (setCell b row col (JNum n)))
        as (found & ss1 & -> & Hnd1 & Hlen1 & Hall1).
      { by apply setCell_9x9. }
      { by apply clean_setCell_digit. }
      { by apply cluesFit_place. }
      { pose proof (countNull_place b row col n Hb Hrow Hcol Hnull). lia. }
      rewrite outcome_bind_Ok. cbv zeta.
      rewrite writeCell_ok, outcome_bind_Ok by (done || by apply setCell_9x9).
      pose proof (setCell_restore b row col (JNum n) Hb Hrow Hcol) as Hback.
      rewrite Hnull in Hback. rewrite Hback.
      assert (∀ s, s ∈ ss1 → completion b s ∧ cellAt s row col = JNum n) as Hss1.
      { intros s Hin. by apply completion_unplace, Hall1. }
      destruct (decide (2 ≤ count + found)) as [Hcap|Hcap].
      { exists (count + found), ss1. split; [done|]. split.
        - split; [done|]. split; [lia|]. intros s Hin. by apply Hss1.
        - split; [lia|]. intros s Hin. exists n. split; [by left|by apply Hss1]. }
      destruct (IH (count + found)) as (total & ss2 & -> & (Hnd2 & Hlen2 & Hall2) & Hle & Hcells).
      exists total, (ss1 ++ ss2). split; [done|]. split.
      * split; [|split].
        -- apply NoDup_app. split; [done|]. split; [|done].
           intros s Hin1 Hin2. destruct (Hcells s Hin2) as (n' & Hn' & Hcell').
           destruct (Hss1 s Hin1) as [_ Hcell]. rewrite Hcell in Hcell'.
           injection Hcell' as ->. done.
        -- rewrite length_app. lia.
        -- intros s [Hin|Hin]%elem_of_app; [by apply Hss1|by apply Hall2].
      * split; [lia|]. intros s [Hin|Hin]%elem_of_app.
        -- exists n. split; [by left|by apply Hss1].
        -- destruct (Hcells s Hin) as (n' & Hn' & Hcell'). exists n'.
           split; [by right|done].
    + destruct (IH count) as (total & ss & -> & Hpost & Hle & Hcells).
      exists total, ss. split; [done|]. split; [done|]. split; [done|].
      intros s Hin. destruct (Hcells s Hin) as (n' & Hn' & Hcell').
      exists n'. split; [by right|done].
Qed.

End CountSound.

Lemma digits_NoDup : NoDup digits.
Proof. apply (bool_decide_unpack _). vm_compute. exact I. Qed.

Lemma countFuel_sound fuel :
  ∀ b, is9x9 b → clean b → cluesFit b → countNull b < fuel →
  ∃ found ss, countFuel fuel 2 b = Ok (found, b) ∧ countedPost b found ss.
Proof.
  induction fuel as [|fuel IH]; intros b Hb Hclean Hclues Hfuel; [lia|].
  rewrite countFuel_S. destruct (firstNull b) as [[row col]|] eqn:Hfirst.
  - apply firstNull_Some in Hfirst as (Hr & Hc & Hnull); [|done].
    destruct (countLoop_sound _ fuel IH row col Hr Hc b Hb Hclean Hclues Hnull ltac:(lia)
      digits digits_are_digits digits_NoDup 0) as (total & ss & Hrun & Hpost & _).
    exists total, ss. split; [done|]. by rewrite Nat.sub_0_r in Hpost.
  - pose proof (firstNull_None b Hfirst) as Hnonull.
    pose proof (clean_no_null_full b Hclean Hnonull) as Hfull.
    exists 1, [b]. split; [done|]. split; [apply NoDup_singleton|]. split; [done|].
    intros s ->%list_elem_of_singleton. split; [|by intros i j _ _ _].
    split; [done|]. intros i j Hi Hj. apply Hclues; [done..|]. by apply Hfull.
Qed.

(** X19. On a 9×9 board of digits and [null]s whose clues do not clash,
    [countSolutions] returns, leaves the board as it was, and its count is
    backed by that many different full valid grids completing the board;
    when the count is below the limit 2 these are all the completions there
    are. So 0 means no solution, 1 exactly one, and 2 or more at least
    two. *)
Theorem countSolutions_counts (b : SudokuBoard) :
  is9x9 b → clean b → cluesFit b →
  ∃ found ss, countSolutions b = Ok (found, b) ∧
    NoDup ss ∧ length ss = found ∧ (∀ s, s ∈ ss → completion b s) ∧
    (found < 2 → ∀ s, completion b s → s ∈ ss).
Proof.
  intros Hb Hclean Hclues.
  destruct (countFuel_sound (S (countNull b)) b Hb Hclean Hclues ltac:(lia))
    as (found & ss & Hrun & Hnd & Hlen & Hall).
  destruct (countSolutions_spec b Hb Hclean) as (found' & Hrun' & Hsome & Hone).
  unfold countSolutions in *. rewrite Hrun in Hrun'.
  apply Ok_inj in Hrun'. injection Hrun' as <-.
  exists found, ss. split; [done|]. split; [done|]. split; [done|]. split; [done|].
  intros Hlt s Hs. assert (1 ≤ found) as Hpos by (apply Hsome; by exists s).
  destruct ss as [|s0 [|s1 rest]]; simpl in Hlen; [lia| |lia].
  assert (s = s0) as ->; [|left].
  apply Hone; [lia|done|]. apply Hall. left.
Qed.

Lemma countSolutions_counts_witness :
  countSolutions twoWays = Ok (2, twoWays) ∧
  ∃ found ss, countSolutions twoWays = Ok (found, twoWays) ∧
    NoDup ss ∧ length ss = found ∧ (∀ s, s ∈ ss → completion twoWays s) ∧
    (found < 2 → ∀ s, completion twoWays s → s ∈ ss).
Proof.
  split; [vm_compute; reflexivity|].
  assert (is9x9 twoWays) as Hb.
  { do 4 apply setCell_9x9. split; [reflexivity|]. repeat constructor. }
  assert (Forall (λ p, cellAt twoWays p.1 p.2 = JNull ∨
            cellAt twoWays p.1 p.2 = cellAt exampleSolved p.1 p.2) allCells) as T
    by (apply (bool_decide_unpack _); vm_compute; exact I).
  rewrite Forall_forall in T.
  assert (dugFrom exampleSolved twoWays) as Hdug.
  { intros i j Hi Hj. apply (T (i, j)). by apply elem_of_allCells. }
  apply countSolutions_counts.
  - done.
  - apply (dugFrom_clean exampleSolved); [apply solvedGrid_exampleSolved|done].
  - apply (completion_cluesFit twoWays exampleSolved).
    apply dugFrom_completion; [apply solvedGrid_exampleSolved|done].
Defined.

(** ** Generator, solver and validator together *)

Lemma generateSudoku_dug (random : nat → nat) (difficulty : Difficulty) :
  ∃ g s, generateSudoku random difficulty = Ok g ∧
    is9x9 g ∧ dugFrom s g ∧ completion g s ∧ ∀ s', completion g s' → s' = s.
Proof.
  unfold generateSudoku. cbv zeta.
  destruct (fillFuel_spec random (S (countNull createEmptyBoard)) createEmptyBoard 0)
    as (res & s & k & Hfill & (Hs9 & Hsclean & Hpost) & Hcomp).
  { apply is9x9_createEmptyBoard. }
  { intros i j Hi Hj. left. by apply cellAt_createEmptyBoard. }
  { lia. }
  rewrite (Hcomp (ex_intro _ _ completion_createEmptyBoard)) in Hfill, Hpost.
  destruct Hpost as (Hfull & _ & Hfit).
  assert (solvedGrid s) as Hs.
  { split; [done|]. intros i j Hi Hj. apply Hfit; [done..|].
    by rewrite cellAt_createEmptyBoard. }
  unfold fillBoard. rewrite Hfill, outcome_bind_Ok.
  destruct (removeNumbers_dug random s (cellsToRemove difficulty) k Hs)
    as (g & Hrun & Hg9 & Hdug & _ & Hcompl & Hunique).
  by exists g, s.
Qed.

(** X20. Whatever the random numbers are, the puzzle [generateSudoku]
    returns passes [validateBoard] without an entry, and
    [solveSudokuInstant] solves it: it returns true with a full valid grid
    that keeps the puzzle's clues, the only such grid. *)
Theorem generated_puzzle_is_solved (random : nat → nat) (difficulty : Difficulty) :
  ∃ g s, generateSudoku random difficulty = Ok g ∧
    validateBoard g = Ok [] ∧
    solveSudokuInstant g = Ok (true, s) ∧
    completion g s ∧ ∀ s', completion g s' → s' = s.
Proof.
  destruct (generateSudoku_dug random difficulty)
    as (g & s & Hgen & Hg9 & Hdug & Hcompl & Hunique).
  exists g, s. split; [done|]. split; [|split; [|done]].
  - rewrite validateBoard_ok by done. f_equal.
    apply flat_map_nil. intros [i j] [Hi Hj]%elem_of_allCells.
    destruct (isEmptyVal (cellAt g i j)) eqn:He; [by apply cellErrors_empty|].
    apply cellErrors_alone; [done..|].
    destruct (completion_cluesFit g s Hcompl i j Hi Hj He) as (n & _ & -> & Halone).
    done.
  - destruct (solveSudokuInstant_spec g Hg9) as (res & b' & Hrun & Hpost).
    destruct res.
    2:{ destruct (solveSudokuInstant_complete g b' Hg9 Hrun). by exists s. }
    rewrite Hrun. do 2 f_equal. apply Hunique, searchPost_solved; [done|].
    by apply (completion_cluesFit g s).
Qed.

(** ** The page: fixed cells and the reset of the board *)

Lemma cellKey_inj_table :
  Forall (λ p, Forall (λ q, cellKey p.1 p.2 = cellKey q.1 q.2 → p = q) allCells) allCells.
Proof. apply (bool_decide_unpack _). vm_compute. exact I. Qed.

Lemma cellKey_inj i j i' j' :
  i < 9 → j < 9 → i' < 9 → j' < 9 → cellKey i j = cellKey i' j' → (i, j) = (i', j').
Proof.
  intros Hi Hj Hi' Hj'. pose proof cellKey_inj_table as T.
  rewrite Forall_forall in T. specialize (T (i, j) ltac:(by apply elem_of_allCells)).
  rewrite Forall_forall in T. apply (T (i', j')). by apply elem_of_allCells.
Qed.

Lemma elem_of_fixedKeys (puzzle : SudokuBoard) key :
  key ∈ fixedKeys puzzle ↔
  ∃ i j row cell, puzzle !! i = Some row ∧ row !! j = Some cell ∧ cell ≠ JNull ∧
    key = cellKey i j.
Proof.
  unfold fixedKeys. rewrite list_elem_of_omap. split.
  - intros (o & Hin & Ho). simpl in Ho. subst o.
    apply list_elem_of_In, in_concat in Hin as (cells & Hcells & Hin).
    apply list_elem_of_In, elem_of_lookup_imap in Hcells as (i & row & -> & Hrow).
    apply list_elem_of_In, elem_of_lookup_imap in Hin as (j & cell & Hcell & Hj).
    exists i, j, row, cell. split; [done|]. split; [done|].
    destruct cell; (done || by injection Hcell as ->).
  - intros (i & j & row & cell & Hrow & Hj & Hcell & ->).
    exists (Some (cellKey i j)). split; [|done].
    apply list_elem_of_In, in_concat.
    exists (imap (λ j' cell,
      match cell with JNull => None | _ => Some (cellKey i j') end) row).
    rewrite <- !list_elem_of_In. split.
    + apply (elem_of_lookup_imap (λ i' row', imap (λ j' cell,
        match cell with JNull => None | _ => Some (cellKey i' j') end) row')).
      by exists i, row.
    + apply (elem_of_lookup_imap (λ j' (cell : jsval),
        match cell with JNull => None | _ => Some (cellKey i j') end)).
      exists j, cell. split; [by destruct cell|done].
Qed.

Lemma fixed_on_board (puzzle : SudokuBoard) i j :
  is9x9 puzzle → i < 9 → j < 9 →
  cellKey i j ∈ (loadPuzzle puzzle).2 ↔ cellAt puzzle i j ≠ JNull.
Proof.
  intros Hp Hi Hj. unfold loadPuzzle. cbn [snd].
  rewrite elem_of_list_to_set, elem_of_fixedKeys.
  destruct (is9x9_row puzzle i Hp Hi) as (row & Hrow & Hlen).
  destruct (lookup_lt_is_Some_2 row j) as [cell Hcell]; [lia|].
  unfold cellAt. rewrite Hrow, Hcell. cbn [default]. split.
  - intros (i' & j' & row' & cell' & Hrow' & Hcell' & Hne & Hkey).
    apply lookup_lt_Some in Hrow' as Hi'. apply lookup_lt_Some in Hcell' as Hj'.
    destruct Hp as [Hlen9 Hrows]. rewrite Forall_forall in Hrows.
    rewrite (Hrows row') in Hj' by (apply list_elem_of_lookup; eauto).
    apply cellKey_inj in Hkey as [= <- <-]; [|lia..].
    rewrite Hrow in Hrow'. injection Hrow' as <-.
    rewrite Hcell in Hcell'. by injection Hcell' as ->.
  - intros Hne. by exists i, j, row, cell.
Qed.

Lemma handleResetSteps_9x9 (board : SudokuBoard) fixedCells :
  is9x9 board → is9x9 (handleResetSteps board fixedCells).
Proof.
  intros [Hlen Hrows]. unfold handleResetSteps. split; [by rewrite length_imap|].
  apply Forall_forall. intros row' Hin.
  apply elem_of_lookup_imap in Hin as (i & row & -> & Hrow).
  rewrite length_imap. rewrite Forall_forall in Hrows.
  apply Hrows, list_elem_of_lookup. eauto.
Qed.

Lemma cellAt_handleResetSteps (board : SudokuBoard) fixedCells i j :
  is9x9 board → i < 9 → j < 9 →
  cellAt (handleResetSteps board fixedCells) i j =
  if decide (cellKey i j ∈ fixedCells) then cellAt board i j else JNull.
Proof.
  intros Hb Hi Hj. destruct (is9x9_row board i Hb Hi) as (row & Hrow & Hlen).
  destruct (lookup_lt_is_Some_2 row j) as [cell Hcell]; [lia|].
  unfold cellAt, handleResetSteps.
  rewrite list_lookup_imap, Hrow. cbn [fmap option_fmap option_map].
  rewrite list_lookup_imap, Hcell. done.
Qed.

(** X21. [loadPuzzle] marks as fixed exactly the cells of the puzzle that
    are not [null]; a cell holding [0], which the solver takes for an empty
    cell, is marked fixed. *)
Theorem loadPuzzle_fixed_cells (puzzle : SudokuBoard) :
  is9x9 puzzle →
  (∀ i j, i < 9 → j < 9 →
     cellKey i j ∈ (loadPuzzle puzzle).2 ↔ cellAt puzzle i j ≠ JNull) ∧
  (∀ i j, i < 9 → j < 9 → cellAt puzzle i j = JNum 0 →
     cellKey i j ∈ (loadPuzzle puzzle).2 ∧ isEmptyVal (cellAt puzzle i j) = true).
Proof.
  intros Hp. split.
  - intros i j Hi Hj. by apply fixed_on_board.
  - intros i j Hi Hj Hzero. split; [|by rewrite Hzero].
    apply fixed_on_board; [done..|]. by rewrite Hzero.
Qed.

Lemma loadPuzzle_fixed_cells_witness :
  (∀ i j, i < 9 → j < 9 →
     cellKey i j ∈ (loadPuzzle zeroMarked).2 ↔ cellAt zeroMarked i j ≠ JNull) ∧
  (∀ i j, i < 9 → j < 9 → cellAt zeroMarked i j = JNum 0 →
     cellKey i j ∈ (loadPuzzle zeroMarked).2 ∧
     isEmptyVal (cellAt zeroMarked i j) = true).
Proof.
  apply loadPuzzle_fixed_cells. split; [reflexivity|]. repeat constructor.
Defined.

(** X22. Loading a 9×9 puzzle and resetting brings the puzzle back: whatever
    the board has become, as long as it is 9×9 and still holds the puzzle's
    values in the cells that are not [null] in the puzzle,
    [handleResetSteps] with the fixed cells of [loadPuzzle] sets the board
    to the puzzle. *)
Theorem reset_restores_puzzle (puzzle board : SudokuBoard) :
  is9x9 puzzle → is9x9 board →
  (∀ i j, i < 9 → j < 9 → cellAt puzzle i j ≠ JNull →
     cellAt board i j = cellAt puzzle i j) →
  handleResetSteps board (loadPuzzle puzzle).2 = puzzle.
Proof.
  intros Hp Hb Hkeep. apply board_ext; [by apply handleResetSteps_9x9|done|].
  intros i j Hi Hj. rewrite cellAt_handleResetSteps by done.
  destruct (decide (cellKey i j ∈ (loadPuzzle puzzle).2)) as [Hin|Hout].
  - apply Hkeep; [done..|]. by apply fixed_on_board.
  - destruct (decide (cellAt puzzle i j = JNull)) as [->|Hne]; [done|].
    destruct Hout. by apply fixed_on_board.
Qed.

Lemma reset_restores_puzzle_witness :
  handleResetSteps exampleSolved (loadPuzzle examplePuzzle).2 = examplePuzzle.
Proof.
  apply reset_restores_puzzle.
  - split; [reflexivity|]. repeat constructor.
  - apply solvedGrid_exampleSolved.
  - intros i j Hi Hj.
    assert (Forall (λ p, cellAt examplePuzzle p.1 p.2 ≠ JNull →
              cellAt exampleSolved p.1 p.2 = cellAt examplePuzzle p.1 p.2) allCells)
      as T by (apply (bool_decide_unpack _); vm_compute; exact I).
    rewrite Forall_forall in T. apply (T (i, j)). by apply elem_of_allCells.
Defined.

(** ** Every order can come out of [shuffle] *)

Lemma shuffleLoop_ext {A : Type} (r1 r2 : nat → nat) i :
  ∀ (l : list A) k, (∀ t, k ≤ t → r1 t = r2 t) →
  shuffleLoop r1 i l k = shuffleLoop r2 i l k.
Proof.
  induction i as [|i IH]; intros l k Hsame; [done|].
  cbn [shuffleLoop]. cbv zeta. rewrite (Hsame k) by lia.
  apply IH. intros t Ht. apply Hsame. lia.
Qed.

Lemma swap_length {A : Type} (l : list A) i j : length (swap l i j) = length l.
Proof. apply Permutation_length, swap_Permutation. Qed.

Lemma shuffleLoop_reaches {A : Type} i :
  ∀ (arr target : list A) k,
    i < length arr →
    take (S i) target ≡ₚ take (S i) arr → drop (S i) target = drop (S i) arr →
    ∃ random, (shuffleLoop random i arr k).1 = target.
Proof.
  induction i as [|i IH]; intros arr target k Hi Htake Hdrop.
  - exists (λ _, 0). cbn [shuffleLoop fst].
    destruct (lookup_lt_is_Some_2 arr 0 Hi) as [a Ha].
    rewrite (take_S_r arr 0 a Ha) in Htake. rewrite take_0 in Htake. simpl in Htake.
    apply Permutation_singleton_r in Htake.
    rewrite <- (take_drop 1 arr), <- (take_drop 1 target), Hdrop, Htake.
    by rewrite (take_S_r arr 0 a Ha), take_0.
  - assert (length target = length arr) as Hlen.
    { rewrite <- (take_drop (S (S i)) target), <- (take_drop (S (S i)) arr).
      rewrite !length_app, Hdrop. f_equal. by apply Permutation_length. }
    destruct (lookup_lt_is_Some_2 target (S i)) as [x Hx]; [lia|].
    destruct (lookup_lt_is_Some_2 arr (S i)) as [y Hy]; [lia|].
    assert (x ∈ take (S (S i)) arr) as Hin.
    { rewrite <- Htake. apply list_elem_of_lookup. exists (S i).
      apply lookup_take_Some. split; [done|lia]. }
    apply list_elem_of_lookup in Hin as [j Hj].
    apply lookup_take_Some in Hj as [Hj Hjlt].
    pose proof (swap_Permutation arr (S i) j) as Hperm.
    assert (swap arr (S i) j = <[j := y]> (<[S i := x]> arr)) as Hswap.
    { unfold swap. by rewrite Hy, Hj. }
    assert (drop (S (S i)) (swap arr (S i) j) = drop (S (S i)) arr) as Hdrop'.
    { rewrite Hswap. by rewrite !drop_insert_lt by lia. }
    assert (swap arr (S i) j !! S i = Some x) as Hx'.
    { rewrite Hswap. destruct (decide (j = S i)) as [->|Hne].
      - rewrite list_lookup_insert_eq by (rewrite length_insert; lia). congruence.
      - rewrite list_lookup_insert_ne by done.
        by rewrite list_lookup_insert_eq by lia. }
    assert (take (S (S i)) (swap arr (S i) j) ≡ₚ take (S (S i)) arr) as Htake'.
    { apply (Permutation_app_inv_r (drop (S (S i)) arr)).
      rewrite <- Hdrop' at 1. by rewrite !take_drop. }
    destruct (IH (swap arr (S i) j) target (S k)) as [random' Hrun].
    + rewrite swap_length. lia.
    + apply (Permutation_app_inv_r [x]).
      rewrite <- (take_S_r target (S i) x Hx), <- (take_S_r _ (S i) x Hx').
      by rewrite Htake, Htake'.
    + rewrite (drop_S target x (S i) Hx), (drop_S _ x (S i) Hx').
      by rewrite Hdrop, Hdrop'.
    + exists (λ t, if decide (t = k) then j else random' t).
      cbn [shuffleLoop]. cbv zeta. rewrite decide_True by done.
      rewrite Nat.mod_small by lia. rewrite <- Hrun. f_equal.
      apply shuffleLoop_ext. intros t Ht. by rewrite decide_False by lia.
Qed.

(** X23. [shuffle] can return every rearrangement of its argument: for each
    permutation of the array there are random numbers with which [shuffle]
    returns it. *)
Theorem shuffle_reaches_every_order {A : Type} (array target : list A) (k : nat) :
  target ≡ₚ array → ∃ random, (shuffle random array k).1 = target.
Proof.
  intros Hperm. unfold shuffle. destruct array as [|a array].
  - apply Permutation_nil_r in Hperm as ->. by exists (λ _, 0).
  - pose proof (Permutation_length Hperm) as Hlen.
    apply shuffleLoop_reaches.
    + simpl. lia.
    + rewrite !take_ge by (simpl in *; lia). done.
    + rewrite !drop_ge by (simpl in *; lia). done.
Qed.

Lemma shuffle_reaches_every_order_witness :
  ∃ random, (shuffle random [1; 2; 3] 0).1 = [3; 1; 2].
Proof.
  apply shuffle_reaches_every_order.
  apply (Permutation_cons_app [1; 2] [] 3). reflexivity.
Defined.

(** ** Validator, then solver *)

(** X24. The validator's check is what the solver needs: on a 9×9 board
    whose filled cells hold digits 1..9 and for which [validateBoard]
    returns no entry, [solveSudokuInstant] returns true exactly when the
    board can be completed to a full valid grid, and then the board it
    leaves is such a completion, for which [validateBoard] again returns no
    entry. *)
Theorem validated_board_solves (b : SudokuBoard) :
  is9x9 b → inRange b → validateBoard b = Ok [] →
  ∃ res b', solveSudokuInstant b = Ok (res, b') ∧
    (res = true ↔ ∃ s, completion b s) ∧
    (res = true → completion b b' ∧ validateBoard b' = Ok []).
Proof.
  intros Hb Hrange Hvalid.
  assert (cluesFit b) as Hclues.
  { intros i j Hi Hj He. destruct (Hrange i j Hi Hj) as [He'|(n & Hn & Hcell)];
      [congruence|].
    exists n. split; [done|]. split; [done|].
    rewrite validateBoard_ok in Hvalid by done. apply Ok_inj in Hvalid.
    intros i' j' Hi' Hj' Hs Hne Heq.
    apply (proj2 (cellErrors_conflict b i j Hi Hj)).
    - split; [done|]. exists i', j'. by rewrite Hcell.
    - apply (flat_map_nil_inv _ _ Hvalid). by apply elem_of_allCells. }
  destruct (solveSudokuInstant_spec b Hb) as (res & b' & Hrun & Hpost).
  exists res, b'. split; [done|]. destruct res.
  - pose proof (searchPost_solved b b' Hpost Hclues) as Hdone.
    split; [split; [by exists b'|done]|]. intros _. split; [done|].
    destruct Hdone as [[Hb' Hfits] _]. rewrite validateBoard_ok by done. f_equal.
    apply flat_map_nil. intros [i j] [Hi Hj]%elem_of_allCells.
    destruct (Hfits i j Hi Hj) as (n & _ & Hn & Halone).
    apply cellErrors_alone; [done..|]. by rewrite Hn.
  - split; [|done]. split; [done|]. intros Hs.
    by destruct (solveSudokuInstant_complete b b' Hb Hrun).
Qed.

Lemma validated_board_solves_witness :
  ∃ res b', solveSudokuInstant examplePuzzle = Ok (res, b') ∧
    (res = true ↔ ∃ s, completion examplePuzzle s) ∧
    (res = true → completion examplePuzzle b' ∧ validateBoard b' = Ok []).
Proof.
  apply validated_board_solves.
  - split; [reflexivity|]. repeat constructor.
  - intros i j Hi Hj.
    assert (Forall (λ p, isEmptyVal (cellAt examplePuzzle p.1 p.2) = true ∨
              ∃ n, n ∈ digits ∧ cellAt examplePuzzle p.1 p.2 = JNum n) allCells) as T.
    { apply Forall_forall. intros p Hp.
      assert (Forall (λ p, isEmptyVal (cellAt examplePuzzle p.1 p.2) = true ∨
                Exists (λ n, cellAt examplePuzzle p.1 p.2 = JNum n) digits) allCells) as T
        by (apply (bool_decide_unpack _); vm_compute; exact I).
      rewrite Forall_forall in T. destruct (T p Hp) as [He|Hex]; [by left|right].
      apply Exists_exists in Hex as (n & Hn & Hcell). by exists n. }
    rewrite Forall_forall in T.
    destruct (T (i, j) ltac:(by apply elem_of_allCells)) as [He|(n & Hn & Hcell)];
      [by left|right].
    exists n. split; [by apply isDigit_elem|done].
  - vm_compute. reflexivity.
Defined.

(** ** The solver on a board with missing rows *)

Lemma noneEqual_throws (b : SudokuBoard) num cells i j :
  (i, j) ∈ cells → length b ≤ i →
  noneEqual b num cells = TypeError ∨ noneEqual b num cells = Ok false.
Proof.
  intros Hin Hi. induction cells as [|[i' j'] rest IH]; [by apply elem_of_nil in Hin|].
  cbn [noneEqual]. apply elem_of_cons in Hin as [[= <- <-]|Hin].
  - rewrite readCell_throws by done. by left.
  - unfold readCell. destruct (b !! i'); [|by left]. rewrite outcome_bind_Ok.
    destruct (strictEq _ num); [by right|by apply IH].
Qed.

Lemma noneEqual_not_OutOfFuel (b : SudokuBoard) num cells :
  noneEqual b num cells ≠ OutOfFuel.
Proof.
  induction cells as [|[i j] rest IH]; [done|]. cbn [noneEqual].
  unfold readCell. destruct (b !! i); [|done]. rewrite outcome_bind_Ok.
  by destruct (strictEq _ num).
Qed.

Lemma isValid_missing_row (b : SudokuBoard) row col num :
  length b < 9 →
  isValid b row col num = TypeError ∨ isValid b row col num = Ok false.
Proof.
  intros Hlen. unfold isValid.
  pose proof (noneEqual_not_OutOfFuel b num (rowCells row)) as Hrow.
  destruct (noneEqual b num (rowCells row)) as [[|]| |]; [|by right|by left|done].
  rewrite outcome_bind_Ok. cbn [negb].
  destruct (noneEqual_throws b num (colCells col) (length b) col) as [-> | ->];
    [apply elem_of_colCells; lia|done|by left|by right].
Qed.

Lemma tryDigits_missing_row rec (b : SudokuBoard) row col nums :
  length b < 9 →
  tryDigits rec row col nums b = TypeError ∨ tryDigits rec row col nums b = Ok (false, b).
Proof.
  intros Hlen. induction nums as [|num rest IH]; [by right|].
  cbn [tryDigits]. destruct (isValid_missing_row b row col num Hlen) as [-> | ->];
    [by left|]. by rewrite outcome_bind_Ok.
Qed.

Lemma firstEmpty_throws (b : SudokuBoard) cells i j :
  (i, j) ∈ cells → length b ≤ i →
  firstEmpty b cells = TypeError ∨ ∃ p, firstEmpty b cells = Ok (Some p).
Proof.
  intros Hin Hi. induction cells as [|[i' j'] rest IH]; [by apply elem_of_nil in Hin|].
  cbn [firstEmpty]. apply elem_of_cons in Hin as [[= <- <-]|Hin].
  - rewrite readCell_throws by done. by left.
  - unfold readCell. destruct (b !! i'); [|by left]. rewrite outcome_bind_Ok.
    destruct (isEmptyVal _); [right; by eexists|by apply IH].
Qed.

(** X26. On a board with fewer than nine rows [solveSudokuInstant] never
    reports a solution and never places a digit: it raises a TypeError, or
    returns false with the board as it was. *)
Theorem solveSudokuInstant_missing_row (b : SudokuBoard) :
  length b < 9 →
  solveSudokuInstant b = TypeError ∨ solveSudokuInstant b = Ok (false, b).
Proof.
  intros Hlen. unfold solveSudokuInstant. rewrite solveFuel_S. unfold findEmpty.
  destruct (firstEmpty_throws b allCells (length b) 0) as [-> |[[row col] ->]];
    [apply elem_of_allCells; lia|done|by left|].
  rewrite outcome_bind_Ok. by apply tryDigits_missing_row.
Qed.

Lemma solveSudokuInstant_missing_row_witness :
  solveSudokuInstant eightRows = TypeError ∨
  solveSudokuInstant eightRows = Ok (false, eightRows).
Proof. apply solveSudokuInstant_missing_row. vm_compute. lia. Defined.
